(** * one-api relay: the text relay controller (relay/controller/text.go)

    A shallow embedding of the text relay controller and of the parts of
    the Go standard library it calls (package strings, unicode/utf8 and
    encoding/json), followed by the properties of the controller.

    Go strings and byte slices are byte sequences: they are modelled by
    [string] (a sequence of 8-bit [ascii] values).  Go's [int] results
    that only ever hold lengths are modelled by [nat] or [Z]. *)

From Stdlib Require Import ZArith NArith List Ascii String Bool Lia.
From stdpp Require Import gmap strings pretty.
Import ListNotations.

Open Scope string_scope.

(** ** Bytes *)

Definition DQ : ascii := "034"%char.       (* the double quote *)
Definition LF : ascii := "010"%char.
Definition byte_of (c : ascii) : N := N_of_ascii c.
Definition chr (n : N) : ascii := ascii_of_N n.

(** [sq s] is [s] with every apostrophe replaced by a double quote; it
    is only used to write JSON test inputs legibly. *)
Fixpoint sq (s : string) : string :=
  match s with
  | EmptyString => EmptyString
  | String c s' => String (if (c =? "'")%char then DQ else c) (sq s')
  end.

(** Slices [s[n:]] and [s[:n]] (for [n <= len(s)]). *)
Fixpoint drop_bytes (n : nat) (s : string) : string :=
  match n, s with
  | O, _ => s
  | S n', String _ s' => drop_bytes n' s'
  | S _, EmptyString => EmptyString
  end.

Fixpoint take_bytes (n : nat) (s : string) : string :=
  match n, s with
  | O, _ => EmptyString
  | S n', String c s' => String c (take_bytes n' s')
  | S _, EmptyString => EmptyString
  end.

Fixpoint rev_bytes (s acc : string) : string :=
  match s with
  | EmptyString => acc
  | String c s' => rev_bytes s' (String c acc)
  end.

Definition reverse_string (s : string) : string := rev_bytes s EmptyString.

Definition concat_strings (l : list string) : string :=
  fold_right String.append EmptyString l.

(** ** unicode/utf8 and unicode.IsSpace *)
Module utf8.

Local Open Scope N_scope.

Definition RuneError : N := 65533.      (* U+FFFD *)
Definition RuneSelf : N := 128.
Definition MaxRune : N := 1114111.      (* U+10FFFF *)

Definition in_range (lo hi b : N) : bool := (lo <=? b)%N && (b <=? hi)%N.
Definition is_cont (b : N) : bool := in_range 128 191 b.   (* locb..hicb *)

(** The table [first] and [acceptRanges]: for a leading byte, the
    length of the sequence and the range accepted for the second byte;
    [None] for a byte that starts no multi-byte sequence. *)
Definition first (p0 : N) : option (nat * N * N) :=
  if in_range 194 223 p0 then Some (2%nat, 128, 191)
  else if (p0 =? 224)%N then Some (3%nat, 160, 191)
  else if in_range 225 236 p0 then Some (3%nat, 128, 191)
  else if (p0 =? 237)%N then Some (3%nat, 128, 159)
  else if in_range 238 239 p0 then Some (3%nat, 128, 191)
  else if (p0 =? 240)%N then Some (4%nat, 144, 191)
  else if in_range 241 243 p0 then Some (4%nat, 128, 191)
  else if (p0 =? 244)%N then Some (4%nat, 128, 143)
  else None.

(** [DecodeRune p]: the first rune of [p] and its width in bytes;
    [(RuneError, 0)] on empty input, [(RuneError, 1)] on an invalid
    encoding. *)
Definition DecodeRune (p : string) : N * nat :=
  match p with
  | EmptyString => (RuneError, 0%nat)
  | String c0 r0 =>
    let p0 := byte_of c0 in
    if (p0 <? RuneSelf)%N then (p0, 1%nat)
    else match first p0 with
    | None => (RuneError, 1%nat)
    | Some (sz, lo, hi) =>
      match r0 with
      | EmptyString => (RuneError, 1%nat)
      | String c1 r1 =>
        let b1 := byte_of c1 in
        if negb (in_range lo hi b1) then (RuneError, 1%nat)
        else if (sz <=? 2)%nat then
          (N.lor (N.shiftl (N.land p0 31) 6) (N.land b1 63), 2%nat)
        else match r1 with
        | EmptyString => (RuneError, 1%nat)
        | String c2 r2 =>
          let b2 := byte_of c2 in
          if negb (is_cont b2) then (RuneError, 1%nat)
          else if (sz <=? 3)%nat then
            (N.lor (N.shiftl (N.land p0 15) 12)
               (N.lor (N.shiftl (N.land b1 63) 6) (N.land b2 63)), 3%nat)
          else match r2 with
          | EmptyString => (RuneError, 1%nat)
          | String c3 _ =>
            let b3 := byte_of c3 in
            if negb (is_cont b3) then (RuneError, 1%nat)
            else
              (N.lor (N.shiftl (N.land p0 7) 18)
                 (N.lor (N.shiftl (N.land b1 63) 12)
                    (N.lor (N.shiftl (N.land b2 63) 6) (N.land b3 63))), 4%nat)
          end
        end
      end
    end
  end.

(** [RuneStart b]: [b] is not a continuation byte. *)
Definition RuneStart (b : N) : bool := negb (N.land b 192 =? 128)%N.

(** [DecodeLastRune], on the reversed input: the last rune of the
    string and its width.  The search for the start of the rune goes
    back at most [UTFMax = 4] bytes. *)
Definition DecodeLastRune_rev (r : string) : N * nat :=
  match r with
  | EmptyString => (RuneError, 0%nat)
  | String c0 r0 =>
    let b0 := byte_of c0 in
    if (b0 <? RuneSelf)%N then (b0, 1%nat)
    else
      let try (k : nat) : N * nat :=
        let '(rn, size) := DecodeRune (reverse_string (take_bytes k r)) in
        if (size =? k)%nat then (rn, size) else (RuneError, 1%nat) in
      match r0 with
      | EmptyString => (RuneError, 1%nat)
      | String c1 r1 =>
        if RuneStart (byte_of c1) then try 2%nat
        else match r1 with
        | EmptyString => (RuneError, 1%nat)
        | String c2 r2 =>
          if RuneStart (byte_of c2) then try 3%nat
          else match r2 with
          | EmptyString => (RuneError, 1%nat)
          | String c3 _ =>
            if RuneStart (byte_of c3) then try 4%nat else (RuneError, 1%nat)
          end
        end
      end
  end.

Definition is_surrogate (r : N) : bool := in_range 55296 57343 r.

(** [EncodeRune r]: the UTF-8 encoding of [r]; surrogates and values
    beyond [MaxRune] are encoded as [RuneError]. *)
Definition EncodeRune (r : N) : string :=
  let enc3 (r : N) :=
    String (chr (N.lor 224 (N.shiftr r 12)))
      (String (chr (N.lor 128 (N.land (N.shiftr r 6) 63)))
         (String (chr (N.lor 128 (N.land r 63))) EmptyString)) in
  if (r <=? 127)%N then String (chr r) EmptyString
  else if (r <=? 2047)%N then
    String (chr (N.lor 192 (N.shiftr r 6)))
      (String (chr (N.lor 128 (N.land r 63))) EmptyString)
  else if (MaxRune <? r)%N || is_surrogate r then enc3 RuneError
  else if (r <=? 65535)%N then enc3 r
  else
    String (chr (N.lor 240 (N.shiftr r 18)))
      (String (chr (N.lor 128 (N.land (N.shiftr r 12) 63)))
         (String (chr (N.lor 128 (N.land (N.shiftr r 6) 63)))
            (String (chr (N.lor 128 (N.land r 63))) EmptyString))).

(** [RuneCountInString]: every invalid byte counts as one rune. *)
Fixpoint RuneCount_loop (fuel : nat) (s : string) : nat :=
  match fuel with
  | O => 0%nat
  | S fuel' =>
    match s with
    | EmptyString => 0%nat
    | _ => S (RuneCount_loop fuel' (drop_bytes (snd (DecodeRune s)) s))
    end
  end.

Definition RuneCountInString (s : string) : nat :=
  RuneCount_loop (String.length s) s.

End utf8.

Module unicode.

Local Open Scope N_scope.

(** [unicode.IsSpace]: the Latin-1 cases and the [White_Space] table. *)
Definition IsSpace (r : N) : bool :=
  if (r <=? 255)%N then
    utf8.in_range 9 13 r || (r =? 32)%N || (r =? 133)%N || (r =? 160)%N
  else
    (r =? 5760)%N || utf8.in_range 8192 8202 r || utf8.in_range 8232 8233 r
    || (r =? 8239)%N || (r =? 8287)%N || (r =? 12288)%N.

End unicode.

(** ** Package strings *)
Module strings.

Fixpoint HasPrefix (s prefix : string) : bool :=
  match prefix, s with
  | EmptyString, _ => true
  | String p prefix', String c s' => (c =? p)%char && HasPrefix s' prefix'
  | String _ _, EmptyString => false
  end.

(** [Index s substr]: the index of the first instance of [substr] in
    [s]; [None] stands for Go's [-1]. *)
Fixpoint Index (s substr : string) : option nat :=
  if HasPrefix s substr then Some 0
  else match s with
       | EmptyString => None
       | String _ s' => option_map S (Index s' substr)
       end.

(** [Count]: the number of non-overlapping instances of [substr]; the
    loop of the Go function consumes at least one byte per instance
    when [substr] is not empty, so [len(s)] rounds are enough. *)
Fixpoint Count_loop (fuel : nat) (s substr : string) (n : nat) : nat :=
  match fuel with
  | O => n
  | S fuel' =>
    match Index s substr with
    | None => n
    | Some i =>
      Count_loop fuel' (drop_bytes (i + String.length substr) s) substr (S n)
    end
  end.

Definition Count (s substr : string) : nat :=
  match substr with
  | EmptyString => S (utf8.RuneCountInString s)
  | _ => Count_loop (String.length s) s substr 0
  end.

(** [explode s n] for [n = -1]: [s] cut into its UTF-8 sequences. *)
Fixpoint explode_loop (fuel : nat) (s : string) : list string :=
  match fuel with
  | O => []
  | S O => [s]
  | S fuel' =>
    let size := snd (utf8.DecodeRune s) in
    take_bytes size s :: explode_loop fuel' (drop_bytes size s)
  end.

Definition explode (s : string) : list string :=
  explode_loop (utf8.RuneCountInString s) s.

(** The loop of [genSplit]: [k] is the number of cuts still allowed
    ([n - 1 - i] in the Go code). *)
Fixpoint genSplit_loop (k : nat) (s sep : string) : list string :=
  match k with
  | O => [s]
  | S k' =>
    match Index s sep with
    | None => [s]
    | Some m =>
      take_bytes m s
        :: genSplit_loop k' (drop_bytes (m + String.length sep) s) sep
    end
  end.

(** [Split s sep = genSplit(s, sep, 0, -1)]. *)
Definition Split (s sep : string) : list string :=
  match sep with
  | EmptyString => explode s
  | _ =>
    let n := Nat.min (S (Count s sep)) (S (String.length s)) in
    genSplit_loop (n - 1) s sep
  end.

(** The table [asciiSpace]. *)
Definition asciiSpace (c : N) : bool :=
  (utf8.in_range 9 13 c || (c =? 32)%N)%N.

(** [TrimLeftFunc s unicode.IsSpace]. *)
Fixpoint TrimLeftSpace_loop (fuel : nat) (s : string) : string :=
  match fuel with
  | O => s
  | S fuel' =>
    let '(r, size) := utf8.DecodeRune s in
    if (0 <? size)%nat && unicode.IsSpace r
    then TrimLeftSpace_loop fuel' (drop_bytes size s)
    else s
  end.

Definition TrimLeftSpace (s : string) : string :=
  TrimLeftSpace_loop (String.length s) s.

(** [TrimRightFunc s unicode.IsSpace], on the reversed string. *)
Fixpoint TrimRightSpace_loop (fuel : nat) (r : string) : string :=
  match fuel with
  | O => r
  | S fuel' =>
    let '(rn, size) := utf8.DecodeLastRune_rev r in
    if (0 <? size)%nat && unicode.IsSpace rn
    then TrimRightSpace_loop fuel' (drop_bytes size r)
    else r
  end.

Definition TrimRightSpace (s : string) : string :=
  reverse_string (TrimRightSpace_loop (String.length s) (reverse_string s)).

(** The two ASCII loops of [TrimSpace]: [inl] when the loop stopped at
    an ASCII byte that is no space (or at the end), [inr] when it ran
    into a byte [>= utf8.RuneSelf]. *)
Fixpoint skip_asciiSpace (s : string) : string + string :=
  match s with
  | EmptyString => inl s
  | String c s' =>
    if (utf8.RuneSelf <=? byte_of c)%N then inr s
    else if asciiSpace (byte_of c) then skip_asciiSpace s'
    else inl s
  end.

Definition TrimSpace (s : string) : string :=
  match skip_asciiSpace s with
  | inr s1 => TrimRightSpace (TrimLeftSpace s1)
  | inl s1 =>
    match skip_asciiSpace (reverse_string s1) with
    | inr r => TrimRightSpace (reverse_string r)
    | inl r => reverse_string r
    end
  end.

(** [strings.Builder]: the bytes written so far. *)
Definition Builder := string.
Definition Builder_WriteString (b : Builder) (s : string) : Builder := b ++ s.
Definition Builder_String (b : Builder) : string := b.

End strings.

(** ** Package encoding/json, as far as [json.Unmarshal] into a
    [map[string]interface{}] goes *)
Module json.

(** The dynamic values [Unmarshal] stores into an [interface{}].  A
    [float64] is represented by the number literal it was converted
    from: the controller never looks at a number. *)
#[local] Unset Elimination Schemes.
Inductive value : Type :=
| VNil
| VBool (b : bool)
| VFloat64 (lit : string)
| VString (s : string)
| VSlice (l : list value)
| VMap (m : list (string * value)).
#[local] Set Elimination Schemes.

(** A [map[string]interface{}] is kept as the list of assignments
    [m[key] = v] in the order the decoder made them; reading a key
    yields the last value assigned to it, and [nil] for a key that
    was never assigned. *)
Definition gomap := list (string * value).

Definition map_index (m : gomap) (key : string) : value :=
  fold_left (fun cur kv => if String.eqb (fst kv) key then snd kv else cur)
            m VNil.

(** Parser results: a value, a syntax error, or an exhausted recursion
    budget (which [parse_fuel_enough] below excludes). *)
Inductive presult (A : Type) : Type :=
| POk (a : A)
| PErr
| PFuel.
Arguments POk {A} a.
Arguments PErr {A}.
Arguments PFuel {A}.

Definition pbind {A B} (x : presult A) (f : A -> presult B) : presult B :=
  match x with
  | POk a => f a
  | PErr => PErr
  | PFuel => PFuel
  end.

Notation "'let*' p ':=' x 'in' k" := (pbind x (fun p => k))
  (at level 10, p pattern, x at level 200, k at level 200).

Definition maxNestingDepth : N := 10000.

Definition isSpace (c : ascii) : bool :=
  (c =? " ")%char || (c =? "009")%char || (c =? "013")%char || (c =? LF)%char.

Fixpoint skip_ws (s : string) : string :=
  match s with
  | String c r => if isSpace c then skip_ws r else s
  | EmptyString => s
  end.

Definition is_digit (c : ascii) : bool := utf8.in_range 48 57 (byte_of c).

Definition is_hex (c : ascii) : bool :=
  is_digit c || utf8.in_range 97 102 (byte_of c) || utf8.in_range 65 70 (byte_of c).

Definition is_simple_escape (c : ascii) : bool :=
  (c =? "b")%char || (c =? "f")%char || (c =? "n")%char || (c =? "r")%char
  || (c =? "t")%char || (c =? "\")%char || (c =? "/")%char || (c =? DQ)%char.

(** The scanner inside a string literal, after the opening quote: the
    raw body of the literal and the input after the closing quote. *)
Fixpoint scan_string (s : string) : option (string * string) :=
  match s with
  | EmptyString => None
  | String c r =>
    if (c =? DQ)%char then Some (EmptyString, r)
    else if (c =? "\")%char then
      match r with
      | EmptyString => None
      | String e r1 =>
        if is_simple_escape e then
          match scan_string r1 with
          | Some (raw, rest) => Some (String c (String e raw), rest)
          | None => None
          end
        else if (e =? "u")%char then
          match r1 with
          | String h1 (String h2 (String h3 (String h4 r5))) =>
            if is_hex h1 && is_hex h2 && is_hex h3 && is_hex h4 then
              match scan_string r5 with
              | Some (raw, rest) =>
                Some (String c (String e (String h1 (String h2
                        (String h3 (String h4 raw))))), rest)
              | None => None
              end
            else None
          | _ => None
          end
        else None
      end
    else if (byte_of c <? 32)%N then None
    else
      match scan_string r with
      | Some (raw, rest) => Some (String c raw, rest)
      | None => None
      end
  end.

Definition hex_val (c : ascii) : N :=
  let b := byte_of c in
  if is_digit c then b - 48
  else if utf8.in_range 97 102 b then b - 97 + 10
  else b - 65 + 10.

Definition hex4 (h1 h2 h3 h4 : ascii) : N :=
  ((hex_val h1 * 16 + hex_val h2) * 16 + hex_val h3) * 16 + hex_val h4.

(** [utf16.DecodeRune]. *)
Definition utf16_DecodeRune (r1 r2 : N) : N :=
  if utf8.in_range 55296 56319 r1 && utf8.in_range 56320 57343 r2
  then (N.lor (N.shiftl (r1 - 55296) 10) (r2 - 56320) + 65536)%N
  else utf8.RuneError.

Definition escape_byte (e : ascii) : ascii :=
  if (e =? "b")%char then "008"%char
  else if (e =? "f")%char then "012"%char
  else if (e =? "n")%char then LF
  else if (e =? "r")%char then "013"%char
  else if (e =? "t")%char then "009"%char
  else e.

(** [unquote]: the Go string a raw literal body denotes.  [skip] is
    the number of bytes still to pass over, the rest of a UTF-8
    sequence already decoded. *)
Fixpoint unquote (skip : nat) (s : string) : string :=
  match s with
  | EmptyString => EmptyString
  | String c r =>
    match skip with
    | S skip' => unquote skip' r
    | O =>
      if (c =? "\")%char then
        match r with
        | EmptyString => EmptyString
        | String e r1 =>
          if (e =? "u")%char then
            match r1 with
            | String h1 (String h2 (String h3 (String h4 r5))) =>
              let rr := hex4 h1 h2 h3 h4 in
              if utf8.is_surrogate rr then
                match r5 with
                | String b (String u (String g1 (String g2 (String g3 (String g4 r11))))) =>
                  if (b =? "\")%char && (u =? "u")%char
                     && is_hex g1 && is_hex g2 && is_hex g3 && is_hex g4 then
                    let dec := utf16_DecodeRune rr (hex4 g1 g2 g3 g4) in
                    if (dec =? utf8.RuneError)%N
                    then utf8.EncodeRune utf8.RuneError ++ unquote 0 r5
                    else utf8.EncodeRune dec ++ unquote 0 r11
                  else utf8.EncodeRune utf8.RuneError ++ unquote 0 r5
                | _ => utf8.EncodeRune utf8.RuneError ++ unquote 0 r5
                end
              else utf8.EncodeRune rr ++ unquote 0 r5
            | _ => EmptyString
            end
          else String (escape_byte e) (unquote 0 r1)
        end
      else if (byte_of c <? utf8.RuneSelf)%N then String c (unquote 0 r)
      else
        let '(rr, size) := utf8.DecodeRune (String c r) in
        utf8.EncodeRune rr ++ unquote (size - 1) r
    end
  end.

(** Number literals. *)
Fixpoint scan_digits (s : string) : string * string :=
  match s with
  | String c r =>
    if is_digit c then let '(ds, rest) := scan_digits r in (String c ds, rest)
    else (EmptyString, s)
  | EmptyString => (EmptyString, s)
  end.

Definition scan_int (s : string) : option (string * string) :=
  match s with
  | String c r =>
    if (c =? "0")%char then Some (String c EmptyString, r)
    else if is_digit c then
      let '(ds, rest) := scan_digits r in Some (String c ds, rest)
    else None
  | EmptyString => None
  end.

Definition scan_frac (s : string) : option (string * string) :=
  match s with
  | String c r =>
    if (c =? ".")%char then
      match scan_digits r with
      | (EmptyString, _) => None
      | (ds, rest) => Some (String c ds, rest)
      end
    else Some (EmptyString, s)
  | EmptyString => Some (EmptyString, s)
  end.

Definition scan_exp (s : string) : option (string * string) :=
  match s with
  | String c r =>
    if (c =? "e")%char || (c =? "E")%char then
      let '(sign, r1) :=
        match r with
        | String g r' =>
          if (g =? "+")%char || (g =? "-")%char
          then (String g EmptyString, r') else (EmptyString, r)
        | EmptyString => (EmptyString, r)
        end in
      match scan_digits r1 with
      | (EmptyString, _) => None
      | (ds, rest) => Some (String c (sign ++ ds), rest)
      end
    else Some (EmptyString, s)
  | EmptyString => Some (EmptyString, s)
  end.

(** [scan_number s]: the number literal [s] starts with and the rest. *)
Definition scan_number (s : string) : option (string * string) :=
  let '(sign, s0) :=
    match s with
    | String c r =>
      if (c =? "-")%char then (String c EmptyString, r) else (EmptyString, s)
    | EmptyString => (EmptyString, s)
    end in
  match scan_int s0 with
  | None => None
  | Some (ip, s1) =>
    match scan_frac s1 with
    | None => None
    | Some (fp, s2) =>
      match scan_exp s2 with
      | None => None
      | Some (ep, s3) => Some (sign ++ ip ++ fp ++ ep, s3)
      end
    end
  end.

(** The recursive-descent reading of a JSON text.  [depth] is the
    number of arrays and objects currently open; the scanner refuses
    to open more than [maxNestingDepth]. *)
Fixpoint parse_value (fuel : nat) (depth : N) (s : string) {struct fuel}
  : presult (value * string) :=
  match fuel with
  | O => PFuel
  | S fuel' =>
    match s with
    | EmptyString => PErr
    | String c r =>
      if (c =? "{")%char then
        if (maxNestingDepth <=? depth)%N then PErr
        else
          match skip_ws r with
          | EmptyString => PErr
          | String c1 r1 =>
            if (c1 =? "}")%char then POk (VMap [], r1)
            else
              let* (m, rest) := parse_members fuel' (depth + 1)%N (skip_ws r) in
              POk (VMap m, rest)
          end
      else if (c =? "[")%char then
        if (maxNestingDepth <=? depth)%N then PErr
        else
          match skip_ws r with
          | EmptyString => PErr
          | String c1 r1 =>
            if (c1 =? "]")%char then POk (VSlice [], r1)
            else
              let* (l, rest) := parse_elements fuel' (depth + 1)%N (skip_ws r) in
              POk (VSlice l, rest)
          end
      else if (c =? DQ)%char then
        match scan_string r with
        | Some (raw, rest) => POk (VString (unquote 0 raw), rest)
        | None => PErr
        end
      else if (c =? "t")%char then
        if strings.HasPrefix r "rue" then POk (VBool true, drop_bytes 3 r)
        else PErr
      else if (c =? "f")%char then
        if strings.HasPrefix r "alse" then POk (VBool false, drop_bytes 4 r)
        else PErr
      else if (c =? "n")%char then
        if strings.HasPrefix r "ull" then POk (VNil, drop_bytes 3 r)
        else PErr
      else if (c =? "-")%char || is_digit c then
        match scan_number s with
        | Some (lit, rest) => POk (VFloat64 lit, rest)
        | None => PErr
        end
      else PErr
    end
  end
with parse_elements (fuel : nat) (depth : N) (s : string) {struct fuel}
  : presult (list value * string) :=
  match fuel with
  | O => PFuel
  | S fuel' =>
    let* (v, r) := parse_value fuel' depth s in
    match skip_ws r with
    | EmptyString => PErr
    | String c r1 =>
      if (c =? ",")%char then
        let* (l, rest) := parse_elements fuel' depth (skip_ws r1) in
        POk (v :: l, rest)
      else if (c =? "]")%char then POk ([v], r1)
      else PErr
    end
  end
with parse_members (fuel : nat) (depth : N) (s : string) {struct fuel}
  : presult (list (string * value) * string) :=
  match fuel with
  | O => PFuel
  | S fuel' =>
    match s with
    | EmptyString => PErr
    | String c r =>
      if (c =? DQ)%char then
        match scan_string r with
        | None => PErr
        | Some (raw, r1) =>
          match skip_ws r1 with
          | EmptyString => PErr
          | String c2 r2 =>
            if (c2 =? ":")%char then
              let* (v, r3) := parse_value fuel' depth (skip_ws r2) in
              match skip_ws r3 with
              | EmptyString => PErr
              | String c3 r4 =>
                if (c3 =? ",")%char then
                  let* (m, rest) := parse_members fuel' depth (skip_ws r4) in
                  POk ((unquote 0 raw, v) :: m, rest)
                else if (c3 =? "}")%char then POk ([(unquote 0 raw, v)], r4)
                else PErr
              end
            else PErr
          end
        end
      else PErr
    end
  end.

Definition parse_fuel (data : string) : nat := 2 * String.length data + 2.

(** [parse data]: the value of a JSON text, which is one value between
    optional white space. *)
Definition parse (data : string) : presult value :=
  let* (v, rest) := parse_value (parse_fuel data) 0 (skip_ws data) in
  match skip_ws rest with
  | EmptyString => POk v
  | _ => PErr
  end.

(** [strconv.ParseFloat lit 64] fails (with [ErrRange]) exactly when
    the literal rounds to an infinity: when its magnitude is at least
    [2^1024 - 2^970], half an ulp above the largest [float64]. *)
Definition digits_value (ds : string) : Z :=
  fold_left (fun acc c => (acc * 10 + Z.of_N (byte_of c - 48))%Z)
            (list_ascii_of_string ds) 0%Z.

Definition float64_overflows (lit : string) : bool :=
  let s0 := match lit with
            | String c r => if (c =? "-")%char then r else lit
            | EmptyString => lit
            end in
  let '(ip, s1) := scan_digits s0 in
  let '(fp, s2) := match s1 with
                   | String c r => if (c =? ".")%char then scan_digits r
                                   else (EmptyString, s1)
                   | EmptyString => (EmptyString, s1)
                   end in
  let e := match s2 with
           | String _ (String g r) =>
             if (g =? "-")%char then (- digits_value r)%Z
             else if (g =? "+")%char then digits_value r
             else digits_value (String g r)
           | _ => 0%Z
           end in
  let m := digits_value (ip ++ fp) in
  let e10 := (e - Z.of_nat (String.length fp))%Z in
  let limit := (2 ^ 1024 - 2 ^ 970)%Z in
  if (m =? 0)%Z then false
  else if (0 <=? e10)%Z then (limit <=? m * 10 ^ e10)%Z
  else (limit * 10 ^ (- e10) <=? m)%Z.

(** The first conversion error the decoder saves while it stores the
    values: a number outside the range of [float64]. *)
Fixpoint has_range_error (v : value) : bool :=
  match v with
  | VFloat64 lit => float64_overflows lit
  | VSlice l => existsb has_range_error l
  | VMap m => existsb (fun kv => has_range_error (snd kv)) m
  | _ => false
  end.

Inductive error : Type :=
| SyntaxError
| UnmarshalTypeError.

(** [Unmarshal data &m] for [m] a nil [map[string]interface{}]: the
    error returned, or the map [m] holds afterwards.  The text is
    checked first ([checkValid]); then only an object or [null] can be
    stored into a map, and [null] leaves the map nil. *)
Definition Unmarshal (data : string) : error + gomap :=
  match parse data with
  | POk (VMap m) =>
    if has_range_error (VMap m) then inl UnmarshalTypeError else inr m
  | POk VNil => inr []
  | POk _ => inl UnmarshalTypeError
  | PErr => inl SyntaxError
  | PFuel => inl SyntaxError
  end.

(** Type assertions [v.([]interface{})], [v.(map[string]interface{})]
    and [v.(string)]: [None] when [ok] is false. *)
Definition as_slice (v : value) : option (list value) :=
  match v with VSlice l => Some l | _ => None end.
Definition as_map (v : value) : option gomap :=
  match v with VMap m => Some m | _ => None end.
Definition as_string (v : value) : option string :=
  match v with VString s => Some s | _ => None end.

End json.

(** ** The JSON grammar (RFC 8259), on bytes

    [value s r] and its companions read: [s] starts with the phrase and
    [r] is what follows it.  The grammar is the measure of validity for
    the extractor's inputs; it does not bound the nesting, and inside
    strings it takes every byte from [0x20] on (other than the quote and
    the backslash), as the Go scanner does. *)
Module grammar.

Definition whitespace (c : ascii) : Prop :=
  c = " "%char \/ c = "009"%char \/ c = LF \/ c = "013"%char.

Definition digit (c : ascii) : Prop := (48 <= byte_of c <= 57)%N.

Definition digit1_9 (c : ascii) : Prop := (49 <= byte_of c <= 57)%N.

Definition hexdigit (c : ascii) : Prop :=
  digit c \/ (97 <= byte_of c <= 102)%N \/ (65 <= byte_of c <= 70)%N.

Definition escapable (c : ascii) : Prop :=
  c = DQ \/ c = "\"%char \/ c = "/"%char \/ c = "b"%char \/ c = "f"%char
  \/ c = "n"%char \/ c = "r"%char \/ c = "t"%char.

Inductive ws : string -> string -> Prop :=
| ws_done s : ws s s
| ws_skip c s r : whitespace c -> ws s r -> ws (String c s) r.

(** Zero or more digits, and at least one. *)
Inductive digits : string -> string -> Prop :=
| digits_done s : digits s s
| digits_more c s r : digit c -> digits s r -> digits (String c s) r.

Inductive digits1 : string -> string -> Prop :=
| digits1_intro c s r : digit c -> digits s r -> digits1 (String c s) r.

Inductive minus : string -> string -> Prop :=
| minus_none s : minus s s
| minus_some s : minus (String "-" s) s.

Inductive int : string -> string -> Prop :=
| int_zero r : int (String "0" r) r
| int_digits c s r : digit1_9 c -> digits s r -> int (String c s) r.

Inductive frac : string -> string -> Prop :=
| frac_none s : frac s s
| frac_some s r : digits1 s r -> frac (String "." s) r.

Inductive sign : string -> string -> Prop :=
| sign_none s : sign s s
| sign_plus s : sign (String "+" s) s
| sign_minus s : sign (String "-" s) s.

Inductive exp : string -> string -> Prop :=
| exp_none s : exp s s
| exp_some e s s1 r :
    e = "e"%char \/ e = "E"%char -> sign s s1 -> digits1 s1 r ->
    exp (String e s) r.

Inductive number : string -> string -> Prop :=
| number_intro s s0 s1 s2 r :
    minus s s0 -> int s0 s1 -> frac s1 s2 -> exp s2 r -> number s r.

(** The characters of a string, up to its closing quote. *)
Inductive chars : string -> string -> Prop :=
| chars_done s : chars s s
| chars_unescaped c s r :
    c <> DQ -> c <> "\"%char -> (32 <= byte_of c)%N -> chars s r ->
    chars (String c s) r
| chars_escape e s r :
    escapable e -> chars s r -> chars (String "\" (String e s)) r
| chars_unicode h1 h2 h3 h4 s r :
    hexdigit h1 -> hexdigit h2 -> hexdigit h3 -> hexdigit h4 -> chars s r ->
    chars (String "\" (String "u" (String h1 (String h2
             (String h3 (String h4 s)))))) r.

Inductive value : string -> string -> Prop :=
| value_null r : value (String "n" (String "u" (String "l" (String "l" r)))) r
| value_true r : value (String "t" (String "r" (String "u" (String "e" r)))) r
| value_false r :
    value (String "f" (String "a" (String "l" (String "s" (String "e" r))))) r
| value_number s r : number s r -> value s r
| value_string s r : chars s (String DQ r) -> value (String DQ s) r
| value_empty_array s r : ws s (String "]" r) -> value (String "[" s) r
| value_array s r : elements s r -> value (String "[" s) r
| value_empty_object s r : ws s (String "}" r) -> value (String "{" s) r
| value_object s r : members s r -> value (String "{" s) r
with elements : string -> string -> Prop :=
| elements_last s s1 s2 r :
    ws s s1 -> value s1 s2 -> ws s2 (String "]" r) -> elements s r
| elements_more s s1 s2 s3 r :
    ws s s1 -> value s1 s2 -> ws s2 (String "," s3) -> elements s3 r ->
    elements s r
with members : string -> string -> Prop :=
| members_last s s1 s2 s3 s4 s5 r :
    ws s (String DQ s1) -> chars s1 (String DQ s2) ->
    ws s2 (String ":" s3) -> ws s3 s4 -> value s4 s5 ->
    ws s5 (String "}" r) -> members s r
| members_more s s1 s2 s3 s4 s5 s6 r :
    ws s (String DQ s1) -> chars s1 (String DQ s2) ->
    ws s2 (String ":" s3) -> ws s3 s4 -> value s4 s5 ->
    ws s5 (String "," s6) -> members s6 r -> members s r.

(** A JSON text is one value between optional white space. *)
Definition text (s : string) : Prop :=
  exists s1 s2, ws s s1 /\ value s1 s2 /\ ws s2 EmptyString.

End grammar.

(** ** The content extractors of relay/controller/text.go *)
Module extract.

Import json.

(** [extractContentFromResponse] extracts only the content field from
    a non-streaming response. *)
Definition extractContentFromResponse (responseBody : string) : string :=
  match Unmarshal responseBody with
  | inl _ => "Failed to parse response JSON"
  | inr jsonData =>
    match as_slice (map_index jsonData "choices") with
    | None => "No content found in response"
    | Some [] => "No content found in response"
    | Some (choice0 :: _) =>
      match as_map choice0 with
      | None => "Invalid choice format in response"
      | Some choice =>
        match as_map (map_index choice "message") with
        | None => "Invalid message format in response"
        | Some message =>
          match as_string (map_index message "content") with
          | None => "No content field found in message"
          | Some content => content
          end
        end
      end
    end
  end.

(** The body of the inner loop of [extractContentFromStream]: one
    element of [choices]. *)
Definition stream_choice (combinedContent : strings.Builder) (choice : value)
  : strings.Builder :=
  match as_map choice with
  | None => combinedContent
  | Some choiceMap =>
    match as_map (map_index choiceMap "delta") with
    | None => combinedContent
    | Some delta =>
      match as_string (map_index delta "content") with
      | Some contentPiece =>
        strings.Builder_WriteString combinedContent contentPiece
      | None => combinedContent
      end
    end
  end.

(** The body of the outer loop: one chunk of the split input. *)
Definition stream_chunk (combinedContent : strings.Builder) (chunk : string)
  : strings.Builder :=
  let chunk := strings.TrimSpace chunk in
  if String.eqb chunk "" || String.eqb chunk "[DONE]" then combinedContent
  else
    match Unmarshal chunk with
    | inl _ => combinedContent
    | inr jsonData =>
      match as_slice (map_index jsonData "choices") with
      | None => combinedContent
      | Some [] => combinedContent
      | Some choices => fold_left stream_choice choices combinedContent
      end
    end.

(** [extractContentFromStream] extracts and combines content from a
    streaming response. *)
Definition extractContentFromStream (content : string) : string :=
  let chunks := strings.Split content "data: " in
  strings.Builder_String (fold_left stream_chunk chunks EmptyString).

(** The streaming rule in the words of the specification, to compare
    with the loops above: the fragment a choice contributes is its
    delta content if it has one, and the text of a frame is the
    concatenation of the fragments of its choices, or nothing when the
    frame is empty, the terminator, or not a JSON object. *)
Definition spec_choice_fragment (choice : value) : string :=
  match choice with
  | VMap choiceMap =>
    match map_index choiceMap "delta" with
    | VMap delta =>
      match map_index delta "content" with
      | VString contentPiece => contentPiece
      | _ => EmptyString
      end
    | _ => EmptyString
    end
  | _ => EmptyString
  end.

Definition spec_frame_text (chunk : string) : string :=
  let chunk := strings.TrimSpace chunk in
  if String.eqb chunk "" || String.eqb chunk "[DONE]" then EmptyString
  else
    match Unmarshal chunk with
    | inl _ => EmptyString
    | inr jsonData =>
      match map_index jsonData "choices" with
      | VSlice choices => concat_strings (map spec_choice_fragment choices)
      | _ => EmptyString
      end
    end.

End extract.

(** ** The response tap: [responseBodyLogWriter] *)
Module tap.

(** A Go [error] value is represented by its message. *)
Definition error := string.

(** The interface [gin.ResponseWriter], as far as the tap uses it: a
    sink with state [W] whose [Write] and [WriteString] return a byte
    count and an error. *)
Class ResponseWriter (W : Type) : Type := {
  rw_Write : W -> string -> W * (Z * option error);
  rw_WriteString : W -> string -> W * (Z * option error)
}.

(** [bytes.Buffer]: the bytes written and not yet read.  [Write] and
    [WriteString] append and return [len(p), nil]. *)
Definition Buffer := string.
Definition Buffer_Write (buf : Buffer) (p : string) : Buffer * (Z * option error) :=
  (buf ++ p, (Z.of_nat (String.length p), None)).
Definition Buffer_String (buf : Buffer) : string := buf.

(** The writer.  Calls are modelled one after the other: [streamMux]
    is [true] while the mutex is held, [Lock] takes a free mutex and
    the deferred [Unlock] frees it when the method returns. *)
Record responseBodyLogWriter (W : Type) : Type := mkWriter {
  ResponseWriter_ : W;
  body : Buffer;
  isStream : bool;
  streamMux : bool
}.
Arguments mkWriter {W}.
Arguments ResponseWriter_ {W}.
Arguments body {W}.
Arguments isStream {W}.
Arguments streamMux {W}.

Section Methods.
Context {W : Type} `{ResponseWriter W}.

Definition Lock (w : responseBodyLogWriter W) : responseBodyLogWriter W :=
  mkWriter (ResponseWriter_ w) (body w) (isStream w) true.
Definition Unlock (w : responseBodyLogWriter W) : responseBodyLogWriter W :=
  mkWriter (ResponseWriter_ w) (body w) (isStream w) false.

Definition Write (w : responseBodyLogWriter W) (b : string)
  : responseBodyLogWriter W * (Z * option error) :=
  let w := if isStream w then Lock w else w in
  let '(buf, _) := Buffer_Write (body w) b in
  let w := mkWriter (ResponseWriter_ w) buf (isStream w) (streamMux w) in
  let '(sink, ret) := rw_Write (ResponseWriter_ w) b in
  let w := mkWriter sink (body w) (isStream w) (streamMux w) in
  (* the deferred Unlock *)
  let w := if isStream w then Unlock w else w in
  (w, ret).

Definition WriteString (w : responseBodyLogWriter W) (s : string)
  : responseBodyLogWriter W * (Z * option error) :=
  let w := if isStream w then Lock w else w in
  let '(buf, _) := Buffer_Write (body w) s in
  let w := mkWriter (ResponseWriter_ w) buf (isStream w) (streamMux w) in
  let '(sink, ret) := rw_WriteString (ResponseWriter_ w) s in
  let w := mkWriter sink (body w) (isStream w) (streamMux w) in
  let w := if isStream w then Unlock w else w in
  (w, ret).

(** A call made on a writer. *)
Inductive write_op : Type :=
| OpWrite (b : string)
| OpWriteString (s : string).

Definition op_bytes (o : write_op) : string :=
  match o with OpWrite b => b | OpWriteString s => s end.

Definition tap_call (w : responseBodyLogWriter W) (o : write_op) :=
  match o with
  | OpWrite b => Write w b
  | OpWriteString s => WriteString w s
  end.

Definition sink_call (k : W) (o : write_op) :=
  match o with
  | OpWrite b => rw_Write k b
  | OpWriteString s => rw_WriteString k s
  end.

(** A sequence of calls, made one after the other, with the list of
    the values the calls returned. *)
Fixpoint tap_run (ops : list write_op) (w : responseBodyLogWriter W)
  : responseBodyLogWriter W * list (Z * option error) :=
  match ops with
  | [] => (w, [])
  | o :: ops' =>
    let '(w1, ret) := tap_call w o in
    let '(w2, rets) := tap_run ops' w1 in
    (w2, ret :: rets)
  end.

Fixpoint sink_run (ops : list write_op) (k : W)
  : W * list (Z * option error) :=
  match ops with
  | [] => (k, [])
  | o :: ops' =>
    let '(k1, ret) := sink_call k o in
    let '(k2, rets) := sink_run ops' k1 in
    (k2, ret :: rets)
  end.
End Methods.

(** A sink that forwards to an inner sink and keeps the arguments of
    the calls it received, in order. *)
Record recorder (W : Type) : Type := mkRecorder {
  inner : W;
  received : list string
}.
Arguments mkRecorder {W}.
Arguments inner {W}.
Arguments received {W}.

#[global] Instance recorder_writer {W} `{ResponseWriter W}
  : ResponseWriter (recorder W) := {
  rw_Write r b :=
    let '(k, ret) := rw_Write (inner r) b in
    (mkRecorder k (received r ++ [b]), ret);
  rw_WriteString r s :=
    let '(k, ret) := rw_WriteString (inner r) s in
    (mkRecorder k (received r ++ [s]), ret)
}.

(** A client that accepts everything: the state is what it received. *)
#[global] Instance string_writer : ResponseWriter string := {
  rw_Write k b := (k ++ b, (Z.of_nat (String.length b), None));
  rw_WriteString k s := (k ++ s, (Z.of_nat (String.length s), None))
}.

End tap.

(** ** The relay orchestrator: [RelayTextHelper] and [getRequestBody] *)
Module relay.

Import tap.

(** [model.ErrorWithStatusCode], with the fields of its embedded
    [model.Error]. *)
Record ErrorWithStatusCode : Type := mkError {
  Message : string;
  Type_ : string;
  Code : string;
  StatusCode : Z
}.

Definition StatusBadRequest : Z := 400.
Definition StatusInternalServerError : Z := 500.

(** [openai.ErrorWrapper]: the structured error of this service for a
    Go error, with a machine-readable code and an HTTP status. *)
Definition ErrorWrapper (err : error) (code : string) (statusCode : Z)
  : ErrorWithStatusCode :=
  mkError err "one_api_error" code statusCode.

(** [meta.Meta], the fields the controller reads or writes. *)
Record Meta : Type := mkMeta {
  Mode : Z;
  ChannelType : Z;
  APIType : Z;
  TokenId : Z;
  Group : string;
  ModelMapping : option (gmap string string);
  IsStream : bool;
  OriginModelName : string;
  ActualModelName : string;
  PromptTokens : Z
}.

Definition set_IsStream (m : Meta) (b : bool) : Meta :=
  mkMeta (Mode m) (ChannelType m) (APIType m) (TokenId m) (Group m)
         (ModelMapping m) b (OriginModelName m) (ActualModelName m)
         (PromptTokens m).
Definition set_OriginModelName (m : Meta) (s : string) : Meta :=
  mkMeta (Mode m) (ChannelType m) (APIType m) (TokenId m) (Group m)
         (ModelMapping m) (IsStream m) s (ActualModelName m) (PromptTokens m).
Definition set_ActualModelName (m : Meta) (s : string) : Meta :=
  mkMeta (Mode m) (ChannelType m) (APIType m) (TokenId m) (Group m)
         (ModelMapping m) (IsStream m) (OriginModelName m) s (PromptTokens m).
Definition set_PromptTokens (m : Meta) (n : Z) : Meta :=
  mkMeta (Mode m) (ChannelType m) (APIType m) (TokenId m) (Group m)
         (ModelMapping m) (IsStream m) (OriginModelName m)
         (ActualModelName m) n.

(** [model.GeneralOpenAIRequest]: the model name, the stream flag, and
    the other fields as the inbound JSON had them. *)
Record GeneralOpenAIRequest : Type := mkRequest {
  Model : string;
  Stream : bool;
  Fields : string
}.

Definition set_Model (r : GeneralOpenAIRequest) (m : string) : GeneralOpenAIRequest :=
  mkRequest m (Stream r) (Fields r).

Record Usage : Type := mkUsage {
  Usage_PromptTokens : Z;
  CompletionTokens : Z;
  TotalTokens : Z
}.

(** [c.Request.Body]: the bytes not read yet, and the error the reader
    ends with, if any. *)
Record Body : Type := mkBody {
  unread : string;
  read_error : option error
}.

(** [io.ReadAll]: everything up to the end of the body or its error. *)
Definition ReadAll (b : Body) : Body * (string * option error) :=
  (mkBody EmptyString (read_error b), (unread b, read_error b)).

(** [io.NopCloser(bytes.NewBuffer(bodyBytes))]. *)
Definition NewBody (bodyBytes : string) : Body := mkBody bodyBytes None.

(** What a call does to the quota ledger and to its adaptor, in the
    order it happens. *)
Inductive event : Type :=
| EvPreConsumeQuota (tokenId quota : Z)
| EvReturnPreConsumedQuota (quota tokenId : Z)
| EvGoPostConsumeQuota (usage : option Usage) (preConsumedQuota : Z)
| EvInit
| EvConvertRequest
| EvDoRequest (requestBody : string)
| EvDoResponse.

Definition is_release (e : event) : bool :=
  match e with EvReturnPreConsumedQuota _ _ => true | _ => false end.
Definition is_settle (e : event) : bool :=
  match e with EvGoPostConsumeQuota _ _ => true | _ => false end.
Definition is_ConvertRequest (e : event) : bool :=
  match e with EvConvertRequest => true | _ => false end.

Definition count_events (p : event -> bool) (l : list event) : nat :=
  List.length (List.filter p l).

(** Modelled from the spec: [getMappedModelName], the ModelMapper
    ([Resolve(requestedName) -> (effectiveName, wasRemapped)]), which is
    defined in the controller's helpers and not in text.go.  The
    requested name is resolved through the mapping table; the mapping
    may be absent, an identity, or a rename, and the flag records
    whether a rename occurred. *)
Definition getMappedModelName (modelName : string)
    (mapping : option (gmap string string)) : string * bool :=
  match mapping with
  | None => (modelName, false)
  | Some table =>
    match table !! modelName with
    | None => (modelName, false)
    | Some mapped =>
      if String.eqb mapped modelName then (modelName, false)
      else (mapped, true)
    end
  end.

(** Modelled from the spec: the QuotaLedger, which the controller
    reaches through [preConsumeQuota], [billing.ReturnPreConsumedQuota]
    and [postConsumeQuota], none of them in text.go.  [Reserve] fails
    with InsufficientBalance if the account cannot cover the amount and
    otherwise debits it; [Release] credits the account back by the
    reservation's amount. *)
Definition balance (ledger : gmap Z Z) (account : Z) : Z :=
  default 0%Z (ledger !! account).

Definition Reserve (ledger : gmap Z Z) (account amount : Z)
  : option (gmap Z Z) :=
  if (balance ledger account <? amount)%Z then None
  else Some (<[account := (balance ledger account - amount)%Z]> ledger).

Definition Release (ledger : gmap Z Z) (account amount : Z) : gmap Z Z :=
  <[account := (balance ledger account + amount)%Z]> ledger.

Definition InsufficientBalance : ErrorWithStatusCode :=
  mkError "user quota is not enough" "one_api_error"
          "insufficient_user_quota" 403.

(** The interface [adaptor.Adaptor].  [DoResponse] is given by the
    calls it makes on [c.Writer] and by the pair it returns. *)
Record Adaptor (Response ConvertedRequest : Type) : Type := mkAdaptor {
  ConvertRequest : Z -> GeneralOpenAIRequest -> error + ConvertedRequest;
  DoRequest : Meta -> string -> error + Response;
  DoResponse : Response -> Meta
               -> list write_op * (option Usage * option ErrorWithStatusCode)
}.
Arguments mkAdaptor {Response ConvertedRequest}.
Arguments ConvertRequest {Response ConvertedRequest}.
Arguments DoRequest {Response ConvertedRequest}.
Arguments DoResponse {Response ConvertedRequest}.

(** The collaborators of the controller that are defined elsewhere:
    the types of an upstream response, of a converted request and of
    the ratios, the helpers the controller calls, [json.Marshal] at the
    two types it is used at, and the constants [apitype.OpenAI] and
    [channeltype.Baichuan].  [getAndValidateTextRequest] reads the
    inbound body and leaves it to be read again.  An adaptor gets the
    meta to read; what [Init] prepares stays inside the adaptor. *)
Class Collaborators : Type := {
  Response : Type;
  ConvertedRequest : Type;
  float64 : Type;
  fmul : float64 -> float64 -> float64;
  getAndValidateTextRequest : Body -> Z -> error + GeneralOpenAIRequest;
  GetModelRatio : string -> float64;
  GetGroupRatio : string -> float64;
  getPromptTokens : GeneralOpenAIRequest -> Z -> Z;
  getPreConsumedQuota : GeneralOpenAIRequest -> Z -> float64 -> Z;
  GetAdaptor : Z -> option (Adaptor Response ConvertedRequest);
  isErrorHappened : Meta -> Response -> bool;
  RelayErrorHandler : Response -> ErrorWithStatusCode;
  Marshal_request : GeneralOpenAIRequest -> error + string;
  Marshal_converted : ConvertedRequest -> error + string;
  apitype_OpenAI : Z;
  channeltype_Baichuan : Z
}.

Section Controller.

Context {W : Type} `{ResponseWriter W} `{Collaborators}.

(** The state a call works on: the gin context ([c.Writer], which is
    the client's sink until the tap is installed, [c.Request.Body] and
    the [meta] stored in the context), the ledger, and the record of
    what was done and logged. *)
Record State : Type := mkState {
  c_Writer : W + responseBodyLogWriter W;
  c_Request_Body : Body;
  c_meta : Meta;
  ledger : gmap Z Z;
  events : list event;
  logs : list string
}.

Definition set_Writer (st : State) (w : W + responseBodyLogWriter W) : State :=
  mkState w (c_Request_Body st) (c_meta st) (ledger st) (events st) (logs st).
Definition set_Request_Body (st : State) (b : Body) : State :=
  mkState (c_Writer st) b (c_meta st) (ledger st) (events st) (logs st).
Definition set_meta (st : State) (m : Meta) : State :=
  mkState (c_Writer st) (c_Request_Body st) m (ledger st) (events st) (logs st).
Definition set_ledger (st : State) (l : gmap Z Z) : State :=
  mkState (c_Writer st) (c_Request_Body st) (c_meta st) l (events st) (logs st).
Definition emit (st : State) (e : event) : State :=
  mkState (c_Writer st) (c_Request_Body st) (c_meta st) (ledger st)
          (events st ++ [e]) (logs st).
Definition log (st : State) (msg : string) : State :=
  mkState (c_Writer st) (c_Request_Body st) (c_meta st) (ledger st)
          (events st) (logs st ++ [msg]).

(** Modelled from the spec: [preConsumeQuota], the ledger's [Reserve]
    for [preConsumedQuota = promptTokens x modelRatio x groupRatio]
    (plus a margin) on the account of the call's token. *)
Definition preConsumeQuota (st : State) (textRequest : GeneralOpenAIRequest)
    (promptTokens : Z) (ratio : float64) (meta : Meta)
  : State * (Z * option ErrorWithStatusCode) :=
  let preConsumedQuota := getPreConsumedQuota textRequest promptTokens ratio in
  match Reserve (ledger st) (TokenId meta) preConsumedQuota with
  | None => (st, (preConsumedQuota, Some InsufficientBalance))
  | Some l =>
    (emit (set_ledger st l) (EvPreConsumeQuota (TokenId meta) preConsumedQuota),
     (preConsumedQuota, None))
  end.

(** Modelled from the spec: [billing.ReturnPreConsumedQuota], the
    ledger's [Release]. *)
Definition ReturnPreConsumedQuota (st : State) (preConsumedQuota tokenId : Z)
  : State :=
  emit (set_ledger st (Release (ledger st) tokenId preConsumedQuota))
       (EvReturnPreConsumedQuota preConsumedQuota tokenId).

(** [go postConsumeQuota(...)]: the settlement is started and runs on
    its own; the call records that it was scheduled. *)
Definition go_postConsumeQuota (st : State) (usage : option Usage)
    (preConsumedQuota : Z) : State :=
  emit st (EvGoPostConsumeQuota usage preConsumedQuota).

(** Calls made on [c.Writer]. *)
Definition writer_run (ops : list write_op) (w : W + responseBodyLogWriter W)
  : W + responseBodyLogWriter W :=
  match w with
  | inl k => inl (fst (sink_run ops k))
  | inr t => inr (fst (tap_run ops t))
  end.

(** [getRequestBody]: the outbound body as a reader's content, the same
    content for the log, or an error. *)
Definition getRequestBody (st : State) (meta : Meta)
    (textRequest : GeneralOpenAIRequest)
    (adaptor : Adaptor Response ConvertedRequest)
    (isModelMapped : bool) : State * (error + string * string) :=
  if (APIType meta =? apitype_OpenAI)%Z then
    (* no need to convert request for openai *)
    let shouldResetRequestBody :=
      isModelMapped || (ChannelType meta =? channeltype_Baichuan)%Z in
    if shouldResetRequestBody then
      match Marshal_request textRequest with
      | inl err => (st, inl err)
      | inr jsonStr => (st, inr (jsonStr, jsonStr))
      end
    else
      (* Read and store the body for logging *)
      let '(rest, (bodyBytes, err)) := ReadAll (c_Request_Body st) in
      let st := set_Request_Body st rest in
      match err with
      | Some err => (st, inl err)
      | None =>
        (* Restore the body for further processing *)
        let st := set_Request_Body st (NewBody bodyBytes) in
        (st, inr (bodyBytes, bodyBytes))
      end
  else
    let st := emit st EvConvertRequest in
    match ConvertRequest adaptor (Mode meta) textRequest with
    | inl err =>
      (log st ("converted request failed: " ++ err), inl err)
    | inr convertedRequest =>
      match Marshal_converted convertedRequest with
      | inl err =>
        (log st ("converted request json_marshal_failed: " ++ err), inl err)
      | inr jsonData =>
        (log st ("converted request: " ++ jsonData), inr (jsonData, jsonData))
      end
    end.

(** [logResponseBody] handles logging the response body with
    appropriate processing (the time stamp is left out). *)
Definition logResponseBody (st : State) (responseBody : string)
    (isStream : bool) : State :=
  if String.eqb responseBody "" then log st "Empty response body"
  else if isStream then
    let content := extract.extractContentFromStream responseBody in
    log st ("Extracted content:<responseBody> " ++ content ++ "</responseBody>")
  else
    let content := extract.extractContentFromResponse responseBody in
    log st ("Extracted content:<responseBody> " ++ content ++ "</responseBody>").

(** Lines 72 to 76 of [RelayTextHelper]: map model name. *)
Definition mapModelName (meta : Meta) (textRequest : GeneralOpenAIRequest)
  : Meta * GeneralOpenAIRequest * bool :=
  let meta := set_OriginModelName meta (Model textRequest) in
  let '(mapped, isModelMapped) :=
    getMappedModelName (Model textRequest) (ModelMapping meta) in
  let textRequest := set_Model textRequest mapped in
  let meta := set_ActualModelName meta (Model textRequest) in
  (meta, textRequest, isModelMapped).

Definition sink_of (w : W + responseBodyLogWriter W) : W :=
  match w with inl k => k | inr t => ResponseWriter_ t end.

Definition RelayTextHelper (st : State) : State * option ErrorWithStatusCode :=
  let meta := c_meta st in
  (* get & validate textRequest *)
  match getAndValidateTextRequest (c_Request_Body st) (Mode meta) with
  | inl err =>
    (log st ("getAndValidateTextRequest failed: " ++ err),
     Some (ErrorWrapper err "invalid_text_request" StatusBadRequest))
  | inr textRequest =>
    let meta := set_IsStream meta (Stream textRequest) in
    (* Wrap the response writer to capture the response *)
    let writer := mkWriter (sink_of (c_Writer st)) EmptyString (IsStream meta) false in
    let st := set_Writer st (inr writer) in
    (* map model name *)
    let '(meta, textRequest, isModelMapped) := mapModelName meta textRequest in
    (* get model ratio & group ratio *)
    let modelRatio := GetModelRatio (Model textRequest) in
    let groupRatio := GetGroupRatio (Group meta) in
    let ratio := fmul modelRatio groupRatio in
    (* pre-consume quota *)
    let promptTokens := getPromptTokens textRequest (Mode meta) in
    let meta := set_PromptTokens meta promptTokens in
    let st := set_meta st meta in
    let '(st, (preConsumedQuota, bizErr)) :=
      preConsumeQuota st textRequest promptTokens ratio meta in
    match bizErr with
    | Some bizErr =>
      (log st ("preConsumeQuota failed: " ++ Message bizErr), Some bizErr)
    | None =>
      match GetAdaptor (APIType meta) with
      | None =>
        (st, Some (ErrorWrapper ("invalid api type: " ++ pretty (APIType meta))
                     "invalid_api_type" StatusBadRequest))
      | Some adaptor =>
        let st := emit st EvInit in
        (* get request body *)
        let '(st, built) :=
          getRequestBody st meta textRequest adaptor isModelMapped in
        match built with
        | inl err =>
          (st, Some (ErrorWrapper err "convert_request_failed"
                       StatusInternalServerError))
        | inr (requestBody, bodyContent) =>
          (* Log the final request body *)
          let st := log st ("Final request body: <requestBody> "
                            ++ bodyContent ++ "</requestBody>") in
          (* do request *)
          let st := emit st (EvDoRequest requestBody) in
          match DoRequest adaptor meta requestBody with
          | inl err =>
            (log st ("DoRequest failed: " ++ err),
             Some (ErrorWrapper err "do_request_failed"
                     StatusInternalServerError))
          | inr resp =>
            if isErrorHappened meta resp then
              let st := ReturnPreConsumedQuota st preConsumedQuota (TokenId meta) in
              (st, Some (RelayErrorHandler resp))
            else
              (* do response *)
              let st := emit st EvDoResponse in
              let '(ops, (usage, respErr)) := DoResponse adaptor resp meta in
              let st := set_Writer st (writer_run ops (c_Writer st)) in
              match respErr with
              | Some respErr =>
                let st := log st ("respErr is not nil: " ++ Message respErr) in
                let st := ReturnPreConsumedQuota st preConsumedQuota (TokenId meta) in
                (st, Some respErr)
              | None =>
                (* Log the response body *)
                let responseBodyBuffer :=
                  match c_Writer st with
                  | inr t => Buffer_String (body t)
                  | inl _ => EmptyString
                  end in
                let st := logResponseBody st responseBodyBuffer (IsStream meta) in
                (* post-consume quota *)
                let st := go_postConsumeQuota st usage preConsumedQuota in
                (st, None)
              end
          end
        end
      end
    end
  end.

(** *** The outcomes of a call

    The values [RelayTextHelper] works with once the request is
    validated: the meta it stores in the context, the request with the
    mapped model name, the flag of the mapping and the amount it
    reserves. *)
Definition call_request (st : State) (textRequest : GeneralOpenAIRequest)
  : GeneralOpenAIRequest :=
  snd (fst (mapModelName (set_IsStream (c_meta st) (Stream textRequest))
              textRequest)).

Definition call_mapped (st : State) (textRequest : GeneralOpenAIRequest) : bool :=
  snd (mapModelName (set_IsStream (c_meta st) (Stream textRequest)) textRequest).

Definition call_meta (st : State) (textRequest : GeneralOpenAIRequest) : Meta :=
  let meta :=
    fst (fst (mapModelName (set_IsStream (c_meta st) (Stream textRequest))
                textRequest)) in
  set_PromptTokens meta
    (getPromptTokens (call_request st textRequest) (Mode meta)).

Definition call_quota (st : State) (textRequest : GeneralOpenAIRequest) : Z :=
  let meta := call_meta st textRequest in
  let r := call_request st textRequest in
  getPreConsumedQuota r (getPromptTokens r (Mode meta))
    (fmul (GetModelRatio (Model r)) (GetGroupRatio (Group meta))).

Definition conversion_events (meta : Meta) : list event :=
  if (APIType meta =? apitype_OpenAI)%Z then [] else [EvConvertRequest].

(** [outcome st evs l res]: a call started in [st] may add the events
    [evs], leave the ledger [l] and return [res].  One rule for each
    place [RelayTextHelper] returns from. *)
Inductive outcome (st : State)
  : list event -> gmap Z Z -> option ErrorWithStatusCode -> Prop :=
| Out_invalid_request err :
    getAndValidateTextRequest (c_Request_Body st) (Mode (c_meta st)) = inl err ->
    outcome st [] (ledger st)
      (Some (ErrorWrapper err "invalid_text_request" StatusBadRequest))
| Out_reservation_refused r0 :
    getAndValidateTextRequest (c_Request_Body st) (Mode (c_meta st)) = inr r0 ->
    Reserve (ledger st) (TokenId (call_meta st r0)) (call_quota st r0) = None ->
    outcome st [] (ledger st) (Some InsufficientBalance)
| Out_no_adaptor r0 l :
    getAndValidateTextRequest (c_Request_Body st) (Mode (c_meta st)) = inr r0 ->
    Reserve (ledger st) (TokenId (call_meta st r0)) (call_quota st r0) = Some l ->
    GetAdaptor (APIType (call_meta st r0)) = None ->
    outcome st
      [EvPreConsumeQuota (TokenId (call_meta st r0)) (call_quota st r0)] l
      (Some (ErrorWrapper
               ("invalid api type: " ++ pretty (APIType (call_meta st r0)))
               "invalid_api_type" StatusBadRequest))
| Out_request_body_failed r0 l a err :
    getAndValidateTextRequest (c_Request_Body st) (Mode (c_meta st)) = inr r0 ->
    Reserve (ledger st) (TokenId (call_meta st r0)) (call_quota st r0) = Some l ->
    GetAdaptor (APIType (call_meta st r0)) = Some a ->
    snd (getRequestBody st (call_meta st r0) (call_request st r0) a
           (call_mapped st r0)) = inl err ->
    outcome st
      ([EvPreConsumeQuota (TokenId (call_meta st r0)) (call_quota st r0); EvInit]
         ++ conversion_events (call_meta st r0))%list l
      (Some (ErrorWrapper err "convert_request_failed" StatusInternalServerError))
| Out_DoRequest_failed r0 l a requestBody bodyContent err :
    getAndValidateTextRequest (c_Request_Body st) (Mode (c_meta st)) = inr r0 ->
    Reserve (ledger st) (TokenId (call_meta st r0)) (call_quota st r0) = Some l ->
    GetAdaptor (APIType (call_meta st r0)) = Some a ->
    snd (getRequestBody st (call_meta st r0) (call_request st r0) a
           (call_mapped st r0)) = inr (requestBody, bodyContent) ->
    DoRequest a (call_meta st r0) requestBody = inl err ->
    outcome st
      ([EvPreConsumeQuota (TokenId (call_meta st r0)) (call_quota st r0); EvInit]
         ++ conversion_events (call_meta st r0)
         ++ [EvDoRequest requestBody])%list l
      (Some (ErrorWrapper err "do_request_failed" StatusInternalServerError))
| Out_upstream_error r0 l a requestBody bodyContent resp :
    getAndValidateTextRequest (c_Request_Body st) (Mode (c_meta st)) = inr r0 ->
    Reserve (ledger st) (TokenId (call_meta st r0)) (call_quota st r0) = Some l ->
    GetAdaptor (APIType (call_meta st r0)) = Some a ->
    snd (getRequestBody st (call_meta st r0) (call_request st r0) a
           (call_mapped st r0)) = inr (requestBody, bodyContent) ->
    DoRequest a (call_meta st r0) requestBody = inr resp ->
    isErrorHappened (call_meta st r0) resp = true ->
    outcome st
      ([EvPreConsumeQuota (TokenId (call_meta st r0)) (call_quota st r0); EvInit]
         ++ conversion_events (call_meta st r0)
         ++ [EvDoRequest requestBody;
             EvReturnPreConsumedQuota (call_quota st r0)
               (TokenId (call_meta st r0))])%list
      (Release l (TokenId (call_meta st r0)) (call_quota st r0))
      (Some (RelayErrorHandler resp))
| Out_DoResponse_failed r0 l a requestBody bodyContent resp ops usage respErr :
    getAndValidateTextRequest (c_Request_Body st) (Mode (c_meta st)) = inr r0 ->
    Reserve (ledger st) (TokenId (call_meta st r0)) (call_quota st r0) = Some l ->
    GetAdaptor (APIType (call_meta st r0)) = Some a ->
    snd (getRequestBody st (call_meta st r0) (call_request st r0) a
           (call_mapped st r0)) = inr (requestBody, bodyContent) ->
    DoRequest a (call_meta st r0) requestBody = inr resp ->
    isErrorHappened (call_meta st r0) resp = false ->
    DoResponse a resp (call_meta st r0) = (ops, (usage, Some respErr)) ->
    outcome st
      ([EvPreConsumeQuota (TokenId (call_meta st r0)) (call_quota st r0); EvInit]
         ++ conversion_events (call_meta st r0)
         ++ [EvDoRequest requestBody; EvDoResponse;
             EvReturnPreConsumedQuota (call_quota st r0)
               (TokenId (call_meta st r0))])%list
      (Release l (TokenId (call_meta st r0)) (call_quota st r0))
      (Some respErr)
| Out_success r0 l a requestBody bodyContent resp ops usage :
    getAndValidateTextRequest (c_Request_Body st) (Mode (c_meta st)) = inr r0 ->
    Reserve (ledger st) (TokenId (call_meta st r0)) (call_quota st r0) = Some l ->
    GetAdaptor (APIType (call_meta st r0)) = Some a ->
    snd (getRequestBody st (call_meta st r0) (call_request st r0) a
           (call_mapped st r0)) = inr (requestBody, bodyContent) ->
    DoRequest a (call_meta st r0) requestBody = inr resp ->
    isErrorHappened (call_meta st r0) resp = false ->
    DoResponse a resp (call_meta st r0) = (ops, (usage, None)) ->
    outcome st
      ([EvPreConsumeQuota (TokenId (call_meta st r0)) (call_quota st r0); EvInit]
         ++ conversion_events (call_meta st r0)
         ++ [EvDoRequest requestBody; EvDoResponse;
             EvGoPostConsumeQuota usage (call_quota st r0)])%list
      l None.

(** The reservation of a call is closed by each release and by each
    settlement that is scheduled. *)
Definition closings (evs : list event) : nat :=
  (count_events is_release evs + count_events is_settle evs)%nat.

Definition reservations (evs : list event) : nat :=
  count_events
    (fun e => match e with EvPreConsumeQuota _ _ => true | _ => false end) evs.

Definition is_DoResponse (e : event) : bool :=
  match e with EvDoResponse => true | _ => false end.

(** What [responseBodyBuffer.String()] gives: the copy the tap holds, if
    the tap is installed. *)
Definition captured (st : State) : string :=
  match c_Writer st with
  | inr t => Buffer_String (body t)
  | inl _ => EmptyString
  end.

End Controller.

End relay.

(** ** Concrete inputs *)

(** A client whose connection takes [capacity] more bytes and then
    breaks: the state holds what was delivered. *)
Record limited_sink : Type := mkLimited {
  delivered : string;
  capacity : nat
}.

Definition limited_write (k : limited_sink) (b : string)
  : limited_sink * (Z * option tap.error) :=
  if (String.length b <=? capacity k)%nat then
    (mkLimited (delivered k ++ b) (capacity k - String.length b),
     (Z.of_nat (String.length b), None))
  else
    (mkLimited (delivered k ++ take_bytes (capacity k) b) 0,
     (Z.of_nat (capacity k), Some "write: broken pipe")).

#[global] Instance limited_writer : tap.ResponseWriter limited_sink := {
  rw_Write := limited_write;
  rw_WriteString := limited_write
}.

Definition frame (payload : string) : string :=
  "data: " ++ payload ++ String LF (String LF "").

Definition stream_example : string :=
  frame (sq "{'choices':[{'delta':{'content':'Hel'}}]}")
  ++ frame (sq "{'choices':[{'delta':{'content':'lo'}}]}")
  ++ frame "[DONE]".

Definition response_example : string :=
  sq "{'choices':[{'message':{'content':'ok'}}]}".

Definition unprefixed_chunk : string :=
  sq "{'choices':[{'delta':{'content':'x'}}]}".

(** The body an OpenAI-compatible upstream sends for a piece of text:
    one choice whose text is under [kind], the [message] of a whole
    response or the [delta] of a streamed frame; and what follows the
    marker in the frame of a fragment. *)
Definition one_choice (kind content : string) : string :=
  sq "{'choices':[{'" ++ kind ++ sq "':{'content':'" ++ content ++ sq "'}}]}".

Definition frame_body (fragment : string) : string :=
  one_choice "delta" fragment ++ String LF (String LF EmptyString).

(** Text that stands for itself inside a JSON string: ASCII from the
    space on, without the quote and the backslash. *)
Definition plain_byte (c : ascii) : bool :=
  (32 <=? byte_of c)%N && (byte_of c <? 128)%N
  && negb (c =? DQ)%char && negb (c =? "\")%char.

Fixpoint plain (s : string) : bool :=
  match s with
  | EmptyString => true
  | String c s' => plain_byte c && plain s'
  end.

(** A deployment to run the controller in: responses are HTTP status
    codes, ratios are whole numbers, the reservation is
    [promptTokens * ratio], and the upstream is selected by the API
    type of the channel. *)
Definition test_usage : relay.Usage := relay.mkUsage 10 5 15.

Definition good_adaptor : relay.Adaptor Z string :=
  relay.mkAdaptor
    (fun _ r => inr ("converted:" ++ relay.Model r))
    (fun _ _ => inr 200%Z)
    (fun _ _ => ([tap.OpWrite response_example], (Some test_usage, None))).

Definition unreachable_adaptor : relay.Adaptor Z string :=
  relay.mkAdaptor
    (fun _ r => inr ("converted:" ++ relay.Model r))
    (fun _ _ => inl "dial tcp: connection refused")
    (fun _ _ => ([], (None, None))).

Definition bad_response_adaptor : relay.Adaptor Z string :=
  relay.mkAdaptor
    (fun _ r => inr ("converted:" ++ relay.Model r))
    (fun _ _ => inr 200%Z)
    (fun _ _ => ([], (None, Some (relay.mkError "unexpected end of JSON input"
                                   "one_api_error" "unmarshal_response_body_failed" 500)))).

Definition unsupported_adaptor : relay.Adaptor Z string :=
  relay.mkAdaptor
    (fun _ _ => inl "model is not supported")
    (fun _ _ => inr 200%Z)
    (fun _ _ => ([], (None, None))).

#[global] Instance test_env : relay.Collaborators := {
  relay.Response := Z;
  relay.ConvertedRequest := string;
  relay.float64 := Z;
  relay.fmul := Z.mul;
  relay.getAndValidateTextRequest b _ :=
    if String.eqb (relay.unread b) "" then inl "field messages is required"
    else inr (relay.mkRequest "gpt-x" false (relay.unread b));
  relay.GetModelRatio _ := 5%Z;
  relay.GetGroupRatio _ := 2%Z;
  relay.getPromptTokens _ _ := 10%Z;
  relay.getPreConsumedQuota _ promptTokens ratio := (promptTokens * ratio)%Z;
  relay.GetAdaptor apiType :=
    if (apiType =? 0)%Z then Some good_adaptor
    else if (apiType =? 1)%Z then Some unreachable_adaptor
    else if (apiType =? 2)%Z then Some bad_response_adaptor
    else if (apiType =? 3)%Z then Some unsupported_adaptor
    else None;
  relay.isErrorHappened _ resp := negb (resp =? 200)%Z;
  relay.RelayErrorHandler resp :=
    relay.mkError "upstream error" "upstream_error" "bad_response_status_code" resp;
  relay.Marshal_request r := inr (sq "{'model':'" ++ relay.Model r ++ sq "'}");
  relay.Marshal_converted c := inr c;
  relay.apitype_OpenAI := 0%Z;
  relay.channeltype_Baichuan := 26%Z
}.

Definition test_meta (apiType : Z) : relay.Meta :=
  relay.mkMeta 1 1 apiType 7 "default"
    (Some {["gpt-x" := "gpt-x-2024"]}) false "" "" 0.

Definition test_state (apiType : Z) : relay.State (W := string) :=
  relay.mkState (inl EmptyString)
    (relay.NewBody (sq "{'model':'gpt-x','messages':[]}"))
    (test_meta apiType) {[7%Z := 1000%Z]} [] [].

(** What may stand between two frames: ASCII white space only. *)
Fixpoint padding (s : string) : bool :=
  match s with
  | EmptyString => true
  | String c s' => strings.asciiSpace (byte_of c) && padding s'
  end.

(** Text that is the inside of a JSON string literal: the decoder's
    scanner reads all of it up to a closing quote put behind it. *)
Definition string_body (raw : string) : bool :=
  match json.scan_string (raw ++ String DQ EmptyString) with
  | Some (r, EmptyString) => String.eqb r raw
  | _ => false
  end.

(** A body with several choices: the objects of the choices, separated
    by commas, in the array [choices]; and what the decoder makes of
    the object of a choice. *)
Definition choice_object (kind content : string) : string :=
  sq "{'" ++ kind ++ sq "':{'content':'" ++ content ++ sq "'}}".

Fixpoint choice_list (kind : string) (contents : list string) : string :=
  match contents with
  | [] => EmptyString
  | [c] => choice_object kind c
  | c :: cs => choice_object kind c ++ "," ++ choice_list kind cs
  end.

Definition choices_body (kind : string) (contents : list string) : string :=
  sq "{'choices':[" ++ choice_list kind contents ++ "]}".

Definition choice_value (kind content : string) : json.value :=
  json.VMap
    [(kind,
      json.VMap [("content", json.VString (json.unquote 0 content))])].

(** The number of bytes [b] in a string, and strings of ASCII only. *)
Fixpoint count_byte (b : ascii) (s : string) : nat :=
  match s with
  | EmptyString => 0
  | String c s' => (if (c =? b)%char then 1 else 0) + count_byte b s'
  end.

Fixpoint ascii_only (s : string) : bool :=
  match s with
  | EmptyString => true
  | String c s' => (byte_of c <? utf8.RuneSelf)%N && ascii_only s'
  end.

(** [balanced s r]: what was read between [s] and its rest [r] holds an
    even number of quotes, if [s] has no backslash. *)
Definition balanced (s r : string) : Prop :=
  count_byte "\" s = 0%nat ->
  count_byte "\" r = 0%nat
  /\ exists k, count_byte DQ s = (count_byte DQ r + 2 * k)%nat.

(** Text that holds nothing the decoder could read a string from. *)
Definition quiet (s : string) : Prop :=
  ascii_only s = true /\ count_byte "\" s = 0%nat /\ count_byte DQ s = 0%nat.

(** Induction on the three phrases of the grammar at once. *)
Scheme value_mind := Minimality for grammar.value Sort Prop
  with elements_mind := Minimality for grammar.elements Sort Prop
  with members_mind := Minimality for grammar.members Sort Prop.

Combined Scheme grammar_mind from value_mind, elements_mind, members_mind.

(** [utf8.ValidString]: no byte of [s] decodes to the error rune of
    width one. *)
Fixpoint ValidString_loop (fuel : nat) (s : string) : bool :=
  match s with
  | EmptyString => true
  | String _ _ =>
    match fuel with
    | O => false
    | S fuel' =>
      let '(r, size) := utf8.DecodeRune s in
      if (r =? utf8.RuneError)%N && (size =? 1)%nat then false
      else ValidString_loop fuel' (drop_bytes size s)
    end
  end.

Definition ValidString (s : string) : bool :=
  ValidString_loop (String.length s) s.

(** Valid JSON in the words of RFC 8259: a text of the grammar, encoded
    in UTF-8 (section 8.1). *)
Definition valid_json (s : string) : Prop :=
  grammar.text s /\ ValidString s = true.

(** A response whose content is two bytes that are no UTF-8. *)
Definition bad_utf8_response : string :=
  one_choice "message" (String "255" (String "254" EmptyString)).

(** White space of Unicode beyond ASCII, in UTF-8: the no-break space,
    the next line control, the line separator and the ideographic
    space; and the zero width space, which is no white space. *)
Definition NBSP : string := String "194" (String "160" EmptyString).
Definition NEL : string := String "194" (String "133" EmptyString).
Definition LSEP : string :=
  String "226" (String "128" (String "168" EmptyString)).
Definition IDSP : string :=
  String "227" (String "128" (String "128" EmptyString)).
Definition ZWSP : string :=
  String "226" (String "128" (String "139" EmptyString)).

(** The payload of a frame, the choices of a chunk or the terminator,
    the text it stands for, and the frames the upstream sends: contents
    that are string bodies without a marker, and ASCII white space
    behind the payload. *)
Definition frame_payload (f : option (list string)) : string :=
  match f with
  | Some contents => choices_body "delta" contents
  | None => "[DONE]"
  end.

Definition frame_content (f : option (list string)) : string :=
  match f with
  | Some contents => concat_strings (map (json.unquote 0) contents)
  | None => EmptyString
  end.

Definition frame_ok (f : option (list string) * string) : Prop :=
  match fst f with
  | Some contents =>
    Forall (fun c => string_body c = true
                     /\ strings.Index c "data: " = None) contents
  | None => True
  end
  /\ padding (snd f) = true.

(** * Properties *)

(** ** Strings *)

#[local] Arguments String.append !s1 s2 : simpl nomatch.

Lemma append_nil_r (s : string) : s ++ EmptyString = s.
Proof. induction s as [|c s IH]; simpl; [reflexivity | now rewrite IH]. Qed.

Lemma append_assoc (a b c : string) : (a ++ b) ++ c = a ++ (b ++ c).
Proof. induction a as [|x a IH]; simpl; [reflexivity | now rewrite IH]. Qed.

Lemma length_append (a b : string) :
  String.length (a ++ b) = (String.length a + String.length b)%nat.
Proof. induction a as [|x a IH]; simpl; [reflexivity | now rewrite IH]. Qed.

Lemma concat_strings_app (l1 l2 : list string) :
  concat_strings (l1 ++ l2) = concat_strings l1 ++ concat_strings l2.
Proof.
  induction l1 as [|x l1 IH]; simpl; [reflexivity|].
  now rewrite IH, append_assoc.
Qed.

(** ** The response tap *)
Section TapProperties.

Import tap.
Context {W : Type} `{ResponseWriter W}.

(** One call on the tap: the sink gets the call with the same argument,
    the buffer grows by the argument, and the value returned is the
    sink's. *)
Lemma tap_call_eq (w : responseBodyLogWriter W) (o : write_op) :
  tap_call w o =
  (mkWriter (fst (sink_call (ResponseWriter_ w) o))
            (body w ++ op_bytes o) (isStream w)
            (if isStream w then false else streamMux w),
   snd (sink_call (ResponseWriter_ w) o)).
Proof.
  destruct w as [k buf st mx], o as [b|s]; simpl;
    unfold Write, WriteString; simpl;
    destruct st; simpl;
    match goal with |- context [rw_Write ?a ?b] => destruct (rw_Write a b)
                  | |- context [rw_WriteString ?a ?b] => destruct (rw_WriteString a b)
    end; reflexivity.
Qed.

Lemma tap_run_sink (ops : list write_op) (w : responseBodyLogWriter W) :
  ResponseWriter_ (fst (tap_run ops w)) = fst (sink_run ops (ResponseWriter_ w))
  /\ snd (tap_run ops w) = snd (sink_run ops (ResponseWriter_ w)).
Proof.
  revert w; induction ops as [|o ops IH]; intros w; simpl; [now split|].
  rewrite tap_call_eq.
  destruct (sink_call (ResponseWriter_ w) o) as [k1 ret] eqn:Ek; simpl.
  specialize (IH (mkWriter k1 (body w ++ op_bytes o) (isStream w)
                    (if isStream w then false else streamMux w))).
  simpl in IH.
  destruct (tap_run ops _) as [w2 rets], (sink_run ops k1) as [k2 rets'].
  simpl in *. destruct IH as [-> ->]. now split.
Qed.

Lemma tap_run_body (ops : list write_op) (w : responseBodyLogWriter W) :
  body (fst (tap_run ops w)) = body w ++ concat_strings (map op_bytes ops).
Proof.
  revert w; induction ops as [|o ops IH]; intros w; simpl.
  - now rewrite append_nil_r.
  - rewrite tap_call_eq.
    specialize (IH (mkWriter (fst (sink_call (ResponseWriter_ w) o))
                      (body w ++ op_bytes o) (isStream w)
                      (if isStream w then false else streamMux w))).
    destruct (tap_run ops _) as [w2 rets]. simpl in *.
    now rewrite IH, append_assoc.
Qed.

Lemma tap_run_isStream (ops : list write_op) (w : responseBodyLogWriter W) :
  isStream (fst (tap_run ops w)) = isStream w.
Proof.
  revert w; induction ops as [|o ops IH]; intros w; simpl; [reflexivity|].
  rewrite tap_call_eq.
  specialize (IH (mkWriter (fst (sink_call (ResponseWriter_ w) o))
                    (body w ++ op_bytes o) (isStream w)
                    (if isStream w then false else streamMux w))).
  destruct (tap_run ops _) as [w2 rets]. exact IH.
Qed.

(** What the recording sink has received after a run. *)
Lemma recorder_run (ops : list write_op) (r : recorder W) :
  received (fst (sink_run ops r)) = (received r ++ map op_bytes ops)%list.
Proof.
  revert r; induction ops as [|o ops IH]; intros r; simpl.
  - now rewrite app_nil_r.
  - destruct (sink_call r o) as [r1 ret] eqn:E.
    assert (received r1 = (received r ++ [op_bytes o])%list) as Hr.
    { destruct o; simpl in E;
        [destruct (rw_Write (inner r) b) | destruct (rw_WriteString (inner r) s)];
        inversion E; reflexivity. }
    specialize (IH r1). destruct (sink_run ops r1) as [r2 rets].
    simpl in *. rewrite IH, Hr, <- app_assoc. reflexivity.
Qed.

End TapProperties.

(** C3.  Transparency of the response tap.  For any sink and any finite
    sequence of [Write] and [WriteString] calls on the tap: the sink
    ends in the state, and each call returns the value, that the same
    calls made on the sink itself give; the accumulated copy is what it
    was followed by the concatenation of the arguments, in order; and a
    sink that records its calls has received exactly the arguments
    passed to the tap, one by one and in order. *)
Theorem tap_transparent :
  (forall (W : Type) (HW : tap.ResponseWriter W) (ops : list tap.write_op)
          (w : tap.responseBodyLogWriter W),
      tap.ResponseWriter_ (fst (tap.tap_run ops w))
        = fst (tap.sink_run ops (tap.ResponseWriter_ w))
      /\ snd (tap.tap_run ops w) = snd (tap.sink_run ops (tap.ResponseWriter_ w))
      /\ tap.body (fst (tap.tap_run ops w))
         = tap.body w ++ concat_strings (map tap.op_bytes ops))
  /\ (forall (W : Type) (HW : tap.ResponseWriter W) (ops : list tap.write_op)
             (w : tap.responseBodyLogWriter (tap.recorder W)),
         tap.received (tap.ResponseWriter_ (fst (tap.tap_run ops w)))
         = (tap.received (tap.ResponseWriter_ w) ++ map tap.op_bytes ops)%list).
Proof.
  split.
  - intros W HW ops w.
    destruct (tap_run_sink ops w) as [Hs Hr].
    repeat split; [exact Hs | exact Hr | apply tap_run_body].
  - intros W HW ops w.
    destruct (tap_run_sink ops w) as [Hs _].
    rewrite Hs. apply recorder_run.
Qed.

(** C9.  The tap appends before it forwards, and the append cannot
    fail: after [Write] or [WriteString] the captured copy ends with
    the bytes written whatever the sink returned, and the value
    returned is the sink's.  With a client that breaks after two bytes,
    writing [hello] returns the sink's error while the copy holds all
    five bytes and the client has two. *)
Theorem tap_captures_undelivered_bytes :
  (forall (W : Type) (HW : tap.ResponseWriter W)
          (w : tap.responseBodyLogWriter W) (b : string),
      tap.body (fst (tap.Write w b)) = tap.body w ++ b
      /\ snd (tap.Write w b) = snd (tap.rw_Write (tap.ResponseWriter_ w) b)
      /\ tap.body (fst (tap.WriteString w b)) = tap.body w ++ b
      /\ snd (tap.WriteString w b)
         = snd (tap.rw_WriteString (tap.ResponseWriter_ w) b))
  /\ (let w := tap.mkWriter (mkLimited EmptyString 2) EmptyString true false in
      snd (tap.Write w "hello") = (2%Z, Some "write: broken pipe")
      /\ tap.body (fst (tap.Write w "hello")) = "hello"
      /\ delivered (tap.ResponseWriter_ (fst (tap.Write w "hello"))) = "he"
      /\ snd (tap.WriteString w "hello") = (2%Z, Some "write: broken pipe")
      /\ tap.body (fst (tap.WriteString w "hello")) = "hello").
Proof.
  split.
  - intros W HW w b.
    pose proof (tap_call_eq w (tap.OpWrite b)) as E1.
    pose proof (tap_call_eq w (tap.OpWriteString b)) as E2.
    simpl in E1, E2. rewrite E1, E2. simpl. repeat split.
  - vm_compute. repeat split.
Qed.

(** ** The relay orchestrator *)


Lemma getMappedModelName_renamed (name mapped : string)
    (table : gmap string string) :
  table !! name = Some mapped -> mapped <> name ->
  relay.getMappedModelName name (Some table) = (mapped, true).
Proof.
  intros E Hne. unfold relay.getMappedModelName. rewrite E.
  destruct (String.eqb mapped name) eqn:Eq; [|reflexivity].
  apply String.eqb_eq in Eq. contradiction.
Qed.

Section RelayProperties.

Import tap relay.
Context {W : Type} `{ResponseWriter W} `{Collaborators}.

(** The ledger: a reservation that is released leaves every balance as
    it was. *)
Lemma Release_Reserve (l l' : gmap Z Z) (account amount other : Z) :
  Reserve l account amount = Some l' ->
  balance (Release l' account amount) other = balance l other.
Proof.
  unfold Reserve, Release, balance. intros E.
  destruct (default 0%Z (l !! account) <? amount)%Z; [discriminate|].
  inversion E; subst l'; clear E.
  destruct (decide (account = other)) as [->|Hne].
  - rewrite !lookup_insert_eq. simpl. lia.
  - rewrite !lookup_insert_ne by assumption. reflexivity.
Qed.

Lemma Reserve_balance (l l' : gmap Z Z) (account amount : Z) :
  Reserve l account amount = Some l' ->
  balance l' account = (balance l account - amount)%Z.
Proof.
  unfold Reserve, balance. intros E.
  destruct (default 0%Z (l !! account) <? amount)%Z; [discriminate|].
  inversion E; subst l'. now rewrite lookup_insert_eq.
Qed.

(** [getRequestBody] leaves the meta, the ledger and the writer alone. *)
Lemma getRequestBody_frame (st : State (W := W)) meta textRequest adaptor mapped :
  let st' := fst (getRequestBody st meta textRequest adaptor mapped) in
  c_meta st' = c_meta st /\ ledger st' = ledger st
  /\ c_Writer st' = c_Writer st.
Proof.
  unfold getRequestBody.
  destruct (APIType meta =? apitype_OpenAI)%Z.
  - destruct (mapped || (ChannelType meta =? channeltype_Baichuan)%Z).
    + destruct (Marshal_request textRequest); simpl; auto.
    + simpl. destruct (read_error (c_Request_Body st)); simpl; auto.
  - destruct (ConvertRequest adaptor (Mode meta) textRequest); simpl; auto.
    destruct (Marshal_converted c); simpl; auto.
Qed.

Lemma getRequestBody_events (st : State (W := W)) meta textRequest adaptor mapped :
  events (fst (getRequestBody st meta textRequest adaptor mapped))
  = (events st ++ conversion_events meta)%list.
Proof.
  unfold getRequestBody, conversion_events.
  destruct (APIType meta =? apitype_OpenAI)%Z.
  - rewrite app_nil_r.
    destruct (mapped || (ChannelType meta =? channeltype_Baichuan)%Z).
    + destruct (Marshal_request textRequest); reflexivity.
    + simpl. destruct (read_error (c_Request_Body st)); reflexivity.
  - destruct (ConvertRequest adaptor (Mode meta) textRequest); simpl; auto.
    destruct (Marshal_converted c); reflexivity.
Qed.

Lemma getRequestBody_result (st st0 : State (W := W)) meta textRequest adaptor mapped :
  c_Request_Body st = c_Request_Body st0 ->
  snd (getRequestBody st meta textRequest adaptor mapped)
  = snd (getRequestBody st0 meta textRequest adaptor mapped).
Proof.
  intros E. unfold getRequestBody. rewrite E.
  destruct (APIType meta =? apitype_OpenAI)%Z.
  - destruct (mapped || (ChannelType meta =? channeltype_Baichuan)%Z).
    + destruct (Marshal_request textRequest); reflexivity.
    + simpl. destruct (read_error (c_Request_Body st0)); reflexivity.
  - destruct (ConvertRequest adaptor (Mode meta) textRequest); simpl; auto.
    destruct (Marshal_converted c); reflexivity.
Qed.

Lemma RelayTextHelper_outcome (st : State (W := W)) :
  exists evs,
    events (fst (RelayTextHelper st)) = (events st ++ evs)%list
    /\ outcome st evs (ledger (fst (RelayTextHelper st)))
         (snd (RelayTextHelper st)).
Proof.
  unfold RelayTextHelper.
  destruct (getAndValidateTextRequest (c_Request_Body st) (Mode (c_meta st)))
    as [err|r0] eqn:Ev.
  { exists []. simpl. rewrite app_nil_r. split; [reflexivity|].
    now apply Out_invalid_request. }
  destruct (mapModelName (set_IsStream (c_meta st) (Stream r0)) r0)
    as [[m1 r1] mp] eqn:Emap.
  assert (call_request st r0 = r1) as Er
    by (unfold call_request; now rewrite Emap).
  assert (call_mapped st r0 = mp) as Ep
    by (unfold call_mapped; now rewrite Emap).
  assert (call_meta st r0 = set_PromptTokens m1 (getPromptTokens r1 (Mode m1)))
    as Em by (unfold call_meta; rewrite Er, Emap; reflexivity).
  assert (call_quota st r0
          = getPreConsumedQuota r1 (getPromptTokens r1 (Mode m1))
              (fmul (GetModelRatio (Model r1)) (GetGroupRatio (Group m1))))
    as Eq by (unfold call_quota; rewrite Er, Em; reflexivity).
  unfold preConsumeQuota.
  rewrite <- Eq, <- Em. clear Em Eq Emap.
  remember (call_meta st r0) as m eqn:Hm.
  remember (call_quota st r0) as q eqn:Hq.
  simpl.
  destruct (Reserve (ledger st) (TokenId m) q) as [l|] eqn:Eres.
  2:{ exists []. simpl. rewrite app_nil_r. split; [reflexivity|].
      subst m q. eapply Out_reservation_refused; eassumption. }
  destruct (GetAdaptor (APIType m)) as [a|] eqn:Ea.
  2:{ eexists. simpl. split; [reflexivity|].
      subst m q. eapply Out_no_adaptor; eassumption. }
  match goal with |- context [getRequestBody ?s ?m ?r ?a ?p] =>
    pose proof (getRequestBody_events s m r a p) as Hev;
    pose proof (getRequestBody_frame s m r a p) as (_ & Hled & Hwr);
    pose proof (getRequestBody_result s st m r a p eq_refl) as Hres;
    destruct (getRequestBody s m r a p) as [st1 built] eqn:Eb
  end.
  simpl in Hev, Hled, Hwr, Hres. rewrite <- Er, <- Ep in Hres.
  destruct built as [err|[requestBody bodyContent]].
  { eexists. simpl. rewrite Hev, Hled. split.
    - rewrite <- !app_assoc. reflexivity.
    - simpl. subst m q. eapply Out_request_body_failed; eauto. }
  destruct (DoRequest a m requestBody) as [err|resp] eqn:Ed.
  { eexists. simpl. rewrite Hev, Hled. split.
    - rewrite <- !app_assoc. reflexivity.
    - simpl. subst m q. eapply Out_DoRequest_failed; eauto. }
  destruct (isErrorHappened m resp) eqn:Eh.
  { eexists. simpl. rewrite Hev, Hled. split.
    - rewrite <- !app_assoc. reflexivity.
    - simpl. subst m q. eapply Out_upstream_error; eauto. }
  destruct (DoResponse a resp m) as [ops [usage [respErr|]]] eqn:Er2.
  { eexists. simpl. rewrite Hev, Hled. split.
    - rewrite <- !app_assoc. reflexivity.
    - simpl. subst m q. eapply Out_DoResponse_failed; eauto. }
  eexists. 
  assert (forall (s : State (W := W)) b i, events (logResponseBody s b i) = events s
                        /\ ledger (logResponseBody s b i) = ledger s) as Hlog.
  { intros s b i. unfold logResponseBody.
    destruct (String.eqb b ""), i; simpl; auto. }
  simpl. 
  match goal with |- context [logResponseBody ?s ?b ?i] =>
    destruct (Hlog s b i) as [-> ->] end.
  simpl. rewrite Hev, Hled. split.
  - rewrite <- !app_assoc. reflexivity.
  - simpl. subst m q. eapply Out_success; eauto.
Qed.

(** Every outcome closes the reservation at most once, and only a
    reservation that was made. *)
Lemma outcome_closings (st : State (W := W)) evs l res :
  outcome st evs l res ->
  (closings evs <= 1)%nat /\ (closings evs <= reservations evs)%nat
  /\ (reservations evs <= 1)%nat.
Proof.
  assert (forall m, closings (conversion_events m) = 0%nat
                    /\ reservations (conversion_events m) = 0%nat) as Hc.
  { intros m. unfold conversion_events.
    destruct (APIType m =? apitype_OpenAI)%Z; split; reflexivity. }
  assert (forall a b, closings (a ++ b) = (closings a + closings b)%nat) as Happ.
  { intros a b. unfold closings, count_events.
    rewrite !List.filter_app, !List.length_app. lia. }
  assert (forall a b, reservations (a ++ b)
                      = (reservations a + reservations b)%nat) as Rapp.
  { intros a b. unfold reservations, count_events.
    rewrite !List.filter_app, !List.length_app. lia. }
  intros Ho. inversion Ho; subst;
    rewrite ?Happ, ?Rapp;
    repeat match goal with
    | |- context [closings (conversion_events ?m)] =>
      destruct (Hc m) as [-> ->]
    end;
    cbn; lia.
Qed.

(** The ledger an outcome leaves: when the reservation was released,
    every balance is what it was before the call. *)
Lemma outcome_release_restores (st : State (W := W)) evs l res account :
  outcome st evs l res ->
  (0 < count_events is_release evs)%nat ->
  balance l account = balance (ledger st) account.
Proof.
  assert (forall m, count_events is_release (conversion_events m) = 0%nat) as Hc.
  { intros m. unfold conversion_events.
    destruct (APIType m =? apitype_OpenAI)%Z; reflexivity. }
  assert (forall a b, count_events is_release (a ++ b)
            = (count_events is_release a + count_events is_release b)%nat)
    as Happ.
  { intros a b. unfold count_events.
    rewrite !List.filter_app, !List.length_app. lia. }
  intros Ho. inversion Ho; subst; rewrite ?Happ, ?Hc; cbn; try lia;
    intros _; eapply Release_Reserve; eassumption.
Qed.

(** Where a reservation stays open: only at the three returns between
    the reservation and the check of the upstream response. *)
Lemma outcome_open_reservation (st : State (W := W)) evs l res :
  outcome st evs l res ->
  reservations evs = 1%nat -> closings evs = 0%nat ->
  exists err code status,
    res = Some (ErrorWrapper err code status)
    /\ In code ["invalid_api_type"; "convert_request_failed";
                "do_request_failed"].
Proof.
  assert (forall m, closings (conversion_events m) = 0%nat
                    /\ reservations (conversion_events m) = 0%nat) as Hc.
  { intros m. unfold conversion_events.
    destruct (APIType m =? apitype_OpenAI)%Z; split; reflexivity. }
  assert (forall a b, closings (a ++ b) = (closings a + closings b)%nat) as Happ.
  { intros a b. unfold closings, count_events.
    rewrite !List.filter_app, !List.length_app. lia. }
  assert (forall a b, reservations (a ++ b)
                      = (reservations a + reservations b)%nat) as Rapp.
  { intros a b. unfold reservations, count_events.
    rewrite !List.filter_app, !List.length_app. lia. }
  intros Ho. inversion Ho; subst;
    rewrite ?Happ, ?Rapp;
    repeat match goal with
    | |- context [closings (conversion_events ?m)] =>
      destruct (Hc m) as [-> ->]
    end;
    cbn; intros Hr Hcl; try lia;
    eexists _, _, _; (split; [reflexivity|]); simpl; tauto.
Qed.

End RelayProperties.



(** The request body on the other path: an adaptor that is not the
    OpenAI one is asked to convert the request. *)
Lemma converted_request_body (W : Type) (HW : tap.ResponseWriter W)
    (env : relay.Collaborators) (st : relay.State (W := W)) meta textRequest
    adaptor isModelMapped :
  relay.APIType meta <> relay.apitype_OpenAI ->
  relay.events (fst (relay.getRequestBody st meta textRequest adaptor isModelMapped))
  = (relay.events st ++ [relay.EvConvertRequest])%list.
Proof.
  intros Hne. rewrite getRequestBody_events. unfold relay.conversion_events.
  destruct (Z.eqb_spec (relay.APIType meta) relay.apitype_OpenAI);
    [contradiction | reflexivity].
Qed.

(** C7.  The OpenAI-compatible passthrough.  When the API type of the
    call is [apitype.OpenAI], [getRequestBody] does not call
    [ConvertRequest] (it adds no event, and its result is the same for
    every adaptor).  If the model was not remapped and the channel is
    not Baichuan, the body sent is the inbound body, byte for byte
    (or the error of reading it), and the inbound body is put back;
    if the model was remapped or the channel is Baichuan, the body sent
    is the JSON serialization of the request (or the error of
    serializing it). *)
Theorem openai_passthrough_request_body
    (W : Type) (HW : tap.ResponseWriter W) (env : relay.Collaborators)
    (st : relay.State (W := W)) (meta : relay.Meta)
    (textRequest : relay.GeneralOpenAIRequest)
    (adaptor : relay.Adaptor relay.Response relay.ConvertedRequest)
    (isModelMapped : bool) :
  relay.APIType meta = relay.apitype_OpenAI ->
  let r := relay.getRequestBody st meta textRequest adaptor isModelMapped in
  relay.events (fst r) = relay.events st
  /\ (forall adaptor',
         snd (relay.getRequestBody st meta textRequest adaptor' isModelMapped)
         = snd r)
  /\ (isModelMapped = false ->
      relay.ChannelType meta <> relay.channeltype_Baichuan ->
      snd r = match relay.read_error (relay.c_Request_Body st) with
              | Some err => inl err
              | None => inr (relay.unread (relay.c_Request_Body st),
                             relay.unread (relay.c_Request_Body st))
              end
      /\ (relay.read_error (relay.c_Request_Body st) = None ->
          relay.c_Request_Body (fst r)
          = relay.NewBody (relay.unread (relay.c_Request_Body st))))
  /\ (isModelMapped = true
      \/ relay.ChannelType meta = relay.channeltype_Baichuan ->
      snd r = match relay.Marshal_request textRequest with
              | inl err => inl err
              | inr jsonStr => inr (jsonStr, jsonStr)
              end
      /\ relay.c_Request_Body (fst r) = relay.c_Request_Body st).
Proof.
  intros Hapi r. subst r. unfold relay.getRequestBody.
  rewrite Hapi, Z.eqb_refl.
  split; [|split; [|split]].
  - destruct (isModelMapped || _).
    + destruct (relay.Marshal_request textRequest); reflexivity.
    + simpl. destruct (relay.read_error _); reflexivity.
  - reflexivity.
  - intros Hm Hc. rewrite Hm. simpl.
    destruct (Z.eqb_spec (relay.ChannelType meta) relay.channeltype_Baichuan);
      [contradiction|].
    simpl. split.
    + destruct (relay.read_error _); reflexivity.
    + intros Hr. rewrite Hr. reflexivity.
  - intros Hor.
    assert ((isModelMapped
             || (relay.ChannelType meta =? relay.channeltype_Baichuan)%Z) = true)
      as ->.
    { destruct Hor as [-> | ->]; [reflexivity|].
      rewrite Z.eqb_refl. apply orb_true_r. }
    destruct (relay.Marshal_request textRequest); split; reflexivity.
Qed.

(** C7 on a concrete call: an OpenAI channel, no remapping, and the
    inbound bytes go out unchanged. *)
Lemma openai_passthrough_witness :
  snd (relay.getRequestBody (test_state 0) (test_meta 0)
         (relay.mkRequest "gpt-x" false "") good_adaptor false)
  = inr (sq "{'model':'gpt-x','messages':[]}",
         sq "{'model':'gpt-x','messages':[]}").
Proof.
  exact (proj1
    (proj1 (proj2 (proj2
       (openai_passthrough_request_body string _ test_env (test_state 0)
          (test_meta 0) (relay.mkRequest "gpt-x" false "") good_adaptor false
          eq_refl)))
       eq_refl ltac:(vm_compute; discriminate))).
Defined.

(** C1, on the code.  The claim fails where [RelayTextHelper] returns
    between the reservation and the check of the upstream response.
    With an upstream that cannot be reached ([DoRequest] fails), with an
    adaptor that cannot convert the request, and with an API type that
    has no adaptor, one reservation is made and the call ends with the
    reservation neither released nor settled; the two later failure
    paths and the success path close it exactly once. *)
Theorem reservation_left_open_by_early_returns :
  (let r := relay.RelayTextHelper (test_state 1) in
   snd r = Some (relay.ErrorWrapper "dial tcp: connection refused"
                   "do_request_failed" 500)
   /\ relay.events (fst r)
      = [relay.EvPreConsumeQuota 7 100; relay.EvInit; relay.EvConvertRequest;
         relay.EvDoRequest "converted:gpt-x-2024"]
   /\ relay.reservations (relay.events (fst r)) = 1%nat
   /\ relay.closings (relay.events (fst r)) = 0%nat)
  /\ (let r := relay.RelayTextHelper (test_state 3) in
      snd r = Some (relay.ErrorWrapper "model is not supported"
                      "convert_request_failed" 500)
      /\ relay.reservations (relay.events (fst r)) = 1%nat
      /\ relay.closings (relay.events (fst r)) = 0%nat)
  /\ (let r := relay.RelayTextHelper (test_state 5) in
      snd r = Some (relay.ErrorWrapper "invalid api type: 5"
                      "invalid_api_type" 400)
      /\ relay.reservations (relay.events (fst r)) = 1%nat
      /\ relay.closings (relay.events (fst r)) = 0%nat)
  /\ (let r := relay.RelayTextHelper (test_state 2) in
      relay.reservations (relay.events (fst r)) = 1%nat
      /\ relay.count_events relay.is_release (relay.events (fst r)) = 1%nat
      /\ relay.count_events relay.is_settle (relay.events (fst r)) = 0%nat)
  /\ (let r := relay.RelayTextHelper (test_state 0) in
      snd r = None
      /\ relay.reservations (relay.events (fst r)) = 1%nat
      /\ relay.count_events relay.is_release (relay.events (fst r)) = 0%nat
      /\ relay.count_events relay.is_settle (relay.events (fst r)) = 1%nat).
Proof. vm_compute. repeat split. Qed.

(** C2, on the code.  When [DoResponse] fails the reservation is
    released, the balance of the account is what it was before the
    call and the adaptor's error is returned; when [DoRequest] fails
    the error is the one of that site ([do_request_failed]) but the
    reservation is not released: the account started with 1000 and is
    left with 900. *)
Theorem DoRequest_failure_keeps_the_debit :
  (let r := relay.RelayTextHelper (test_state 2) in
   relay.balance (relay.ledger (test_state 2)) 7 = 1000%Z
   /\ relay.balance (relay.ledger (fst r)) 7 = 1000%Z
   /\ snd r = Some (relay.mkError "unexpected end of JSON input"
                      "one_api_error" "unmarshal_response_body_failed" 500))
  /\ (let r := relay.RelayTextHelper (test_state 1) in
      relay.balance (relay.ledger (test_state 1)) 7 = 1000%Z
      /\ relay.balance (relay.ledger (fst r)) 7 = 900%Z
      /\ option_map relay.Code (snd r) = Some "do_request_failed"
      /\ relay.count_events relay.is_release (relay.events (fst r)) = 0%nat).
Proof. vm_compute. repeat split. Qed.

(** ** The content extractors *)
Section ExtractProperties.

Import json extract.

Lemma stream_choice_app (acc : string) (choice : value) :
  stream_choice acc choice = acc ++ spec_choice_fragment choice.
Proof.
  unfold stream_choice, spec_choice_fragment, strings.Builder_WriteString.
  destruct choice as [| | | | |cm]; simpl; try now rewrite append_nil_r.
  destruct (map_index cm "delta") as [| | | | |d]; simpl;
    try now rewrite append_nil_r.
  destruct (map_index d "content"); simpl; try now rewrite append_nil_r.
  reflexivity.
Qed.

Lemma fold_stream_choice (choices : list value) (acc : string) :
  fold_left stream_choice choices acc
  = acc ++ concat_strings (map spec_choice_fragment choices).
Proof.
  revert acc; induction choices as [|c l IH]; intros acc; simpl.
  - now rewrite append_nil_r.
  - now rewrite IH, stream_choice_app, append_assoc.
Qed.

Lemma stream_chunk_app (acc chunk : string) :
  stream_chunk acc chunk = acc ++ spec_frame_text chunk.
Proof.
  unfold stream_chunk, spec_frame_text.
  destruct (_ || _); [now rewrite append_nil_r|].
  destruct (Unmarshal _) as [e|m]; [now rewrite append_nil_r|].
  destruct (map_index m "choices") as [| | | |l|]; simpl;
    try now rewrite append_nil_r.
  destruct l as [|c l]; [now rewrite append_nil_r|].
  apply fold_stream_choice.
Qed.

Lemma fold_stream_chunk (chunks : list string) (acc : string) :
  fold_left stream_chunk chunks acc
  = acc ++ concat_strings (map spec_frame_text chunks).
Proof.
  revert acc; induction chunks as [|c l IH]; intros acc; simpl.
  - now rewrite append_nil_r.
  - now rewrite IH, stream_chunk_app, append_assoc.
Qed.

(** The streaming extractor is the specification's rule applied to the
    chunks of the split input, in order. *)
Lemma extractContentFromStream_spec (content : string) :
  extractContentFromStream content
  = concat_strings (map spec_frame_text (strings.Split content "data: ")).
Proof.
  unfold extractContentFromStream, strings.Builder_String.
  now rewrite fold_stream_chunk.
Qed.

End ExtractProperties.

(** ** Package strings: [Index], [Count] and [Split] *)
Section StringsProperties.

Import strings.

Lemma length_drop_bytes (n : nat) (s : string) :
  String.length (drop_bytes n s) = (String.length s - n)%nat.
Proof.
  revert s; induction n as [|n IH]; intros [|c s]; simpl; auto; lia.
Qed.

Lemma take_drop_bytes (n : nat) (s : string) :
  take_bytes n s ++ drop_bytes n s = s.
Proof.
  revert s; induction n as [|n IH]; intros [|c s]; simpl; auto.
  now rewrite IH.
Qed.

Lemma drop_bytes_app (a b : string) :
  drop_bytes (String.length a) (a ++ b) = b.
Proof. induction a as [|c a IH]; simpl; auto. Qed.

Lemma take_bytes_app (a b : string) :
  take_bytes (String.length a) (a ++ b) = a.
Proof. induction a as [|c a IH]; simpl; auto. now rewrite IH. Qed.

Lemma drop_bytes_add (n m : nat) (s : string) :
  drop_bytes (n + m) s = drop_bytes m (drop_bytes n s).
Proof.
  revert s; induction n as [|n IH]; intros s; simpl; auto.
  destruct s as [|c s]; simpl; auto. now destruct m.
Qed.

Lemma HasPrefix_app (p t : string) : HasPrefix (p ++ t) p = true.
Proof.
  induction p as [|c p IH]; simpl; [now destruct t|].
  now rewrite Ascii.eqb_refl.
Qed.

Lemma HasPrefix_true (s p : string) :
  HasPrefix s p = true -> s = p ++ drop_bytes (String.length p) s.
Proof.
  revert s; induction p as [|c p IH]; intros s Hp; simpl.
  - reflexivity.
  - destruct s as [|d s]; simpl in Hp; [discriminate|].
    apply andb_true_iff in Hp as [Hc Hp]. apply Ascii.eqb_eq in Hc. subst d.
    simpl. now rewrite <- (IH s Hp).
Qed.

Lemma HasPrefix_length (s p : string) :
  HasPrefix s p = true -> (String.length p <= String.length s)%nat.
Proof.
  intros Hp. rewrite (HasPrefix_true s p Hp), length_append. lia.
Qed.

Lemma Index_cons (c : ascii) (s sep : string) :
  Index (String c s) sep
  = if HasPrefix (String c s) sep then Some 0%nat
    else option_map S (Index s sep).
Proof. reflexivity. Qed.

(** [Index] finds an instance, and the first one. *)
Lemma Index_Some (s sep : string) (i : nat) :
  Index s sep = Some i ->
  s = take_bytes i s ++ sep ++ drop_bytes (i + String.length sep) s
  /\ String.length (take_bytes i s) = i
  /\ (i + String.length sep <= String.length s)%nat.
Proof.
  revert i; induction s as [|c s IH]; intros i.
  - destruct sep; intros [= <-]. simpl. auto.
  - rewrite Index_cons. destruct (HasPrefix (String c s) sep) eqn:Hp.
    + intros [= <-]. simpl. split; [now apply HasPrefix_true|].
      split; [reflexivity|]. apply (HasPrefix_length _ _ Hp).
    + destruct (Index s sep) as [j|] eqn:Ej; [|intros [=]].
      intros [= <-]. destruct (IH j eq_refl) as (E1 & E2 & E3).
      simpl. rewrite E2. split; [now rewrite <- E1|]. split; [reflexivity|lia].
Qed.

Lemma Index_None_nil (sep : string) :
  sep <> EmptyString -> Index EmptyString sep = None.
Proof. destruct sep; [congruence | reflexivity]. Qed.

Lemma Index_take (s sep : string) (i : nat) :
  sep <> EmptyString -> Index s sep = Some i ->
  Index (take_bytes i s) sep = None.
Proof.
  intros Hne. revert i; induction s as [|c s IH]; intros i.
  - intros _. destruct i; now apply Index_None_nil.
  - rewrite Index_cons. destruct (HasPrefix (String c s) sep) eqn:Hp.
    + intros [= <-]. now apply Index_None_nil.
    + destruct (Index s sep) as [j|] eqn:Ej; [|intros [=]].
      intros [= <-]. cbn [take_bytes]. rewrite Index_cons, (IH j eq_refl).
      destruct (HasPrefix (String c (take_bytes j s)) sep) eqn:Hq; [|reflexivity].
      exfalso.
      (* a prefix of the shorter string is a prefix of the longer *)
      assert (HasPrefix (String c s) sep = true); [|congruence].
      rewrite <- (take_drop_bytes j s).
      change (String c (take_bytes j s ++ drop_bytes j s))
        with (String c (take_bytes j s) ++ drop_bytes j s).
      rewrite (HasPrefix_true _ _ Hq), append_assoc. apply HasPrefix_app.
Qed.

(** [Index] fails exactly on the strings that hold no instance. *)
Lemma Index_app_instance (a sep b : string) :
  Index (a ++ sep ++ b) sep <> None.
Proof.
  induction a as [|c a IH].
  - change (EmptyString ++ sep ++ b) with (sep ++ b).
    destruct (sep ++ b) as [|x t] eqn:E.
    + destruct sep; [discriminate | discriminate].
    + rewrite Index_cons, <- E, HasPrefix_app. discriminate.
  - change (String c a ++ sep ++ b) with (String c (a ++ sep ++ b)).
    rewrite Index_cons.
    destruct (HasPrefix _ sep); [discriminate|].
    destruct (Index (a ++ sep ++ b) sep); [discriminate | contradiction].
Qed.

Lemma Index_None_iff (s sep : string) :
  Index s sep = None <-> (forall a b, s <> a ++ sep ++ b).
Proof.
  split.
  - intros Hn a b ->. now apply (Index_app_instance a sep b).
  - intros Hno. destruct (Index s sep) as [i|] eqn:Ei; [|reflexivity].
    destruct (Index_Some _ _ _ Ei) as (Es & _). exfalso.
    exact (Hno _ _ Es).
Qed.

Lemma Count_loop_bound (f : nat) (s sep : string) (n : nat) :
  (Count_loop f s sep n <= n + f)%nat.
Proof.
  revert s n; induction f as [|f IH]; intros s n; simpl; [lia|].
  destruct (Index s sep); [|lia].
  specialize (IH (drop_bytes (n0 + String.length sep) s) (S n)). lia.
Qed.

Lemma Count_loop_acc (f : nat) (s sep : string) (n : nat) :
  Count_loop f s sep n = (n + Count_loop f s sep 0)%nat.
Proof.
  revert s n; induction f as [|f IH]; intros s n; simpl; [lia|].
  destruct (Index s sep) as [i|]; [|lia].
  rewrite (IH _ (S n)), (IH _ 1%nat). lia.
Qed.

Lemma Count_loop_fuel (sep : string) (f1 f2 : nat) (s : string) (n : nat) :
  sep <> EmptyString ->
  (String.length s <= f1)%nat -> (String.length s <= f2)%nat ->
  Count_loop f1 s sep n = Count_loop f2 s sep n.
Proof.
  intros Hne. revert f2 s n; induction f1 as [|f1 IH]; intros f2 s n H1 H2.
  - destruct s; [|simpl in H1; lia].
    destruct f2; cbn [Count_loop]; [reflexivity|]. now rewrite Index_None_nil.
  - destruct f2 as [|f2].
    + destruct s; [|simpl in H2; lia]. cbn [Count_loop]. now rewrite Index_None_nil.
    + cbn [Count_loop]. destruct (Index s sep) as [i|] eqn:Ei; [|reflexivity].
      destruct (Index_Some _ _ _ Ei) as (_ & _ & Hl).
      assert (0 < String.length sep)%nat
        by (destruct sep; [congruence | simpl; lia]).
      apply IH; rewrite length_drop_bytes; lia.
Qed.

Lemma Count_unfold (s sep : string) :
  sep <> EmptyString ->
  Count s sep = match Index s sep with
                | None => 0%nat
                | Some i => S (Count (drop_bytes (i + String.length sep) s) sep)
                end.
Proof.
  intros Hne. unfold Count. destruct sep as [|c sep]; [congruence|].
  destruct s as [|d s].
  - simpl. reflexivity.
  - cbn [String.length Count_loop].
    destruct (Index (String d s) (String c sep)) as [i|] eqn:Ei; [|reflexivity].
    rewrite Count_loop_acc. f_equal.
    destruct (Index_Some _ _ _ Ei) as (_ & _ & Hl).
    apply Count_loop_fuel; [assumption| |lia].
    rewrite length_drop_bytes. simpl in *. lia.
Qed.

Lemma Split_genSplit (s sep : string) :
  sep <> EmptyString -> Split s sep = genSplit_loop (Count s sep) s sep.
Proof.
  intros Hne. unfold Split. destruct sep as [|c sep]; [congruence|].
  f_equal.
  assert (Count s (String c sep) <= String.length s)%nat.
  { unfold Count. apply (Count_loop_bound _ _ _ 0). }
  lia.
Qed.

(** [Split] cuts at the first instance of the separator and goes on
    behind it. *)
Lemma Split_unfold (s sep : string) :
  sep <> EmptyString ->
  Split s sep = match Index s sep with
                | None => [s]
                | Some i =>
                  take_bytes i s
                    :: Split (drop_bytes (i + String.length sep) s) sep
                end.
Proof.
  intros Hne. rewrite Split_genSplit, Count_unfold by assumption.
  destruct (Index s sep) as [i|] eqn:Ei; simpl; [|reflexivity].
  rewrite Ei. now rewrite Split_genSplit.
Qed.

End StringsProperties.

(** ** The frames of a stream *)
Section Frames.
Import strings.

(** The marker has no border: an instance of it that starts inside a
    piece [p] put in front of a marker lies inside [p]. *)
Lemma marker_no_straddle (p t : string) :
  p <> EmptyString ->
  HasPrefix (p ++ "data: " ++ t) "data: " = true ->
  HasPrefix p "data: " = true.
Proof.
  intros Hne.
  destruct p as [|c0 [|c1 [|c2 [|c3 [|c4 [|c5 p]]]]]]; [congruence|..];
    simpl;
    repeat match goal with
    | |- context [(?c =? ?d)%char] => is_var c; destruct (c =? d)%char; simpl
    end; auto.
  intros _. destruct p; reflexivity.
Qed.

Lemma Index_before_marker (p t : string) :
  Index p "data: " = None ->
  Index (p ++ "data: " ++ t) "data: " = Some (String.length p).
Proof.
  induction p as [|c p IH]; intros Hn.
  - change (EmptyString ++ "data: " ++ t) with ("data: " ++ t).
    destruct t; reflexivity.
  - rewrite Index_cons in Hn.
    destruct (HasPrefix (String c p) "data: ") eqn:Hp; [discriminate|].
    destruct (Index p "data: ") eqn:Hi; [discriminate|].
    change (String c p ++ "data: " ++ t) with (String c (p ++ "data: " ++ t)).
    rewrite Index_cons.
    destruct (HasPrefix (String c (p ++ "data: " ++ t)) "data: ") eqn:Hq.
    + exfalso. apply (marker_no_straddle (String c p) t) in Hq; congruence.
    + rewrite IH by reflexivity. reflexivity.
Qed.

Lemma concat_strings_cons (x : string) (l : list string) :
  concat_strings (x :: l) = x ++ concat_strings l.
Proof. reflexivity. Qed.

Lemma Split_frames (ps : list string) (p0 : string) :
  Index p0 "data: " = None ->
  Forall (fun p => Index p "data: " = None) ps ->
  Split (p0 ++ concat_strings (map (String.append "data: ") ps)) "data: "
  = p0 :: ps.
Proof.
  revert p0; induction ps as [|p1 ps IH]; intros p0 H0 Hps.
  - change (concat_strings (map (String.append "data: ") [])) with EmptyString.
    rewrite append_nil_r, Split_unfold by discriminate.
    now rewrite H0.
  - inversion Hps as [|? ? H1 Hps']; subst.
    cbn [map]. rewrite concat_strings_cons.
    rewrite (append_assoc "data: " p1).
    rewrite Split_unfold by discriminate.
    rewrite Index_before_marker by assumption.
    rewrite take_bytes_app.
    rewrite <- (append_assoc p0 "data: "), <- length_append, drop_bytes_app.
    now rewrite IH.
Qed.

(** Every input is its pieces joined by the marker, and no piece keeps
    a marker. *)
Lemma Split_pieces_fuel (n : nat) (s : string) :
  (String.length s <= n)%nat ->
  exists p0 ps,
    Split s "data: " = p0 :: ps
    /\ s = p0 ++ concat_strings (map (String.append "data: ") ps)
    /\ Forall (fun p => Index p "data: " = None) (p0 :: ps).
Proof.
  revert s; induction n as [|n IH]; intros s Hl;
    rewrite Split_unfold by discriminate;
    destruct (Index s "data: ") as [i|] eqn:Ei.
  - destruct (Index_Some _ _ _ Ei) as (_ & _ & Hb). simpl in Hb. lia.
  - exists s, [].
    change (concat_strings (map (String.append "data: ") [])) with EmptyString.
    rewrite append_nil_r. repeat split. auto.
  - destruct (Index_Some _ _ _ Ei) as (Es & _ & Hb).
    destruct (IH (drop_bytes (i + String.length "data: ") s))
      as (q0 & qs & E1 & E2 & E3).
    { rewrite length_drop_bytes. simpl in *. lia. }
    exists (take_bytes i s), (q0 :: qs). rewrite E1. split; [reflexivity|].
    split.
    + cbn [map]. rewrite concat_strings_cons.
      rewrite (append_assoc "data: " q0), <- E2. exact Es.
    + constructor; [|assumption]. apply Index_take; [discriminate|assumption].
  - exists s, [].
    change (concat_strings (map (String.append "data: ") [])) with EmptyString.
    rewrite append_nil_r. repeat split. auto.
Qed.

End Frames.

(** ** Bodies with plain text *)
Section RoundTrip.
Import json.

Lemma plain_byte_facts (c : ascii) :
  plain_byte c = true ->
  (c =? DQ)%char = false /\ (c =? "\")%char = false
  /\ (byte_of c <? 32)%N = false /\ (byte_of c <? utf8.RuneSelf)%N = true.
Proof.
  unfold plain_byte. rewrite !andb_true_iff, !negb_true_iff.
  intros (((H1 & H2) & H3) & H4). repeat split; auto.
  apply N.ltb_ge. now apply N.leb_le.
Qed.

Lemma scan_string_plain (c rest : string) :
  plain c = true -> scan_string (c ++ String DQ rest) = Some (c, rest).
Proof.
  induction c as [|x c IH]; intros Hp.
  - reflexivity.
  - simpl in Hp. apply andb_true_iff in Hp as [Hx Hc].
    destruct (plain_byte_facts x Hx) as (H1 & H2 & H3 & _).
    change (String x c ++ String DQ rest) with (String x (c ++ String DQ rest)).
    cbn [scan_string]. rewrite H1, H2, H3, (IH Hc). reflexivity.
Qed.

Lemma unquote_plain (c : string) : plain c = true -> unquote 0 c = c.
Proof.
  induction c as [|x c IH]; intros Hp; [reflexivity|].
  simpl in Hp. apply andb_true_iff in Hp as [Hx Hc].
  destruct (plain_byte_facts x Hx) as (_ & H2 & _ & H4).
  cbn [unquote]. rewrite H2, H4, (IH Hc). reflexivity.
Qed.

Lemma skip_ws_cons (c : ascii) (r : string) :
  isSpace c = false -> skip_ws (String c r) = String c r.
Proof. intros Hc. simpl. now rewrite Hc. Qed.

(** How the parser reads a string, an object with one member and an
    array with one element. *)
Lemma parse_value_string (f : nat) (d : N) (c rest : string) :
  plain c = true ->
  parse_value (S f) d (String DQ (c ++ String DQ rest)) = POk (VString c, rest).
Proof.
  intros Hp. cbn [parse_value].
  change (DQ =? "{")%char with false. change (DQ =? "[")%char with false.
  change (DQ =? DQ)%char with true. cbv iota.
  now rewrite scan_string_plain, unquote_plain.
Qed.

Lemma parse_elements_single (f : nat) (d : N) (vs : string) (v : value)
    (rest : string) :
  parse_value f d vs = POk (v, String "]" rest) ->
  parse_elements (S f) d vs = POk ([v], rest).
Proof. intros Hv. cbn [parse_elements]. rewrite Hv. reflexivity. Qed.

Lemma parse_value_array (f : nat) (d : N) (c : ascii) (vs : string)
    (l : list value) (rest : string) :
  (d < maxNestingDepth)%N -> isSpace c = false -> (c =? "]")%char = false ->
  parse_elements f (d + 1) (String c vs) = POk (l, rest) ->
  parse_value (S f) d (String "[" (String c vs)) = POk (VSlice l, rest).
Proof.
  intros Hd Hs Hc He. cbn [parse_value].
  change ("[" =? "{")%char with false. change ("[" =? "[")%char with true.
  cbv iota. apply N.leb_gt in Hd. rewrite Hd, (skip_ws_cons c vs Hs), Hc, He.
  reflexivity.
Qed.

Lemma parse_members_single (f : nat) (d : N) (key : string) (c : ascii)
    (vs : string) (v : value) (rest : string) :
  plain key = true -> isSpace c = false ->
  parse_value f d (String c vs) = POk (v, String "}" rest) ->
  parse_members (S f) d
    (String DQ (key ++ String DQ (String ":" (String c vs))))
  = POk ([(key, v)], rest).
Proof.
  intros Hk Hs Hv. cbn [parse_members].
  change (DQ =? DQ)%char with true. cbv iota.
  rewrite scan_string_plain by assumption.
  rewrite (skip_ws_cons ":" _ eq_refl).
  change (":" =? ":")%char with true. cbv iota.
  rewrite (skip_ws_cons c vs Hs), Hv. cbn [pbind].
  rewrite (skip_ws_cons "}" _ eq_refl).
  change ("}" =? ",")%char with false. change ("}" =? "}")%char with true.
  cbv iota. now rewrite unquote_plain.
Qed.

Lemma parse_value_object (f : nat) (d : N) (ms : string) (m : gomap)
    (rest : string) :
  (d < maxNestingDepth)%N ->
  parse_members f (d + 1) (String DQ ms) = POk (m, rest) ->
  parse_value (S f) d (String "{" (String DQ ms)) = POk (VMap m, rest).
Proof.
  intros Hd Hm. cbn [parse_value].
  change ("{" =? "{")%char with true. cbv iota.
  apply N.leb_gt in Hd. rewrite Hd, (skip_ws_cons DQ ms eq_refl).
  change (DQ =? "}")%char with false. cbv iota. rewrite Hm. reflexivity.
Qed.

Lemma parse_one_choice (kind content : string) (k : nat) :
  plain kind = true -> plain content = true ->
  parse_value (9 + k) 0 (one_choice kind content)
  = POk (VMap [("choices",
           VSlice [VMap [(kind, VMap [("content", VString content)])]])],
         EmptyString).
Proof.
  intros Hk Hp. unfold one_choice.
  apply parse_value_object; [reflexivity|].
  apply (parse_members_single _ _ "choices" "["); [reflexivity..|].
  apply parse_value_array; [reflexivity..|].
  apply parse_elements_single.
  apply parse_value_object; [reflexivity|].
  apply (parse_members_single _ _ kind "{"); [exact Hk | reflexivity|].
  apply parse_value_object; [reflexivity|].
  apply (parse_members_single _ _ "content" DQ); [reflexivity..|].
  apply parse_value_string. exact Hp.
Qed.


Lemma Unmarshal_one_choice (kind content : string) :
  plain kind = true -> plain content = true ->
  Unmarshal (one_choice kind content)
  = inr [("choices",
          VSlice [VMap [(kind, VMap [("content", VString content)])]])].
Proof.
  intros Hk Hp. unfold Unmarshal, parse.
  assert (exists k, parse_fuel (one_choice kind content) = (9 + k)%nat)
    as [k ->].
  { exists (parse_fuel (one_choice kind content) - 9)%nat.
    unfold parse_fuel, one_choice. rewrite !length_append. simpl. lia. }
  change (skip_ws (one_choice kind content)) with (one_choice kind content).
  rewrite parse_one_choice by assumption. reflexivity.
Qed.

(** [reverse_string] and the trimming of a frame. *)
Lemma rev_bytes_app (x y acc : string) :
  rev_bytes (x ++ y) acc = rev_bytes y (rev_bytes x acc).
Proof. revert acc; induction x as [|c x IH]; intros acc; simpl; auto. Qed.

Lemma rev_bytes_rev_bytes (m acc acc' : string) :
  rev_bytes (rev_bytes m acc) acc' = rev_bytes acc (m ++ acc').
Proof.
  revert acc acc'; induction m as [|c m IH]; intros acc acc'; simpl; auto.
Qed.

Lemma TrimSpace_frame (a z : ascii) (m : string) :
  (byte_of a <? utf8.RuneSelf)%N = true -> strings.asciiSpace (byte_of a) = false ->
  (byte_of z <? utf8.RuneSelf)%N = true -> strings.asciiSpace (byte_of z) = false ->
  strings.TrimSpace
    (String a (m ++ String z (String LF (String LF EmptyString))))
  = String a (m ++ String z EmptyString).
Proof.
  intros Ha1 Ha2 Hz1 Hz2. unfold strings.TrimSpace.
  assert (forall c, (byte_of c <? utf8.RuneSelf)%N = true ->
                    (utf8.RuneSelf <=? byte_of c)%N = false) as Hlt.
  { intros c Hc. apply N.leb_gt. now apply N.ltb_lt. }
  cbn [strings.skip_asciiSpace]. rewrite (Hlt a Ha1), Ha2.
  assert (reverse_string
            (String a (m ++ String z (String LF (String LF EmptyString))))
          = String LF (String LF (String z (rev_bytes m (String a EmptyString)))))
    as -> by (unfold reverse_string; cbn [rev_bytes];
              now rewrite rev_bytes_app).
  cbn [strings.skip_asciiSpace].
  change (utf8.RuneSelf <=? byte_of LF)%N with false.
  change (strings.asciiSpace (byte_of LF)) with true. cbv iota.
  rewrite (Hlt z Hz1), Hz2.
  unfold reverse_string. cbn [rev_bytes].
  now rewrite rev_bytes_rev_bytes.
Qed.

Lemma one_choice_shape (kind content : string) :
  one_choice kind content
  = String "{"
      ((sq "'choices':[{'" ++ kind ++ sq "':{'content':'" ++ content
        ++ sq "'}}]")
       ++ String "}" EmptyString).
Proof.
  unfold one_choice. cbn [sq String.append].
  repeat (rewrite ?append_assoc; cbn [String.append]). reflexivity.
Qed.

Lemma TrimSpace_one_choice (kind content : string) :
  strings.TrimSpace (one_choice kind content ++ String LF (String LF EmptyString))
  = one_choice kind content.
Proof.
  rewrite one_choice_shape.
  change (String "{" ?m ++ ?t) with (String "{" (m ++ t)).
  rewrite append_assoc. cbn [String.append].
  now rewrite TrimSpace_frame.
Qed.


(** The marker holds no quote: an instance of the marker in a string
    with a quote in it lies before the quote or behind it. *)
Lemma HasPrefix_marker_quote (p q : string) :
  strings.HasPrefix (p ++ String DQ q) "data: " = strings.HasPrefix p "data: ".
Proof.
  destruct p as [|c0 [|c1 [|c2 [|c3 [|c4 [|c5 p]]]]]]; simpl;
    repeat match goal with
    | |- context [(?c =? ?d)%char] => is_var c; destruct (c =? d)%char; simpl
    end; try reflexivity.
  destruct p; reflexivity.
Qed.

Lemma Index_marker_quote (p q : string) :
  strings.Index p "data: " = None -> strings.Index q "data: " = None ->
  strings.Index (p ++ String DQ q) "data: " = None.
Proof.
  intros Hp Hq. induction p as [|c p IH].
  - change (EmptyString ++ String DQ q) with (String DQ q).
    rewrite Index_cons. change (strings.HasPrefix (String DQ q) "data: ") with false.
    cbv iota. now rewrite Hq.
  - rewrite Index_cons in Hp.
    destruct (strings.HasPrefix (String c p) "data: ") eqn:Hh; [discriminate|].
    destruct (strings.Index p "data: ") eqn:Hi; [discriminate|].
    change (String c p ++ String DQ q) with (String c (p ++ String DQ q)).
    rewrite Index_cons.
    change (String c (p ++ String DQ q)) with (String c p ++ String DQ q).
    rewrite HasPrefix_marker_quote, Hh, IH by reflexivity. reflexivity.
Qed.

Lemma Index_frame (fragment : string) :
  strings.Index fragment "data: " = None ->
  strings.Index
    (one_choice "delta" fragment ++ String LF (String LF EmptyString)) "data: "
  = None.
Proof.
  intros Hf.
  assert (one_choice "delta" fragment ++ String LF (String LF EmptyString)
          = sq "{'choices':[{'delta':{'content':"
            ++ String DQ (fragment
                          ++ String DQ ("}}]}" ++ String LF (String LF EmptyString))))
    as ->.
  { unfold one_choice. cbn [sq String.append].
    repeat (rewrite ?append_assoc; cbn [String.append]). reflexivity. }
  apply Index_marker_quote; [vm_compute; reflexivity|].
  apply Index_marker_quote; [exact Hf | vm_compute; reflexivity].
Qed.

(** The text of a response and of a frame with plain content. *)
Lemma extract_one_message (content : string) :
  plain content = true ->
  extract.extractContentFromResponse (one_choice "message" content) = content.
Proof.
  intros Hp. unfold extract.extractContentFromResponse.
  rewrite Unmarshal_one_choice by auto. reflexivity.
Qed.

Lemma frame_text_one_delta (fragment : string) :
  plain fragment = true ->
  extract.spec_frame_text
    (one_choice "delta" fragment ++ String LF (String LF EmptyString))
  = fragment.
Proof.
  intros Hp. unfold extract.spec_frame_text.
  rewrite TrimSpace_one_choice.
  assert (String.eqb (one_choice "delta" fragment) ""
          || String.eqb (one_choice "delta" fragment) "[DONE]" = false) as ->
    by reflexivity.
  rewrite Unmarshal_one_choice by auto.
  cbn. apply append_nil_r.
Qed.


Lemma frames_as_pieces (fragments : list string) :
  concat_strings (map (fun c => frame (one_choice "delta" c)) fragments)
  ++ frame "[DONE]"
  = EmptyString
    ++ concat_strings
         (map (String.append "data: ")
            (map frame_body fragments
             ++ ["[DONE]" ++ String LF (String LF EmptyString)])).
Proof.
  change (EmptyString ++ ?x) with x.
  rewrite map_app, concat_strings_app. f_equal.
  induction fragments as [|c l IH]; [reflexivity|].
  cbn [map]. rewrite !concat_strings_cons, IH. reflexivity.
Qed.

Lemma frame_texts (fragments : list string) :
  Forall (fun c => plain c = true) fragments ->
  concat_strings (map extract.spec_frame_text (map frame_body fragments))
  = concat_strings fragments.
Proof.
  induction 1 as [|c l Hc Hl IH]; [reflexivity|].
  cbn [map]. rewrite !concat_strings_cons, IH.
  unfold frame_body at 1. now rewrite frame_text_one_delta.
Qed.

Lemma stream_round_trip_lemma (fragments : list string) :
  Forall (fun c => plain c = true /\ strings.Index c "data: " = None)
         fragments ->
  extract.extractContentFromStream
    (concat_strings (map (fun c => frame (one_choice "delta" c)) fragments)
     ++ frame "[DONE]")
  = concat_strings fragments.
Proof.
  intros Hf.
  rewrite frames_as_pieces, extractContentFromStream_spec, Split_frames.
  - cbn [map]. rewrite concat_strings_cons, map_app, concat_strings_app.
    rewrite frame_texts.
    + change (extract.spec_frame_text EmptyString) with EmptyString.
      assert (concat_strings
                (map extract.spec_frame_text
                   ["[DONE]" ++ String LF (String LF EmptyString)])
              = EmptyString) as -> by (vm_compute; reflexivity).
      cbn [String.append]. apply append_nil_r.
    + clear -Hf. induction Hf as [|c l [Hc _] Hl IH]; constructor; auto.
  - reflexivity.
  - apply Forall_app. split.
    + clear -Hf. induction Hf as [|c l [_ Hi] Hl IH]; cbn [map];
        constructor; auto. now apply Index_frame.
    + repeat constructor.
Qed.

End RoundTrip.

(** C4.  The streaming extractor.  The three frames of the example
    give [Hello].  In general the result is the concatenation, in the
    order of arrival, of what the specification's rule gives for each
    chunk of the split input; for an input made of a leading piece and
    frames that contain no marker of their own these chunks are the
    leading piece and the frames.  A chunk that is empty, the
    terminator or not parsable leaves what was collected as it is and
    the loop goes on with the next chunk (an unparsable frame between
    the two of the example changes nothing); a choice without the
    expected fields adds nothing.  And for every list of fragments of
    plain text that hold no marker, the stream of their frames followed
    by the terminator gives the fragments joined in order. *)
Theorem stream_extraction :
  extract.extractContentFromStream stream_example = "Hello"
  /\ extract.extractContentFromStream
       (frame (sq "{'choices':[{'delta':{'content':'Hel'}}]}")
        ++ frame (sq "{'choices':[{'delta':")
        ++ frame (sq "{'choices':[{'delta':{}},{'index':1}]}")
        ++ frame (sq "{'choices':[{'delta':{'content':'lo'}}]}")
        ++ frame "[DONE]") = "Hello"
  /\ (forall content,
         extract.extractContentFromStream content
         = concat_strings
             (map extract.spec_frame_text (strings.Split content "data: ")))
  /\ (forall (p0 : string) (ps : list string),
         strings.Index p0 "data: " = None ->
         Forall (fun p => strings.Index p "data: " = None) ps ->
         extract.extractContentFromStream
           (p0 ++ concat_strings (map (String.append "data: ") ps))
         = concat_strings (map extract.spec_frame_text (p0 :: ps)))
  /\ (forall acc chunk,
         (strings.TrimSpace chunk = EmptyString
          \/ strings.TrimSpace chunk = "[DONE]"
          \/ exists e, json.Unmarshal (strings.TrimSpace chunk) = inl e) ->
         extract.stream_chunk acc chunk = acc)
  /\ (forall acc choice,
         (json.as_map choice = None
          \/ (exists m, choice = json.VMap m
                        /\ json.as_map (json.map_index m "delta") = None)
          \/ (exists m d, choice = json.VMap m
                          /\ json.map_index m "delta" = json.VMap d
                          /\ json.as_string (json.map_index d "content") = None)) ->
         extract.stream_choice acc choice = acc)
  /\ (forall fragments : list string,
         Forall (fun c => plain c = true /\ strings.Index c "data: " = None)
                fragments ->
         extract.extractContentFromStream
           (concat_strings
              (map (fun c => frame (one_choice "delta" c)) fragments)
            ++ frame "[DONE]")
         = concat_strings fragments).
Proof.
  split; [vm_compute; reflexivity|].
  split; [vm_compute; reflexivity|].
  split; [apply extractContentFromStream_spec|].
  split; [|split; [|split; [|apply stream_round_trip_lemma]]].
  - intros p0 ps H0 Hps.
    now rewrite extractContentFromStream_spec, Split_frames.
  - intros acc chunk Hc. unfold extract.stream_chunk.
    destruct Hc as [-> | [-> | [e ->]]]; try reflexivity.
    destruct (_ || _); reflexivity.
  - intros acc choice Hc. unfold extract.stream_choice.
    destruct Hc as [-> | [(m & -> & Hd) | (m & d & -> & Hd & Hs)]];
      [reflexivity | simpl; now rewrite Hd
      | simpl; rewrite Hd; simpl; now rewrite Hs].
Qed.

(** C4 on the frames of three fragments. *)
Lemma stream_extraction_witness :
  extract.extractContentFromStream
    (concat_strings
       (map (fun c => frame (one_choice "delta" c)) ["Hel"; "lo, "; "world"])
     ++ frame "[DONE]")
  = concat_strings ["Hel"; "lo, "; "world"].
Proof.
  apply (proj2 (proj2 (proj2 (proj2 (proj2 (proj2 stream_extraction)))))).
  repeat constructor.
Defined.

(** C5.  The non-streaming extractor.  The example response gives
    [ok]; an empty list of choices gives the placeholder [No content
    found in response]; and whenever the decoded body has a list of
    choices whose first element is an object with an object [message]
    with a string [content], the result is that string; in particular
    the body with one choice and a message of plain text gives that
    text. *)
Theorem response_extraction :
  extract.extractContentFromResponse response_example = "ok"
  /\ extract.extractContentFromResponse (sq "{'choices':[]}")
     = "No content found in response"
  /\ (forall responseBody jsonData choice rest message content,
         json.Unmarshal responseBody = inr jsonData ->
         json.map_index jsonData "choices"
         = json.VSlice (json.VMap choice :: rest) ->
         json.map_index choice "message" = json.VMap message ->
         json.map_index message "content" = json.VString content ->
         extract.extractContentFromResponse responseBody = content)
  /\ (forall content,
         plain content = true ->
         extract.extractContentFromResponse (one_choice "message" content)
         = content).
Proof.
  split; [vm_compute; reflexivity|].
  split; [vm_compute; reflexivity|].
  split; [|apply extract_one_message].
  intros responseBody jsonData choice rest message content Hu Hc Hm Hs.
  unfold extract.extractContentFromResponse.
  rewrite Hu, Hc. simpl. rewrite Hm. simpl. rewrite Hs. reflexivity.
Qed.

(** C5 on a response with two choices and other fields. *)
Lemma response_extraction_witness :
  extract.extractContentFromResponse
    (sq "{'id':'c1','choices':[{'index':0,'message':{'role':'assistant','content':'first'}},{'message':{'content':'second'}}],'usage':{'total_tokens':7}}")
  = "first".
Proof.
  eapply (proj1 (proj2 (proj2 response_extraction))); vm_compute; reflexivity.
Defined.

(** ** The JSON decoder and the grammar *)
Section JsonSoundness.

Import json grammar.

Lemma in_range_spec (lo hi b : N) :
  utf8.in_range lo hi b = true <-> (lo <= b <= hi)%N.
Proof.
  unfold utf8.in_range. rewrite andb_true_iff, !N.leb_le. tauto.
Qed.

Lemma isSpace_whitespace (c : ascii) : isSpace c = true -> whitespace c.
Proof.
  unfold isSpace, whitespace. rewrite !orb_true_iff, !Ascii.eqb_eq. tauto.
Qed.

Lemma is_digit_digit (c : ascii) : is_digit c = true -> digit c.
Proof. unfold is_digit, digit. apply in_range_spec. Qed.

Lemma is_hex_hexdigit (c : ascii) : is_hex c = true -> hexdigit c.
Proof.
  unfold is_hex, hexdigit, is_digit, digit.
  rewrite !orb_true_iff, !in_range_spec. tauto.
Qed.

Lemma is_simple_escape_escapable (c : ascii) :
  is_simple_escape c = true -> escapable c.
Proof.
  unfold is_simple_escape, escapable.
  rewrite !orb_true_iff, !Ascii.eqb_eq. tauto.
Qed.

Lemma skip_ws_ws (s : string) : ws s (skip_ws s).
Proof.
  induction s as [|c s IH]; simpl; [constructor|].
  destruct (isSpace c) eqn:E; [|constructor].
  apply ws_skip; [now apply isSpace_whitespace | exact IH].
Qed.

Lemma skip_ws_length (s : string) :
  (String.length (skip_ws s) <= String.length s)%nat.
Proof.
  induction s as [|c s IH]; simpl; [lia|].
  destruct (isSpace c); simpl; lia.
Qed.

(** The scanner of string literals. *)
Lemma scan_string_chars_fuel (n : nat) (s raw rest : string) :
  (String.length s <= n)%nat ->
  scan_string s = Some (raw, rest) ->
  chars s (String DQ rest) /\ (String.length rest < String.length s)%nat.
Proof.
  revert s raw rest; induction n as [|n IH]; intros s raw rest Hl;
    destruct s as [|c r]; simpl in Hl; try lia; try discriminate.
  cbn [scan_string].
  destruct (Ascii.eqb_spec c DQ) as [->|Hq].
  { intros [= <- <-]. split; [constructor | simpl; lia]. }
  destruct (Ascii.eqb_spec c "\") as [->|Hb].
  - destruct r as [|e r1]; [discriminate|].
    destruct (is_simple_escape e) eqn:He.
    + destruct (scan_string r1) as [[raw' rest']|] eqn:Es; [|discriminate].
      intros [= <- <-].
      destruct (IH r1 raw' rest' ltac:(simpl in Hl; lia) Es) as [Hc Hlen].
      split; [|simpl; lia].
      apply chars_escape; [now apply is_simple_escape_escapable | exact Hc].
    + destruct (Ascii.eqb_spec e "u") as [->|Hu]; [|discriminate].
      destruct r1 as [|h1 [|h2 [|h3 [|h4 r5]]]]; try discriminate.
      destruct (is_hex h1 && is_hex h2 && is_hex h3 && is_hex h4) eqn:Hh;
        [|discriminate].
      apply andb_true_iff in Hh as [Hh H4].
      apply andb_true_iff in Hh as [Hh H3].
      apply andb_true_iff in Hh as [H1 H2].
      destruct (scan_string r5) as [[raw' rest']|] eqn:Es; [|discriminate].
      intros [= <- <-].
      destruct (IH r5 raw' rest' ltac:(simpl in Hl; lia) Es) as [Hc Hlen].
      split; [|simpl; lia].
      apply chars_unicode; auto using is_hex_hexdigit.
  - destruct (byte_of c <? 32)%N eqn:Hlt; [discriminate|].
    destruct (scan_string r) as [[raw' rest']|] eqn:Es; [|discriminate].
    intros [= <- <-].
    destruct (IH r raw' rest' ltac:(lia) Es) as [Hc Hlen].
    split; [|simpl; lia].
    apply chars_unescaped; auto. apply N.ltb_ge in Hlt. exact Hlt.
Qed.

Lemma scan_string_chars (s raw rest : string) :
  scan_string s = Some (raw, rest) ->
  chars s (String DQ rest) /\ (String.length rest < String.length s)%nat.
Proof. apply (scan_string_chars_fuel (String.length s)). lia. Qed.

(** The scanner of number literals. *)
Lemma scan_digits_digits (s ds rest : string) :
  scan_digits s = (ds, rest) ->
  digits s rest /\ (String.length rest <= String.length s)%nat
  /\ (ds <> EmptyString -> digits1 s rest).
Proof.
  revert ds rest; induction s as [|c s IH]; intros ds rest; simpl.
  - intros [= <- <-]. (split; [constructor | split; [simpl; lia | congruence]]).
  - destruct (is_digit c) eqn:Hd.
    + destruct (scan_digits s) as [ds' rest'] eqn:Es. intros [= <- <-].
      destruct (IH ds' rest' eq_refl) as (Hg & Hl & _).
      apply is_digit_digit in Hd.
      (split; [now constructor | split; [simpl; lia | intros _; now constructor]]).
    + intros [= <- <-]. (split; [constructor | split; [simpl; lia | congruence]]).
Qed.

Lemma scan_int_int (s ip rest : string) :
  scan_int s = Some (ip, rest) ->
  int s rest /\ (String.length rest < String.length s)%nat.
Proof.
  unfold scan_int. destruct s as [|c r]; [discriminate|].
  destruct (Ascii.eqb_spec c "0") as [->|H0].
  - intros [= <- <-]. split; [constructor | simpl; lia].
  - destruct (is_digit c) eqn:Hd; [|discriminate].
    destruct (scan_digits r) as [ds rest'] eqn:Es. intros [= <- <-].
    destruct (scan_digits_digits _ _ _ Es) as (Hg & Hl & _).
    split; [|simpl; lia].
    apply int_digits; [|exact Hg].
    apply is_digit_digit in Hd. unfold digit in Hd. unfold digit1_9.
    assert (byte_of c <> 48%N).
    { intros E. apply H0. unfold byte_of in E.
      rewrite <- (ascii_N_embedding c), E. reflexivity. }
    lia.
Qed.

Lemma scan_frac_frac (s fp rest : string) :
  scan_frac s = Some (fp, rest) ->
  frac s rest /\ (String.length rest <= String.length s)%nat.
Proof.
  unfold scan_frac. destruct s as [|c r].
  - intros [= <- <-]. split; [constructor | simpl; lia].
  - destruct (Ascii.eqb_spec c ".") as [->|Hc].
    + destruct (scan_digits r) as [ds rest'] eqn:Es.
      destruct (scan_digits_digits _ _ _ Es) as (Hg & Hl & H1).
      destruct ds as [|d ds]; [discriminate|]. intros [= <- <-].
      split; [|simpl; lia]. apply frac_some. now apply H1.
    + intros [= <- <-]. split; [constructor | simpl; lia].
Qed.

Lemma scan_exp_exp (s ep rest : string) :
  scan_exp s = Some (ep, rest) ->
  exp s rest /\ (String.length rest <= String.length s)%nat.
Proof.
  unfold scan_exp. destruct s as [|c r].
  - intros [= <- <-]. split; [constructor | simpl; lia].
  - destruct ((c =? "e")%char || (c =? "E")%char) eqn:He.
    + apply orb_true_iff in He. rewrite !Ascii.eqb_eq in He.
      assert (exists sg r1,
                 (match r with
                  | String g r' =>
                    if (g =? "+")%char || (g =? "-")%char
                    then (String g EmptyString, r') else (EmptyString, r)
                  | EmptyString => (EmptyString, r)
                  end) = (sg, r1)
                 /\ sign r r1
                 /\ (String.length r1 <= String.length r)%nat)
        as (sg & r1 & -> & Hs & Hl1).
      { destruct r as [|g r'].
        - eexists _, _. split; [reflexivity|]. split; [constructor | simpl; lia].
        - destruct (Ascii.eqb_spec g "+") as [->|Hp]; simpl.
          + eexists _, _. split; [reflexivity|].
            split; [constructor | simpl; lia].
          + destruct (Ascii.eqb_spec g "-") as [->|Hm]; simpl.
            * eexists _, _. split; [reflexivity|].
              split; [constructor | simpl; lia].
            * eexists _, _. split; [reflexivity|].
              split; [constructor | simpl; lia]. }
      destruct (scan_digits r1) as [ds rest'] eqn:Es.
      destruct (scan_digits_digits _ _ _ Es) as (Hg & Hl & H1).
      destruct ds as [|d ds]; [discriminate|]. intros [= <- <-].
      split; [|simpl; lia].
      eapply exp_some; [exact He | exact Hs | now apply H1].
    + intros [= <- <-]. split; [constructor | simpl; lia].
Qed.

Lemma scan_number_number (s lit rest : string) :
  scan_number s = Some (lit, rest) ->
  number s rest /\ (String.length rest < String.length s)%nat.
Proof.
  unfold scan_number.
  assert (exists sg s0,
             (match s with
              | String c r =>
                if (c =? "-")%char then (String c EmptyString, r)
                else (EmptyString, s)
              | EmptyString => (EmptyString, s)
              end) = (sg, s0)
             /\ minus s s0 /\ (String.length s0 <= String.length s)%nat)
    as (sg & s0 & -> & Hm & Hl0).
  { destruct s as [|c r].
    - eexists _, _. split; [reflexivity|]. split; [constructor | simpl; lia].
    - destruct (Ascii.eqb_spec c "-") as [->|Hc].
      + eexists _, _. split; [reflexivity|]. split; [constructor | simpl; lia].
      + eexists _, _. split; [reflexivity|]. split; [constructor | simpl; lia]. }
  destruct (scan_int s0) as [[ip s1]|] eqn:Ei; [|discriminate].
  destruct (scan_frac s1) as [[fp s2]|] eqn:Ef; [|discriminate].
  destruct (scan_exp s2) as [[ep s3]|] eqn:Ee; [|discriminate].
  intros [= <- <-].
  destruct (scan_int_int _ _ _ Ei) as [Hi Hl1].
  destruct (scan_frac_frac _ _ _ Ef) as [Hf Hl2].
  destruct (scan_exp_exp _ _ _ Ee) as [He Hl3].
  split; [|lia]. econstructor; eassumption.
Qed.


Lemma literal_tail (r lit : string) :
  strings.HasPrefix r lit = true ->
  r = lit ++ drop_bytes (String.length lit) r
  /\ (String.length (drop_bytes (String.length lit) r) <= String.length r)%nat.
Proof.
  intros Hp. split; [now apply HasPrefix_true|].
  rewrite length_drop_bytes. lia.
Qed.

(** The parser accepts only phrases of the grammar, and what it leaves
    is shorter than what it was given. *)
Lemma parse_sound_fuel (f : nat) :
  (forall d s v r,
      parse_value f d s = POk (v, r) ->
      value s r /\ (String.length r < String.length s)%nat)
  /\ (forall d s l r,
         parse_elements f d s = POk (l, r) ->
         (forall s0, ws s0 s -> elements s0 r)
         /\ (String.length r < String.length s)%nat)
  /\ (forall d s m r,
         parse_members f d s = POk (m, r) ->
         (forall s0, ws s0 s -> members s0 r)
         /\ (String.length r < String.length s)%nat).
Proof.
  induction f as [|f (IHv & IHe & IHm)];
    [repeat split; intros; discriminate|].
  split; [|split].
  - (* values *)
    intros d s v r. cbn [parse_value].
    destruct s as [|c t]; [discriminate|].
    destruct (Ascii.eqb_spec c "{") as [->|Hc1].
    { destruct (maxNestingDepth <=? d)%N; [discriminate|].
      pose proof (skip_ws_ws t) as Hw. pose proof (skip_ws_length t) as Hwl.
      destruct (skip_ws t) as [|c1 r1] eqn:Ew; [discriminate|].
      destruct (Ascii.eqb_spec c1 "}") as [->|Hc].
      - intros [= <- <-]. split; [now apply value_empty_object|].
        simpl in *. lia.
      - destruct (parse_members f (d + 1) (String c1 r1)) as [[m rest]| |] eqn:Ep;
          simpl; try discriminate.
        intros [= <- <-]. destruct (IHm _ _ _ _ Ep) as [Hm Hl].
        split; [apply value_object, Hm, Hw|]. simpl in *. lia. }
    destruct (Ascii.eqb_spec c "[") as [->|Hc2].
    { destruct (maxNestingDepth <=? d)%N; [discriminate|].
      pose proof (skip_ws_ws t) as Hw. pose proof (skip_ws_length t) as Hwl.
      destruct (skip_ws t) as [|c1 r1] eqn:Ew; [discriminate|].
      destruct (Ascii.eqb_spec c1 "]") as [->|Hc].
      - intros [= <- <-]. split; [now apply value_empty_array|].
        simpl in *. lia.
      - destruct (parse_elements f (d + 1) (String c1 r1)) as [[l rest]| |] eqn:Ep;
          simpl; try discriminate.
        intros [= <- <-]. destruct (IHe _ _ _ _ Ep) as [He Hl].
        split; [apply value_array, He, Hw|]. simpl in *. lia. }
    destruct (Ascii.eqb_spec c DQ) as [->|Hc3].
    { destruct (scan_string t) as [[raw rest]|] eqn:Es; [|discriminate].
      intros [= <- <-]. destruct (scan_string_chars _ _ _ Es) as [Hch Hl].
      split; [now apply value_string | simpl; lia]. }
    destruct (Ascii.eqb_spec c "t") as [->|Hc4].
    { destruct (strings.HasPrefix t "rue") eqn:Hp; [|discriminate].
      intros [= <- <-]. destruct (literal_tail _ _ Hp) as [E Hl].
      simpl String.length in *. split; [|simpl; lia].
      rewrite E at 1. apply value_true. }
    destruct (Ascii.eqb_spec c "f") as [->|Hc5].
    { destruct (strings.HasPrefix t "alse") eqn:Hp; [|discriminate].
      intros [= <- <-]. destruct (literal_tail _ _ Hp) as [E Hl].
      simpl String.length in *. split; [|simpl; lia].
      rewrite E at 1. apply value_false. }
    destruct (Ascii.eqb_spec c "n") as [->|Hc6].
    { destruct (strings.HasPrefix t "ull") eqn:Hp; [|discriminate].
      intros [= <- <-]. destruct (literal_tail _ _ Hp) as [E Hl].
      simpl String.length in *. split; [|simpl; lia].
      rewrite E at 1. apply value_null. }
    destruct ((c =? "-")%char || is_digit c); [|discriminate].
    destruct (scan_number (String c t)) as [[lit rest]|] eqn:Es; [|discriminate].
    intros [= <- <-]. destruct (scan_number_number _ _ _ Es) as [Hn Hl].
    split; [now apply value_number | exact Hl].
  - (* elements *)
    intros d s l r. cbn [parse_elements].
    destruct (parse_value f d s) as [[v r1]| |] eqn:Ev; simpl; try discriminate.
    destruct (IHv _ _ _ _ Ev) as [Hv Hl1].
    pose proof (skip_ws_ws r1) as Hw. pose proof (skip_ws_length r1) as Hwl.
    destruct (skip_ws r1) as [|c r2] eqn:Ew; [discriminate|].
    destruct (Ascii.eqb_spec c ",") as [->|Hc].
    + pose proof (skip_ws_ws r2) as Hw2. pose proof (skip_ws_length r2) as Hwl2.
      destruct (parse_elements f d (skip_ws r2)) as [[l' rest]| |] eqn:Ep;
        simpl; try discriminate.
      intros [= <- <-]. destruct (IHe _ _ _ _ Ep) as [He Hl].
      split; [|simpl in *; lia].
      intros s0 H0. eapply elements_more; eauto.
    + destruct (Ascii.eqb_spec c "]") as [->|Hc']; [|discriminate].
      intros [= <- <-]. split; [|simpl in *; lia].
      intros s0 H0. eapply elements_last; eauto.
  - (* members *)
    intros d s m r. cbn [parse_members].
    destruct s as [|c t]; [discriminate|].
    destruct (Ascii.eqb_spec c DQ) as [->|Hc]; [|discriminate].
    destruct (scan_string t) as [[raw r1]|] eqn:Es; [|discriminate].
    destruct (scan_string_chars _ _ _ Es) as [Hch Hl0].
    pose proof (skip_ws_ws r1) as Hw1. pose proof (skip_ws_length r1) as Hwl1.
    destruct (skip_ws r1) as [|c2 r2] eqn:Ew1; [discriminate|].
    destruct (Ascii.eqb_spec c2 ":") as [->|Hc2]; [|discriminate].
    pose proof (skip_ws_ws r2) as Hw2. pose proof (skip_ws_length r2) as Hwl2.
    destruct (parse_value f d (skip_ws r2)) as [[v r3]| |] eqn:Ev;
      simpl; try discriminate.
    destruct (IHv _ _ _ _ Ev) as [Hv Hl3].
    pose proof (skip_ws_ws r3) as Hw3. pose proof (skip_ws_length r3) as Hwl3.
    destruct (skip_ws r3) as [|c3 r4] eqn:Ew3; [discriminate|].
    destruct (Ascii.eqb_spec c3 ",") as [->|Hc3].
    + pose proof (skip_ws_ws r4) as Hw4. pose proof (skip_ws_length r4) as Hwl4.
      destruct (parse_members f d (skip_ws r4)) as [[m' rest]| |] eqn:Ep;
        simpl; try discriminate.
      intros [= <- <-]. destruct (IHm _ _ _ _ Ep) as [Hm Hl].
      split; [|simpl in *; lia].
      intros s0 H0. eapply members_more; eauto.
    + destruct (Ascii.eqb_spec c3 "}") as [->|Hc3']; [|discriminate].
      intros [= <- <-]. split; [|simpl in *; lia].
      intros s0 H0. eapply members_last; eauto.
Qed.

(** A text the decoder accepts is a JSON text. *)
Lemma parse_sound (data : string) (v : json.value) :
  parse data = POk v -> text data.
Proof.
  unfold parse.
  destruct (parse_value _ _ _) as [[v' rest]| |] eqn:Ep; simpl; try discriminate.
  destruct (proj1 (parse_sound_fuel _) _ _ _ _ Ep) as [Hv _].
  pose proof (skip_ws_ws rest) as Hw.
  destruct (skip_ws rest); [|discriminate].
  intros _. exists (skip_ws data), rest. auto using skip_ws_ws.
Qed.


(** The recursion budget of [parse] is never used up. *)
Lemma parse_fuel_enough_fuel (f : nat) :
  (forall d s, (2 * String.length s + 1 <= f)%nat -> parse_value f d s <> PFuel)
  /\ (forall d s, (2 * String.length s + 2 <= f)%nat ->
                  parse_elements f d s <> PFuel)
  /\ (forall d s, (2 * String.length s + 2 <= f)%nat ->
                  parse_members f d s <> PFuel).
Proof.
  induction f as [|f (IHv & IHe & IHm)]; [repeat split; intros; lia|].
  destruct (parse_sound_fuel f) as (Sv & Se & Sm).
  split; [|split].
  - intros d s Hf. cbn [parse_value].
    destruct s as [|c t]; [discriminate|]. simpl in Hf.
    pose proof (skip_ws_length t) as Hwl.
    destruct (c =? "{")%char.
    { destruct (maxNestingDepth <=? d)%N; [discriminate|].
      destruct (skip_ws t) as [|c1 r1] eqn:Ew; [discriminate|].
      destruct (c1 =? "}")%char; [discriminate|].
      destruct (parse_members f (d + 1) (String c1 r1)) as [[m rest]| |] eqn:Ep;
        simpl; try discriminate.
      exfalso. apply (IHm (d + 1)%N (String c1 r1)); [lia | exact Ep]. }
    destruct (c =? "[")%char.
    { destruct (maxNestingDepth <=? d)%N; [discriminate|].
      destruct (skip_ws t) as [|c1 r1] eqn:Ew; [discriminate|].
      destruct (c1 =? "]")%char; [discriminate|].
      destruct (parse_elements f (d + 1) (String c1 r1)) as [[l rest]| |] eqn:Ep;
        simpl; try discriminate.
      exfalso. apply (IHe (d + 1)%N (String c1 r1)); [lia | exact Ep]. }
    destruct (c =? DQ)%char; [destruct (scan_string t) as [[? ?]|]; discriminate|].
    destruct (c =? "t")%char; [destruct (strings.HasPrefix t "rue"); discriminate|].
    destruct (c =? "f")%char; [destruct (strings.HasPrefix t "alse"); discriminate|].
    destruct (c =? "n")%char; [destruct (strings.HasPrefix t "ull"); discriminate|].
    destruct ((c =? "-")%char || is_digit c); [|discriminate].
    destruct (scan_number (String c t)) as [[? ?]|]; discriminate.
  - intros d s Hf. cbn [parse_elements].
    destruct (parse_value f d s) as [[v r1]| |] eqn:Ev; simpl; try discriminate.
    2:{ exfalso. apply (IHv d s); [lia | exact Ev]. }
    destruct (Sv _ _ _ _ Ev) as [_ Hl1].
    pose proof (skip_ws_length r1) as Hwl.
    destruct (skip_ws r1) as [|c r2] eqn:Ew; [discriminate|].
    destruct (c =? ",")%char.
    + pose proof (skip_ws_length r2) as Hwl2.
      destruct (parse_elements f d (skip_ws r2)) as [[l' rest]| |] eqn:Ep;
        simpl; try discriminate.
      exfalso. apply (IHe d (skip_ws r2)); [simpl in *; lia | exact Ep].
    + destruct (c =? "]")%char; discriminate.
  - intros d s Hf. cbn [parse_members].
    destruct s as [|c t]; [discriminate|]. simpl in Hf.
    destruct (c =? DQ)%char; [|discriminate].
    destruct (scan_string t) as [[raw r1]|] eqn:Es; [|discriminate].
    destruct (scan_string_chars _ _ _ Es) as [_ Hl0].
    pose proof (skip_ws_length r1) as Hwl1.
    destruct (skip_ws r1) as [|c2 r2] eqn:Ew1; [discriminate|].
    destruct (c2 =? ":")%char; [|discriminate].
    pose proof (skip_ws_length r2) as Hwl2.
    destruct (parse_value f d (skip_ws r2)) as [[v r3]| |] eqn:Ev;
      simpl; try discriminate.
    2:{ exfalso. apply (IHv d (skip_ws r2)); [simpl in *; lia | exact Ev]. }
    destruct (Sv _ _ _ _ Ev) as [_ Hl3].
    pose proof (skip_ws_length r3) as Hwl3.
    destruct (skip_ws r3) as [|c3 r4] eqn:Ew3; [discriminate|].
    destruct (c3 =? ",")%char.
    + pose proof (skip_ws_length r4) as Hwl4.
      destruct (parse_members f d (skip_ws r4)) as [[m' rest]| |] eqn:Ep;
        simpl; try discriminate.
      exfalso. apply (IHm d (skip_ws r4)); [simpl in *; lia | exact Ep].
    + destruct (c3 =? "}")%char; discriminate.
Qed.

Lemma parse_fuel_enough (data : string) : parse data <> PFuel.
Proof.
  unfold parse.
  destruct (parse_value _ _ _) as [[v rest]| |] eqn:Ep; simpl; try discriminate.
  - destruct (skip_ws rest); discriminate.
  - exfalso. revert Ep. apply (proj1 (parse_fuel_enough_fuel _)).
    pose proof (skip_ws_length data). unfold parse_fuel. lia.
Qed.


End JsonSoundness.

(** Refuting that a given string is a phrase: inversion along the
    string. *)
Ltac refute_class :=
  match goal with
  | H : grammar.whitespace _ |- _ =>
    exfalso; unfold grammar.whitespace in H; intuition discriminate
  | H : grammar.digit _ |- _ =>
    exfalso; unfold grammar.digit, byte_of in H; simpl in H; lia
  | H : grammar.digit1_9 _ |- _ =>
    exfalso; unfold grammar.digit1_9, byte_of in H; simpl in H; lia
  | H : grammar.escapable _ |- _ =>
    exfalso; unfold grammar.escapable in H; intuition discriminate
  | H : ?c <> ?c |- _ => exfalso; apply H; reflexivity
  end.

Ltac invert_phrase :=
  match goal with
  | H : grammar.text _ |- _ => destruct H as (? & ? & ? & ? & ?)
  | H : grammar.ws (String _ _) _ |- _ => inversion H; subst; clear H
  | H : grammar.ws EmptyString _ |- _ => inversion H; subst; clear H
  | H : grammar.value (String _ _) _ |- _ => inversion H; subst; clear H
  | H : grammar.value EmptyString _ |- _ => inversion H; subst; clear H
  | H : grammar.elements (String _ _) _ |- _ => inversion H; subst; clear H
  | H : grammar.elements EmptyString _ |- _ => inversion H; subst; clear H
  | H : grammar.members (String _ _) _ |- _ => inversion H; subst; clear H
  | H : grammar.members EmptyString _ |- _ => inversion H; subst; clear H
  | H : grammar.chars (String _ _) _ |- _ => inversion H; subst; clear H
  | H : grammar.chars EmptyString _ |- _ => inversion H; subst; clear H
  | H : grammar.number (String _ _) _ |- _ => inversion H; subst; clear H
  | H : grammar.number EmptyString _ |- _ => inversion H; subst; clear H
  | H : grammar.minus (String _ _) _ |- _ => inversion H; subst; clear H
  | H : grammar.minus EmptyString _ |- _ => inversion H; subst; clear H
  | H : grammar.int (String _ _) _ |- _ => inversion H; subst; clear H
  | H : grammar.int EmptyString _ |- _ => inversion H; subst; clear H
  end.

Ltac refute_text := intros; repeat (first [refute_class | invert_phrase]).

Lemma not_text_truncated : ~ grammar.text (sq "{'choices':[").
Proof. unfold sq. simpl. intros H. refute_text. Qed.

Lemma not_text_plain : ~ grammar.text "upstream request timeout".
Proof. intros H. refute_text. Qed.

(** What [logResponseBody] adds to the log for a body. *)
Lemma logResponseBody_logs (W : Type) (st : relay.State (W := W))
    (responseBody : string) (isStream : bool) :
  relay.logs (relay.logResponseBody st responseBody isStream)
  = (relay.logs st
     ++ [if String.eqb responseBody "" then "Empty response body"
         else ("Extracted content:<responseBody> "
               ++ (if isStream
                   then extract.extractContentFromStream responseBody
                   else extract.extractContentFromResponse responseBody)
               ++ "</responseBody>")%string])%list.
Proof.
  unfold relay.logResponseBody.
  destruct (String.eqb responseBody ""), isStream; reflexivity.
Qed.

(** C6.  The non-streaming extractor on malformed input, and its
    determinism.  For every input that is not a JSON text the result
    is the placeholder [Failed to parse response JSON], returned as a
    value: the decoder's recursion budget is never used up, and on
    every input the extractor returns one of its five placeholders or
    the content string of the first choice.  The result depends on the
    captured bytes only: logging the same capture twice extracts the
    same string twice.  The JSON text is that of the grammar read on
    bytes, as the decoder reads it: a byte from 128 on inside a string
    literal is taken as it is.  So an input that is well-formed UTF-8
    and not valid JSON gives the placeholder; and every input that is
    not valid JSON gives the placeholder, unless it is a text of the
    grammar and its defect is ill-formed UTF-8. *)
Theorem invalid_json_gives_placeholder :
  (forall responseBody,
      ~ grammar.text responseBody ->
      extract.extractContentFromResponse responseBody
      = "Failed to parse response JSON")
  /\ (forall data, json.parse data <> json.PFuel)
  /\ (forall responseBody,
         In (extract.extractContentFromResponse responseBody)
            ["Failed to parse response JSON"; "No content found in response";
             "Invalid choice format in response";
             "Invalid message format in response";
             "No content field found in message"]
         \/ exists jsonData choice rest message,
              json.Unmarshal responseBody = inr jsonData
              /\ json.map_index jsonData "choices"
                 = json.VSlice (json.VMap choice :: rest)
              /\ json.map_index choice "message" = json.VMap message
              /\ json.map_index message "content"
                 = json.VString
                     (extract.extractContentFromResponse responseBody))
  /\ (forall (W : Type) (st : relay.State (W := W)) (captured : tap.Buffer),
         exists entry,
           relay.logs (relay.logResponseBody st (tap.Buffer_String captured) false)
           = (relay.logs st ++ [entry])%list
           /\ relay.logs
                (relay.logResponseBody
                   (relay.logResponseBody st (tap.Buffer_String captured) false)
                   (tap.Buffer_String captured) false)
              = (relay.logs st ++ [entry; entry])%list)
  /\ (forall responseBody,
         ValidString responseBody = true ->
         ~ valid_json responseBody ->
         extract.extractContentFromResponse responseBody
         = "Failed to parse response JSON")
  /\ (forall responseBody,
         ~ valid_json responseBody ->
         extract.extractContentFromResponse responseBody
         = "Failed to parse response JSON"
         \/ (grammar.text responseBody /\ ValidString responseBody = false)).
Proof.
  assert (forall responseBody m,
             json.Unmarshal responseBody = inr m -> grammar.text responseBody)
    as Hsound.
  { intros responseBody m Eu. unfold json.Unmarshal in Eu.
    destruct (json.parse responseBody) as [v| |] eqn:Ep; try discriminate.
    now apply (parse_sound responseBody v). }
  split; [|split; [|split; [|split; [|split]]]].
  5:{ intros responseBody Hv Hn. unfold extract.extractContentFromResponse.
      destruct (json.Unmarshal responseBody) as [e|m] eqn:Eu; [reflexivity|].
      exfalso. apply Hn. split; [now apply (Hsound _ m) | exact Hv]. }
  5:{ intros responseBody Hn.
      destruct (json.Unmarshal responseBody) as [e|m] eqn:Eu.
      - left. unfold extract.extractContentFromResponse. now rewrite Eu.
      - right. split; [now apply (Hsound _ m)|].
        destruct (ValidString responseBody) eqn:Hv; [|reflexivity].
        exfalso. apply Hn. split; [now apply (Hsound _ m) | exact Hv]. }
  - intros responseBody Hn. unfold extract.extractContentFromResponse.
    destruct (json.Unmarshal responseBody) as [e|m] eqn:Eu; [reflexivity|].
    exfalso. apply Hn. now apply (Hsound _ m).
  - apply parse_fuel_enough.
  - intros responseBody. unfold extract.extractContentFromResponse.
    destruct (json.Unmarshal responseBody) as [e|m] eqn:Eu;
      [left; simpl; tauto|].
    destruct (json.map_index m "choices") as [| | | |l|] eqn:Ec;
      try (left; simpl; tauto).
    destruct l as [|c0 rest]; [left; simpl; tauto|].
    destruct c0 as [| | | | |choice]; try (left; simpl; tauto).
    simpl.
    destruct (json.map_index choice "message") as [| | | | |message] eqn:Em;
      try (left; simpl; tauto).
    simpl.
    destruct (json.map_index message "content") as [| | |content| |] eqn:Es;
      try (left; simpl; tauto).
    right. exists m, choice, rest, message. auto.
  - intros W st captured. eexists. rewrite !logResponseBody_logs.
    split; [reflexivity|]. rewrite <- app_assoc. reflexivity.
Qed.

(** C6 on a response cut off in the middle. *)
Lemma invalid_json_witness :
  extract.extractContentFromResponse (sq "{'choices':[")
  = "Failed to parse response JSON".
Proof.
  exact (proj1 invalid_json_gives_placeholder (sq "{'choices':[")
           not_text_truncated).
Defined.

(** C6 as it is worded, at a body that is not valid JSON: the content
    of its one choice is two bytes that are no UTF-8.  The body is a
    text of the grammar, the decoder takes it and puts U+FFFD for each
    of the two bytes, and the extractor returns this content, not the
    placeholder. *)
Lemma ill_formed_utf8_is_decoded :
  ~ valid_json bad_utf8_response
  /\ grammar.text bad_utf8_response
  /\ extract.extractContentFromResponse bad_utf8_response
     = utf8.EncodeRune utf8.RuneError ++ utf8.EncodeRune utf8.RuneError
  /\ extract.extractContentFromResponse bad_utf8_response
     <> "Failed to parse response JSON".
Proof.
  split; [|split; [|split]].
  - intros [_ Hv]. vm_compute in Hv. discriminate.
  - apply (parse_sound bad_utf8_response
             (json.VMap
                [("choices",
                  json.VSlice
                    [json.VMap
                       [("message",
                         json.VMap
                           [("content",
                             json.VString
                               (utf8.EncodeRune utf8.RuneError
                                ++ utf8.EncodeRune utf8.RuneError))])]])])).
    vm_compute. reflexivity.
  - vm_compute. reflexivity.
  - vm_compute. discriminate.
Qed.

(** [ValidString] on ASCII, on two runes of more than one byte, and on
    a byte that is no UTF-8 behind them. *)
Lemma ValidString_ascii (s : string) :
  ascii_only s = true -> ValidString s = true.
Proof.
  unfold ValidString. generalize (Nat.le_refl (String.length s)).
  generalize (String.length s) at 2 3 as fuel.
  induction s as [|c s IH]; intros fuel Hl Ha.
  - destruct fuel; reflexivity.
  - simpl in Ha. apply andb_true_iff in Ha as [Hc Ha].
    destruct fuel as [|fuel]; [simpl in Hl; lia|].
    cbn [ValidString_loop utf8.DecodeRune]. rewrite Hc.
    assert ((byte_of c =? utf8.RuneError)%N = false) as ->.
    { apply N.eqb_neq. apply N.ltb_lt in Hc.
      unfold utf8.RuneSelf, utf8.RuneError in *. lia. }
    cbn [andb drop_bytes]. apply IH; [simpl in Hl; lia | exact Ha].
Qed.

Lemma ValidString_examples :
  ValidString response_example = true
  /\ ValidString (sq "{'choices':[" ++ NBSP ++ IDSP) = true
  /\ ValidString (NBSP ++ String "160" EmptyString) = false.
Proof. repeat split; vm_compute; reflexivity. Qed.

(** ** The library functions on some inputs *)

Example Split_example :
  strings.Split "a, b, c" ", " = ["a"; "b"; "c"]
  /\ strings.Split "abc" "" = ["a"; "b"; "c"]
  /\ strings.Split "" "data: " = [EmptyString]
  /\ strings.Count "cheese" "e" = 3%nat.
Proof. repeat split; reflexivity. Qed.

Example TrimSpace_example :
  strings.TrimSpace (String LF " [DONE] " ++ String LF (String LF "")) = "[DONE]"
  /\ strings.TrimSpace
       (String "194"%char (String "160"%char "x y")
        ++ String "226"%char (String "128"%char (String "131"%char "")))
     = "x y"
  /\ strings.TrimSpace (String "128"%char " z ") = String "128"%char " z".
Proof. repeat split; vm_compute; reflexivity. Qed.

Example parse_example :
  json.parse (sq "{'a': [1, -2.5e3, true, null], 'b': {'c': 'x\nyé😀'}} ")
  = json.POk (json.VMap
      [("a", json.VSlice [json.VFloat64 "1"; json.VFloat64 "-2.5e3";
                          json.VBool true; json.VNil]);
       ("b", json.VMap [("c", json.VString
               (String "x" (String LF (String "y"
                  (String "195"%char (String "169"%char
                     (String "240"%char (String "159"%char
                        (String "152"%char (String "128"%char
                           EmptyString))))))))))])]).
Proof. vm_compute. reflexivity. Qed.

Example Unmarshal_examples :
  json.Unmarshal "null" = inr []
  /\ json.Unmarshal "[1]" = inl json.UnmarshalTypeError
  /\ json.Unmarshal "{" = inl json.SyntaxError
  /\ json.Unmarshal (sq "{'a':01}") = inl json.SyntaxError
  /\ json.Unmarshal (sq "{'a':'\ud83d'}")
     = inr [("a", json.VString
                    (String "239"%char (String "191"%char
                       (String "189"%char EmptyString))))]
  /\ json.Unmarshal (sq "{'a':1e400}") = inl json.UnmarshalTypeError
  /\ json.Unmarshal (sq "{'a':1.7976931348623157e308}")
     = inr [("a", json.VFloat64 "1.7976931348623157e308")]
  /\ json.Unmarshal (sq "{'a':1.7976931348623159e308}")
     = inl json.UnmarshalTypeError
  /\ json.Unmarshal (sq "{'a':1,'a':'z'}")
     = inr [("a", json.VFloat64 "1"); ("a", json.VString "z")]
  /\ json.map_index [("a", json.VFloat64 "1"); ("a", json.VString "z")] "a"
     = json.VString "z".
Proof. repeat split; vm_compute; reflexivity. Qed.

Example text_example : grammar.text response_example.
Proof.
  apply (parse_sound response_example
           (json.VMap [("choices",
              json.VSlice [json.VMap [("message",
                 json.VMap [("content", json.VString "ok")])]])])).
  vm_compute. reflexivity.
Qed.

(** ** Further properties of the orchestrator and of the decoder *)

(** X2.  No call releases and settles, or does either twice: the events a
    call adds close the reservation at most once, and only if the call
    made one. *)
Theorem relay_closes_at_most_once (W : Type) (HW : tap.ResponseWriter W)
    (env : relay.Collaborators) (st : relay.State (W := W)) :
  exists evs,
    relay.events (fst (relay.RelayTextHelper st)) = (relay.events st ++ evs)%list
    /\ (relay.closings evs <= 1)%nat
    /\ (relay.closings evs <= relay.reservations evs)%nat
    /\ (relay.reservations evs <= 1)%nat.
Proof.
  destruct (RelayTextHelper_outcome st) as (evs & He & Ho).
  exists evs. split; [exact He|]. exact (outcome_closings st _ _ _ Ho).
Qed.

(** X3.  A call that releases its reservation leaves every account with the
    balance it had before the call. *)
Theorem relay_release_restores_balances (W : Type)
    (HW : tap.ResponseWriter W) (env : relay.Collaborators)
    (st : relay.State (W := W)) (account : Z) :
  exists evs,
    relay.events (fst (relay.RelayTextHelper st)) = (relay.events st ++ evs)%list
    /\ ((0 < relay.count_events relay.is_release evs)%nat ->
        relay.balance (relay.ledger (fst (relay.RelayTextHelper st))) account
        = relay.balance (relay.ledger st) account).
Proof.
  destruct (RelayTextHelper_outcome st) as (evs & He & Ho).
  exists evs. split; [exact He|].
  intros Hr. exact (outcome_release_restores st _ _ _ account Ho Hr).
Qed.

(** X3 on a concrete call: the upstream answers, [DoResponse]
    fails, and account 7 has its 1000 again. *)
Lemma relay_release_witness :
  relay.balance (relay.ledger (fst (relay.RelayTextHelper (test_state 2)))) 7
  = relay.balance (relay.ledger (test_state 2)) 7.
Proof.
  destruct (relay_release_restores_balances string _ test_env (test_state 2) 7)
    as (evs & He & Hb).
  apply Hb. vm_compute in He. rewrite <- He. vm_compute. reflexivity.
Defined.

(** X4.  A call that makes a reservation and closes none returned from
    one of three places: no adaptor for the API type, the request body
    could not be built, or [DoRequest] failed. *)
Theorem relay_open_reservation_sites (W : Type) (HW : tap.ResponseWriter W)
    (env : relay.Collaborators) (st : relay.State (W := W)) :
  exists evs,
    relay.events (fst (relay.RelayTextHelper st)) = (relay.events st ++ evs)%list
    /\ (relay.reservations evs = 1%nat -> relay.closings evs = 0%nat ->
        exists err code status,
          snd (relay.RelayTextHelper st)
          = Some (relay.ErrorWrapper err code status)
          /\ In code ["invalid_api_type"; "convert_request_failed";
                      "do_request_failed"]).
Proof.
  destruct (RelayTextHelper_outcome st) as (evs & He & Ho).
  exists evs. split; [exact He|].
  exact (outcome_open_reservation st _ _ _ Ho).
Qed.

(** X4 on a concrete call: the upstream cannot be reached. *)
Lemma relay_open_reservation_witness :
  exists err code status,
    snd (relay.RelayTextHelper (test_state 1))
    = Some (relay.ErrorWrapper err code status)
    /\ In code ["invalid_api_type"; "convert_request_failed";
                "do_request_failed"].
Proof.
  destruct (relay_open_reservation_sites string _ test_env (test_state 1))
    as (evs & He & Hs).
  vm_compute in He. apply Hs; rewrite <- He; vm_compute; reflexivity.
Defined.

(** ** What a call leaves in the context and in the log *)

Section RelayState.

Import tap relay.
Context {W : Type} `{ResponseWriter W} `{Collaborators}.

Lemma getRequestBody_logs (st : State (W := W)) meta textRequest adaptor mapped :
  exists added,
    logs (fst (getRequestBody st meta textRequest adaptor mapped))
    = (logs st ++ added)%list.
Proof.
  unfold getRequestBody.
  destruct (APIType meta =? apitype_OpenAI)%Z.
  - exists []. rewrite app_nil_r.
    destruct (mapped || (ChannelType meta =? channeltype_Baichuan)%Z).
    + destruct (Marshal_request textRequest); reflexivity.
    + unfold ReadAll. cbn [fst snd].
      destruct (read_error (c_Request_Body st)); reflexivity.
  - destruct (ConvertRequest adaptor (Mode meta) textRequest);
      [eexists; reflexivity|].
    destruct (Marshal_converted c); eexists; reflexivity.
Qed.

(** The body [getRequestBody] returns is what it returns for the log,
    and after a success the inbound body reads as before. *)
Lemma getRequestBody_success_lemma (st : State (W := W)) meta textRequest
    adaptor mapped requestBody bodyContent :
  snd (getRequestBody st meta textRequest adaptor mapped)
  = inr (requestBody, bodyContent) ->
  requestBody = bodyContent
  /\ snd (ReadAll (c_Request_Body
                     (fst (getRequestBody st meta textRequest adaptor mapped))))
     = snd (ReadAll (c_Request_Body st)).
Proof.
  unfold getRequestBody.
  destruct (APIType meta =? apitype_OpenAI)%Z.
  - destruct (mapped || (ChannelType meta =? channeltype_Baichuan)%Z).
    + destruct (Marshal_request textRequest); simpl; intros [= <- <-]; auto.
    + unfold ReadAll. cbn [fst snd].
      destruct (read_error (c_Request_Body st)) eqn:Er; simpl;
        intros [= <- <-]. auto.
  - destruct (ConvertRequest adaptor (Mode meta) textRequest); simpl;
      [intros [=]|].
    destruct (Marshal_converted c); simpl; intros [= <- <-]; auto.
Qed.

Lemma mapModelName_IsStream (meta : Meta) (r : GeneralOpenAIRequest) :
  IsStream (fst (fst (mapModelName meta r))) = IsStream meta.
Proof.
  unfold mapModelName. simpl.
  destruct (getMappedModelName _ _). reflexivity.
Qed.

Lemma logResponseBody_frame (st : State (W := W)) b i :
  events (logResponseBody st b i) = events st
  /\ ledger (logResponseBody st b i) = ledger st
  /\ c_Writer (logResponseBody st b i) = c_Writer st
  /\ c_meta (logResponseBody st b i) = c_meta st.
Proof.
  unfold logResponseBody. destruct (String.eqb b ""), i; simpl; auto.
Qed.

Lemma call_meta_IsStream (st : State (W := W)) r0 :
  IsStream (call_meta st r0) = Stream r0.
Proof.
  unfold call_meta. cbn [set_PromptTokens IsStream].
  now rewrite mapModelName_IsStream.
Qed.

(** What a call leaves in the context and in the log, beside the
    events of [outcome]. *)
Lemma RelayTextHelper_state (st : State (W := W)) :
  exists evs added,
    events (fst (RelayTextHelper st)) = (events st ++ evs)%list
    /\ logs (fst (RelayTextHelper st)) = (logs st ++ added)%list
    /\ (forall b, In (EvDoRequest b) evs ->
          In ("Final request body: <requestBody> " ++ b ++ "</requestBody>")
             added)
    /\ ((count_events is_DoResponse evs = 0%nat
         /\ sink_of (c_Writer (fst (RelayTextHelper st)))
            = sink_of (c_Writer st))
        \/ (count_events is_DoResponse evs = 1%nat
            /\ exists r0 a requestBody bodyContent resp,
              getAndValidateTextRequest (c_Request_Body st) (Mode (c_meta st))
              = inr r0
              /\ GetAdaptor (APIType (call_meta st r0)) = Some a
              /\ snd (getRequestBody st (call_meta st r0) (call_request st r0)
                        a (call_mapped st r0))
                 = inr (requestBody, bodyContent)
              /\ DoRequest a (call_meta st r0) requestBody = inr resp
              /\ c_Writer (fst (RelayTextHelper st))
                 = inr (fst (tap_run
                               (fst (DoResponse a resp (call_meta st r0)))
                               (mkWriter (sink_of (c_Writer st)) EmptyString
                                  (Stream r0) false)))
              /\ (snd (RelayTextHelper st) = None ->
                  exists older,
                    added
                    = (older
                       ++ [if String.eqb (captured (fst (RelayTextHelper st))) ""
                           then "Empty response body"
                           else ("Extracted content:<responseBody> "
                                 ++ (if Stream r0
                                     then extract.extractContentFromStream
                                            (captured (fst (RelayTextHelper st)))
                                     else extract.extractContentFromResponse
                                            (captured (fst (RelayTextHelper st))))
                                 ++ "</responseBody>")%string])%list))).
Proof.
  assert (forall m, count_events is_DoResponse (conversion_events m) = 0%nat)
    as Hc.
  { intros m. unfold conversion_events.
    destruct (APIType m =? apitype_OpenAI)%Z; reflexivity. }
  assert (forall a b, count_events is_DoResponse (a ++ b)
                      = (count_events is_DoResponse a
                         + count_events is_DoResponse b)%nat) as Happ.
  { intros a b. unfold count_events.
    rewrite !List.filter_app, !List.length_app. lia. }
  assert (forall m b, ~ In (EvDoRequest b) (conversion_events m)) as Hnc.
  { intros m b. unfold conversion_events.
    destruct (APIType m =? apitype_OpenAI)%Z; simpl; intuition discriminate. }
  unfold captured, RelayTextHelper.
  destruct (getAndValidateTextRequest (c_Request_Body st) (Mode (c_meta st)))
    as [err|r0] eqn:Ev.
  { exists [], [("getAndValidateTextRequest failed: " ++ err)%string]. simpl.
    rewrite app_nil_r. split; [reflexivity|]. split; [reflexivity|].
    split; [intros b []|]. left. auto. }
  destruct (mapModelName (set_IsStream (c_meta st) (Stream r0)) r0)
    as [[m1 r1] mp] eqn:Emap.
  assert (call_request st r0 = r1) as Er
    by (unfold call_request; now rewrite Emap).
  assert (call_mapped st r0 = mp) as Ep
    by (unfold call_mapped; now rewrite Emap).
  assert (call_meta st r0 = set_PromptTokens m1 (getPromptTokens r1 (Mode m1)))
    as Em by (unfold call_meta; rewrite Er, Emap; reflexivity).
  assert (call_quota st r0
          = getPreConsumedQuota r1 (getPromptTokens r1 (Mode m1))
              (fmul (GetModelRatio (Model r1)) (GetGroupRatio (Group m1))))
    as Eq by (unfold call_quota; rewrite Er, Em; reflexivity).
  assert (IsStream m1 = Stream r0) as Eis.
  { pose proof (mapModelName_IsStream
                  (set_IsStream (c_meta st) (Stream r0)) r0) as Hi.
    rewrite Emap in Hi. exact Hi. }
  pose proof (call_meta_IsStream st r0) as Eim.
  unfold preConsumeQuota.
  rewrite <- Eq, <- Em. clear Em Eq Emap.
  remember (call_meta st r0) as m eqn:Hm.
  remember (call_quota st r0) as q eqn:Hq.
  simpl.
  destruct (Reserve (ledger st) (TokenId m) q) as [l|] eqn:Eres.
  2:{ exists [], [("preConsumeQuota failed: " ++ Message InsufficientBalance)%string].
      simpl. rewrite app_nil_r. split; [reflexivity|]. split; [reflexivity|].
      split; [intros b []|]. left. auto. }
  destruct (GetAdaptor (APIType m)) as [a|] eqn:Ea.
  2:{ eexists. exists []. simpl.
      split; [reflexivity|]. split; [now rewrite app_nil_r|].
      split; [intros b [[=]|[]]|]. left. auto. }
  match goal with |- context [getRequestBody ?s ?m ?r ?a ?p] =>
    pose proof (getRequestBody_events s m r a p) as Hev;
    pose proof (getRequestBody_frame s m r a p) as (_ & Hled & Hwr);
    pose proof (getRequestBody_logs s m r a p) as (added0 & Hlogs);
    pose proof (getRequestBody_success_lemma s m r a p) as Hsame;
    pose proof (getRequestBody_result s st m r a p eq_refl) as Hres;
    destruct (getRequestBody s m r a p) as [st1 built] eqn:Eb
  end.
  simpl in Hev, Hled, Hwr, Hlogs, Hres, Hsame. rewrite <- Er, <- Ep in Hres.
  destruct built as [err|[requestBody bodyContent]].
  { eexists. exists added0. simpl. rewrite Hev, Hlogs, Hwr.
    split; [rewrite <- !app_assoc; reflexivity|]. split; [reflexivity|].
    split.
    - intros b Hb. rewrite ?in_app_iff in Hb. simpl in Hb.
      rewrite ?in_app_iff. simpl.
      decompose [or] Hb; try discriminate; try contradiction;
        try (exfalso; eapply Hnc; eassumption).
      all: match goal with E : EvDoRequest _ = EvDoRequest _ |- _ =>
             inversion E; subst end; tauto.
    - left. rewrite !Happ, Hc. auto. }
  destruct (Hsame _ _ eq_refl) as [<- _]. clear Hsame.
  destruct (DoRequest a m requestBody) as [err|resp] eqn:Ed.
  { eexists. eexists. simpl. rewrite Hev, Hlogs, Hwr.
    split; [rewrite <- !app_assoc; reflexivity|].
    split; [rewrite <- !app_assoc; reflexivity|].
    split.
    - intros b Hb. rewrite ?in_app_iff in Hb. simpl in Hb.
      rewrite ?in_app_iff. simpl.
      decompose [or] Hb; try discriminate; try contradiction;
        try (exfalso; eapply Hnc; eassumption).
      all: match goal with E : EvDoRequest _ = EvDoRequest _ |- _ =>
             inversion E; subst end; tauto.
    - left. rewrite !Happ, Hc. auto. }
  destruct (isErrorHappened m resp) eqn:Eh.
  { eexists. eexists. simpl. rewrite Hev, Hlogs, Hwr.
    split; [rewrite <- !app_assoc; reflexivity|].
    split; [rewrite <- !app_assoc; reflexivity|].
    split.
    - intros b Hb. rewrite ?in_app_iff in Hb. simpl in Hb.
      rewrite ?in_app_iff. simpl.
      decompose [or] Hb; try discriminate; try contradiction;
        try (exfalso; eapply Hnc; eassumption).
      all: match goal with E : EvDoRequest _ = EvDoRequest _ |- _ =>
             inversion E; subst end; tauto.
    - left. rewrite !Happ, Hc. auto. }
  destruct (DoResponse a resp m) as [ops [usage [respErr|]]] eqn:Er2.
  { eexists. eexists. simpl. rewrite Hev, Hlogs, Hwr.
    split; [rewrite <- !app_assoc; reflexivity|].
    split; [rewrite <- !app_assoc; reflexivity|].
    split.
    - intros b Hb. rewrite ?in_app_iff in Hb. simpl in Hb.
      rewrite ?in_app_iff. simpl.
      decompose [or] Hb; try discriminate; try contradiction;
        try (exfalso; eapply Hnc; eassumption).
      all: match goal with E : EvDoRequest _ = EvDoRequest _ |- _ =>
             inversion E; subst end; tauto.
    - right. rewrite !Happ, Hc. split; [reflexivity|].
      exists r0, a, requestBody, requestBody, resp. subst m.
      rewrite Er2. simpl.
      do 5 (split; [first [assumption | reflexivity | symmetry; assumption]|]).
      intros [=]. }
  match goal with |- context [logResponseBody ?s ?b ?i] =>
    pose proof (logResponseBody_frame s b i) as (Hle & _ & Hlw & _);
    pose proof (logResponseBody_logs W s b i) as Hlg;
    remember (logResponseBody s b i) as st2 eqn:Hst2
  end.
  simpl in Hlg. rewrite Hwr in Hlg. simpl in Hlg.
  eexists. eexists. simpl. rewrite Hle, Hlw, Hlg, Eim. simpl.
  rewrite Hev, Hlogs, Hwr.
  split; [rewrite <- !app_assoc; reflexivity|].
  split; [rewrite <- !app_assoc; reflexivity|].
  split.
  - intros b Hb. rewrite ?in_app_iff in Hb. simpl in Hb.
    rewrite ?in_app_iff. simpl.
    decompose [or] Hb; try discriminate; try contradiction;
      try (exfalso; eapply Hnc; eassumption).
    all: match goal with E : EvDoRequest _ = EvDoRequest _ |- _ =>
           inversion E; subst end; tauto.
  - right. rewrite !Happ, Hc. split; [reflexivity|].
    exists r0, a, requestBody, requestBody, resp. subst m.
    rewrite Er2. simpl.
    do 5 (split; [first [assumption | reflexivity | symmetry; assumption]|]).
    intros _.
    eexists (_ ++ [_])%list. rewrite <- app_assoc. reflexivity.
Qed.

End RelayState.

(** X5.  What a call of [RelayTextHelper] does to the client's writer:
    a call that does not reach [DoResponse] leaves the client's sink as
    it was; a call that reaches it leaves the sink as the writes of
    [DoResponse] leave it when made on the sink directly, and the copy
    the tap holds is the bytes of all these writes in order. *)
Theorem relay_forwards_and_captures (W : Type) (HW : tap.ResponseWriter W)
    (env : relay.Collaborators) (st : relay.State (W := W)) :
  exists evs,
    relay.events (fst (relay.RelayTextHelper st)) = (relay.events st ++ evs)%list
    /\ ((relay.count_events relay.is_DoResponse evs = 0%nat
         /\ relay.sink_of (relay.c_Writer (fst (relay.RelayTextHelper st)))
            = relay.sink_of (relay.c_Writer st))
        \/ (relay.count_events relay.is_DoResponse evs = 1%nat
            /\ exists r0 a requestBody bodyContent resp,
              relay.getAndValidateTextRequest (relay.c_Request_Body st)
                (relay.Mode (relay.c_meta st)) = inr r0
              /\ relay.GetAdaptor (relay.APIType (relay.call_meta st r0))
                 = Some a
              /\ snd (relay.getRequestBody st (relay.call_meta st r0)
                        (relay.call_request st r0) a (relay.call_mapped st r0))
                 = inr (requestBody, bodyContent)
              /\ relay.DoRequest a (relay.call_meta st r0) requestBody
                 = inr resp
              /\ relay.sink_of (relay.c_Writer (fst (relay.RelayTextHelper st)))
                 = fst (tap.sink_run
                          (fst (relay.DoResponse a resp (relay.call_meta st r0)))
                          (relay.sink_of (relay.c_Writer st)))
              /\ relay.captured (fst (relay.RelayTextHelper st))
                 = concat_strings
                     (map tap.op_bytes
                        (fst (relay.DoResponse a resp
                                (relay.call_meta st r0)))))).
Proof.
  destruct (RelayTextHelper_state st)
    as (evs & added & He & _ & _ & [Hn|(Hc & r0 & a & rb & bc & resp & Hs)]).
  - exists evs. split; [exact He|]. left. exact Hn.
  - exists evs. split; [exact He|]. right. split; [exact Hc|].
    exists r0, a, rb, bc, resp.
    destruct Hs as (Hv & Ha & Hb & Hd & Hw & _).
    do 4 (split; [assumption|]).
    unfold relay.captured. rewrite Hw.
    change (relay.sink_of (inr ?t)) with (tap.ResponseWriter_ t).
    split.
    + rewrite (proj1 (tap_run_sink _ _)). reflexivity.
    + unfold tap.Buffer_String. rewrite tap_run_body. reflexivity.
Qed.

(** X6.  The log of a call that succeeds ends with the line of
    [logResponseBody] for the bytes [DoResponse] wrote, extracted as a
    stream or as a whole response as the [stream] flag of the request
    says. *)
Theorem relay_success_log (W : Type) (HW : tap.ResponseWriter W)
    (env : relay.Collaborators) (st : relay.State (W := W)) :
  snd (relay.RelayTextHelper st) = None ->
  exists r0 a requestBody resp older,
    relay.getAndValidateTextRequest (relay.c_Request_Body st)
      (relay.Mode (relay.c_meta st)) = inr r0
    /\ relay.GetAdaptor (relay.APIType (relay.call_meta st r0)) = Some a
    /\ relay.DoRequest a (relay.call_meta st r0) requestBody = inr resp
    /\ relay.logs (fst (relay.RelayTextHelper st))
       = (older
          ++ [let responseBody :=
                concat_strings
                  (map tap.op_bytes
                     (fst (relay.DoResponse a resp (relay.call_meta st r0)))) in
              if String.eqb responseBody "" then "Empty response body"
              else ("Extracted content:<responseBody> "
                    ++ (if relay.Stream r0
                        then extract.extractContentFromStream responseBody
                        else extract.extractContentFromResponse responseBody)
                    ++ "</responseBody>")%string])%list.
Proof.
  intros Hnone.
  destruct (RelayTextHelper_state st)
    as (evs & added & He & Hl & _ & [[Hn _]|(Hc & r0 & a & rb & bc & resp & Hs)]).
  - exfalso.
    destruct (RelayTextHelper_outcome st) as (evs' & He' & Ho).
    rewrite He in He'. apply app_inv_head in He'. subst evs'.
    rewrite Hnone in Ho. inversion Ho; subst.
    assert (forall a b, relay.count_events relay.is_DoResponse (a ++ b)
                        = (relay.count_events relay.is_DoResponse a
                           + relay.count_events relay.is_DoResponse b)%nat)
      as Happ.
    { intros x y. unfold relay.count_events.
      rewrite !List.filter_app, !List.length_app. lia. }
    rewrite !Happ in Hn. unfold relay.count_events in Hn. simpl in Hn. lia.
  - destruct Hs as (Hv & Ha & Hb & Hd & Hw & Hlg).
    destruct (Hlg Hnone) as (older & Hadd).
    exists r0, a, rb, resp, (relay.logs st ++ older)%list.
    do 3 (split; [assumption|]).
    rewrite Hl, Hadd, <- app_assoc. cbv zeta.
    unfold relay.captured. rewrite Hw. unfold tap.Buffer_String.
    rewrite tap_run_body. reflexivity.
Qed.

(** X6 on a concrete call: the upstream answers with the example
    response, and the log ends with its text. *)
Lemma relay_success_log_witness :
  exists older,
    relay.logs (fst (relay.RelayTextHelper (test_state 0)))
    = (older ++ ["Extracted content:<responseBody> ok</responseBody>"])%list.
Proof.
  destruct (relay_success_log string _ test_env (test_state 0) eq_refl)
    as (r0 & a & rb & resp & older & Hv & Ha & Hd & Hl).
  exists older. rewrite Hl.
  vm_compute in Hv. injection Hv as <-.
  vm_compute in Ha. injection Ha as <-.
  reflexivity.
Defined.

(** X7.  Every body a call hands to [DoRequest] is in the log the call
    writes, in full, in the line [Final request body]. *)
Theorem relay_logs_every_body_sent (W : Type) (HW : tap.ResponseWriter W)
    (env : relay.Collaborators) (st : relay.State (W := W)) :
  exists evs added,
    relay.events (fst (relay.RelayTextHelper st)) = (relay.events st ++ evs)%list
    /\ relay.logs (fst (relay.RelayTextHelper st)) = (relay.logs st ++ added)%list
    /\ (forall requestBody,
           In (relay.EvDoRequest requestBody) evs ->
           In ("Final request body: <requestBody> " ++ requestBody
               ++ "</requestBody>") added).
Proof.
  destruct (RelayTextHelper_state st) as (evs & added & He & Hl & Hb & _).
  exists evs, added. auto.
Qed.

(** X8.  When [getRequestBody] succeeds, the content it returns for the
    log is the body it returns for the upstream, and the inbound body
    can be read again with the same result: the pass-through branch
    puts back what it read. *)
Theorem getRequestBody_success (W : Type) (HW : tap.ResponseWriter W)
    (env : relay.Collaborators) (st : relay.State (W := W))
    (meta : relay.Meta) (textRequest : relay.GeneralOpenAIRequest)
    (adaptor : relay.Adaptor relay.Response relay.ConvertedRequest)
    (isModelMapped : bool) (requestBody bodyContent : string) :
  snd (relay.getRequestBody st meta textRequest adaptor isModelMapped)
  = inr (requestBody, bodyContent) ->
  requestBody = bodyContent
  /\ snd (relay.ReadAll
            (relay.c_Request_Body
               (fst (relay.getRequestBody st meta textRequest adaptor
                       isModelMapped))))
     = snd (relay.ReadAll (relay.c_Request_Body st)).
Proof. apply getRequestBody_success_lemma. Qed.

(** X8 on the pass-through branch: the client's bytes go out and can
    be read again. *)
Lemma getRequestBody_success_witness :
  snd (relay.ReadAll
         (relay.c_Request_Body
            (fst (relay.getRequestBody (test_state 0) (test_meta 0)
                    (relay.mkRequest "gpt-x" false "") good_adaptor false))))
  = (sq "{'model':'gpt-x','messages':[]}", None).
Proof.
  exact (proj2 (getRequestBody_success string _ test_env (test_state 0)
                  (test_meta 0) (relay.mkRequest "gpt-x" false "")
                  good_adaptor false _ _ eq_refl)).
Defined.

(** ** The extractors on the bodies of an upstream *)

Lemma Split_marker_app (x y : string) :
  strings.Split (x ++ "data: " ++ y) "data: "
  = (strings.Split x "data: " ++ strings.Split y "data: ")%list.
Proof.
  destruct (Split_pieces_fuel (String.length x) x (le_n _))
    as (p0 & ps & Hsx & Hx & Hfx).
  destruct (Split_pieces_fuel (String.length y) y (le_n _))
    as (q0 & qs & Hsy & Hy & Hfy).
  rewrite Hsx, Hsy.
  assert (x ++ "data: " ++ y
          = p0 ++ concat_strings
                    (map (String.append "data: ") (ps ++ q0 :: qs))) as ->.
  { rewrite map_app, concat_strings_app. cbn [map].
    rewrite concat_strings_cons.
    rewrite Hx at 1. rewrite Hy at 1.
    rewrite !append_assoc. reflexivity. }
  inversion Hfx as [|? ? Hp0 Hps]; subst.
  rewrite Split_frames; [reflexivity|assumption|].
  apply Forall_app. split; assumption.
Qed.

Lemma extract_marker_app (x y : string) :
  extract.extractContentFromStream (x ++ "data: " ++ y)
  = extract.extractContentFromStream x ++ extract.extractContentFromStream y.
Proof.
  rewrite !extractContentFromStream_spec, Split_marker_app.
  now rewrite map_app, concat_strings_app.
Qed.

(** X9.  The streaming extractor works frame by frame: the text of two
    inputs joined by the marker is the text of the first followed by
    the text of the second, and so for any number of inputs. *)
Theorem stream_extraction_additive :
  (forall x y : string,
      extract.extractContentFromStream (x ++ "data: " ++ y)
      = extract.extractContentFromStream x
        ++ extract.extractContentFromStream y)
  /\ (forall (x : string) (ys : list string),
         extract.extractContentFromStream
           (x ++ concat_strings (map (String.append "data: ") ys))
         = extract.extractContentFromStream x
           ++ concat_strings (map extract.extractContentFromStream ys)).
Proof.
  split; [exact extract_marker_app|].
  intros x ys. revert x. induction ys as [|y ys IH]; intros x.
  - change (concat_strings (map (String.append "data: ") [])) with EmptyString.
    change (concat_strings (map extract.extractContentFromStream []))
      with EmptyString.
    now rewrite !append_nil_r.
  - cbn [map]. rewrite !concat_strings_cons.
    rewrite <- !append_assoc, (append_assoc x "data: " y), IH.
    now rewrite extract_marker_app, append_assoc.
Qed.

Section Padding.

Lemma asciiSpace_facts (c : ascii) :
  strings.asciiSpace (byte_of c) = true ->
  (utf8.RuneSelf <=? byte_of c)%N = false /\ (c =? "d")%char = false.
Proof.
  intros Hc. split.
  - unfold strings.asciiSpace, utf8.in_range, utf8.RuneSelf in *.
    apply N.leb_gt.
    apply orb_true_iff in Hc as [Hc|Hc].
    + apply andb_true_iff in Hc as [_ Hc]. apply N.leb_le in Hc. lia.
    + apply N.eqb_eq in Hc. lia.
  - destruct (Ascii.eqb_spec c "d") as [->|]; [|reflexivity].
    vm_compute in Hc. discriminate.
Qed.

Lemma skip_asciiSpace_rev_padding (pad acc : string) :
  padding pad = true ->
  strings.skip_asciiSpace (rev_bytes pad acc) = strings.skip_asciiSpace acc.
Proof.
  revert acc; induction pad as [|c pad IH]; intros acc Hp; [reflexivity|].
  simpl in Hp. apply andb_true_iff in Hp as [Hc Hp].
  cbn [rev_bytes]. rewrite IH by assumption.
  cbn [strings.skip_asciiSpace].
  destruct (asciiSpace_facts c Hc) as [-> _]. now rewrite Hc.
Qed.

Lemma TrimSpace_padded (a z : ascii) (m pad : string) :
  (byte_of a <? utf8.RuneSelf)%N = true -> strings.asciiSpace (byte_of a) = false ->
  (byte_of z <? utf8.RuneSelf)%N = true -> strings.asciiSpace (byte_of z) = false ->
  padding pad = true ->
  strings.TrimSpace (String a (m ++ String z pad))
  = String a (m ++ String z EmptyString).
Proof.
  intros Ha1 Ha2 Hz1 Hz2 Hp. unfold strings.TrimSpace.
  assert (forall c, (byte_of c <? utf8.RuneSelf)%N = true ->
                    (utf8.RuneSelf <=? byte_of c)%N = false) as Hlt.
  { intros c Hc. apply N.leb_gt. now apply N.ltb_lt. }
  cbn [strings.skip_asciiSpace]. rewrite (Hlt a Ha1), Ha2.
  assert (reverse_string (String a (m ++ String z pad))
          = rev_bytes pad (String z (rev_bytes m (String a EmptyString))))
    as ->.
  { unfold reverse_string. cbn [rev_bytes].
    rewrite rev_bytes_app. reflexivity. }
  rewrite skip_asciiSpace_rev_padding by assumption.
  cbn [strings.skip_asciiSpace].
  rewrite (Hlt z Hz1), Hz2.
  unfold reverse_string. cbn [rev_bytes].
  now rewrite rev_bytes_rev_bytes.
Qed.

Lemma Index_padding (pad : string) :
  padding pad = true -> strings.Index pad "data: " = None.
Proof.
  induction pad as [|c pad IH]; intros Hp; [reflexivity|].
  simpl in Hp. apply andb_true_iff in Hp as [Hc Hp].
  rewrite Index_cons.
  assert (strings.HasPrefix (String c pad) "data: " = false) as ->.
  { destruct (asciiSpace_facts c Hc) as [_ Hd].
    simpl. now rewrite Hd. }
  now rewrite IH.
Qed.

Lemma extract_no_marker (chunk : string) :
  strings.Index chunk "data: " = None ->
  extract.extractContentFromStream chunk = extract.spec_frame_text chunk.
Proof.
  intros Hi. rewrite extractContentFromStream_spec.
  rewrite Split_unfold by discriminate. rewrite Hi.
  cbn [map]. rewrite concat_strings_cons. apply append_nil_r.
Qed.

Lemma extract_marker_head (y : string) :
  extract.extractContentFromStream ("data: " ++ y)
  = extract.extractContentFromStream y.
Proof.
  change ("data: " ++ y) with (EmptyString ++ "data: " ++ y).
  rewrite extract_marker_app. reflexivity.
Qed.

End Padding.

Section Choices.
Import json.

Lemma scan_string_raw_fuel (n : nat) (s raw rest : string) :
  (String.length s <= n)%nat ->
  scan_string s = Some (raw, rest) ->
  forall rest', scan_string (raw ++ String DQ rest') = Some (raw, rest').
Proof.
  revert s raw rest; induction n as [|n IH]; intros s raw rest Hl;
    destruct s as [|c r]; simpl in Hl; try lia; try discriminate.
  cbn [scan_string].
  destruct (Ascii.eqb_spec c DQ) as [->|Hq].
  { intros [= <- <-] rest'. reflexivity. }
  destruct (Ascii.eqb_spec c "\") as [->|Hb].
  - destruct r as [|e r1]; [discriminate|].
    destruct (is_simple_escape e) eqn:He.
    + destruct (scan_string r1) as [[raw' rest0]|] eqn:Es; [|discriminate].
      intros [= <- <-] rest'.
      pose proof (IH r1 raw' rest0 ltac:(simpl in Hl; lia) Es rest') as Hr.
      cbn [String.append scan_string].
      change ("\" =? DQ)%char with false. change ("\" =? "\")%char with true.
      cbv iota. now rewrite He, Hr.
    + destruct (Ascii.eqb_spec e "u") as [->|Hu]; [|discriminate].
      destruct r1 as [|h1 [|h2 [|h3 [|h4 r5]]]]; try discriminate.
      destruct (is_hex h1 && is_hex h2 && is_hex h3 && is_hex h4) eqn:Hh;
        [|discriminate].
      destruct (scan_string r5) as [[raw' rest0]|] eqn:Es; [|discriminate].
      intros [= <- <-] rest'.
      pose proof (IH r5 raw' rest0 ltac:(simpl in Hl; lia) Es rest') as Hr.
      cbn [String.append scan_string].
      change ("\" =? DQ)%char with false. change ("\" =? "\")%char with true.
      change (is_simple_escape "u") with false.
      change ("u" =? "u")%char with true.
      cbv iota. now rewrite Hh, Hr.
  - destruct (byte_of c <? 32)%N eqn:Hlt; [discriminate|].
    destruct (scan_string r) as [[raw' rest0]|] eqn:Es; [|discriminate].
    intros [= <- <-] rest'.
    pose proof (IH r raw' rest0 ltac:(lia) Es rest') as Hr.
    cbn [String.append scan_string].
    destruct (Ascii.eqb_spec c DQ) as [|_]; [contradiction|].
    destruct (Ascii.eqb_spec c "\") as [|_]; [contradiction|].
    now rewrite Hlt, Hr.
Qed.

Lemma scan_string_body (raw rest : string) :
  string_body raw = true ->
  scan_string (raw ++ String DQ rest) = Some (raw, rest).
Proof.
  unfold string_body. intros Hb.
  destruct (scan_string (raw ++ String DQ EmptyString))
    as [[r [|? ?]]|] eqn:Es; try discriminate.
  apply String.eqb_eq in Hb. subst r.
  exact (scan_string_raw_fuel _ _ _ _ (le_n _) Es rest).
Qed.

Lemma string_body_plain (c : string) : plain c = true -> string_body c = true.
Proof.
  intros Hp. unfold string_body. rewrite scan_string_plain by assumption.
  apply String.eqb_refl.
Qed.

Lemma parse_value_string_body (f : nat) (d : N) (c rest : string) :
  string_body c = true ->
  parse_value (S f) d (String DQ (c ++ String DQ rest))
  = POk (VString (unquote 0 c), rest).
Proof.
  intros Hp. cbn [parse_value].
  change (DQ =? "{")%char with false. change (DQ =? "[")%char with false.
  change (DQ =? DQ)%char with true. cbv iota.
  now rewrite scan_string_body.
Qed.

(** How the parser reads the object of a choice, whatever follows. *)
Lemma parse_choice_object (kind content rest : string) (k : nat) (d : N) :
  plain kind = true -> string_body content = true ->
  (d + 2 < maxNestingDepth)%N ->
  parse_value (5 + k) d (choice_object kind content ++ rest)
  = POk (VMap [(kind, VMap [("content", VString (unquote 0 content))])], rest).
Proof.
  intros Hk Hp Hd. unfold choice_object.
  repeat (rewrite ?append_assoc; cbn [sq String.append]).
  apply parse_value_object; [lia|].
  apply (parse_members_single _ _ kind "{"); [exact Hk | reflexivity|].
  apply parse_value_object; [lia|].
  apply (parse_members_single _ _ "content" DQ); [reflexivity..|].
  apply parse_value_string_body. exact Hp.
Qed.

Lemma choice_list_head (kind c : string) (cs : list string) :
  exists t, choice_list kind (c :: cs) = String "{" t.
Proof.
  assert (exists t, choice_object kind c = String "{" t) as [t Ht].
  { unfold choice_object. cbn [sq String.append].
    rewrite ?append_assoc. cbn [String.append]. eexists. reflexivity. }
  destruct cs as [|c' cs]; cbn [choice_list]; rewrite Ht;
    cbn [String.append]; eexists; reflexivity.
Qed.

Lemma parse_choice_list (kind : string) (cs : list string) :
  plain kind = true ->
  forall (c rest : string) (k : nat) (d : N),
    Forall (fun c => string_body c = true) (c :: cs) ->
    (d + 2 < maxNestingDepth)%N ->
    parse_elements (List.length cs + 6 + k) d
      (choice_list kind (c :: cs) ++ String "]" rest)
    = POk (map (choice_value kind) (c :: cs), rest).
Proof.
  intros Hk. induction cs as [|c' cs IH]; intros c rest k d Hf Hd;
    inversion Hf as [|? ? Hc Hcs]; subst.
  - cbn [choice_list].
    change (List.length [] + 6 + k)%nat with (S (5 + k)).
    cbn [parse_elements].
    rewrite (parse_choice_object kind c (String "]" rest) k d) by assumption.
    reflexivity.
  - change (choice_list kind (c :: c' :: cs))
      with (choice_object kind c ++ "," ++ choice_list kind (c' :: cs)).
    rewrite !append_assoc.
    replace (List.length (c' :: cs) + 6 + k)%nat
      with (S (5 + (S (List.length cs + k)))) by (simpl; lia).
    cbn [parse_elements].
    rewrite parse_choice_object by assumption.
    cbn [pbind String.append].
    rewrite (skip_ws_cons "," _ eq_refl).
    change ("," =? ",")%char with true. cbv iota.
    destruct (choice_list_head kind c' cs) as [t Ht].
    rewrite Ht. cbn [String.append].
    rewrite (skip_ws_cons "{" _ eq_refl).
    change (String "{" (t ++ String "]" rest))
      with (String "{" t ++ String "]" rest).
    rewrite <- Ht.
    replace (5 + S (List.length cs + k))%nat
      with (List.length cs + 6 + k)%nat by lia.
    rewrite IH by assumption. reflexivity.
Qed.

Lemma parse_choices_body (kind c : string) (cs : list string) (k : nat) :
  plain kind = true ->
  Forall (fun c => string_body c = true) (c :: cs) ->
  parse_value (List.length cs + 9 + k) 0 (choices_body kind (c :: cs))
  = POk (VMap [("choices", VSlice (map (choice_value kind) (c :: cs)))],
         EmptyString).
Proof.
  intros Hk Hf. unfold choices_body.
  destruct (choice_list_head kind c cs) as [t Ht].
  replace (List.length cs + 9 + k)%nat
    with (S (S (S (List.length cs + 6 + k)))) by lia.
  cbn [sq String.append].
  apply parse_value_object; [reflexivity|].
  rewrite Ht. cbn [String.append].
  apply (parse_members_single _ _ "choices" "["); [reflexivity..|].
  apply parse_value_array; [reflexivity..|].
  change (String "{" (t ++ "]}")) with (String "{" t ++ String "]" "}").
  rewrite <- Ht.
  apply parse_choice_list; [assumption..|reflexivity].
Qed.

Lemma choice_list_length (kind : string) (cs : list string) :
  (List.length cs <= String.length (choice_list kind cs))%nat.
Proof.
  induction cs as [|c [|c' cs] IH]; [simpl; lia| |].
  - cbn [choice_list]. unfold choice_object.
    rewrite !length_append. simpl. lia.
  - change (choice_list kind (c :: c' :: cs))
      with (choice_object kind c ++ "," ++ choice_list kind (c' :: cs)).
    rewrite !length_append. simpl in *. lia.
Qed.

Lemma choices_no_range_error (kind : string) (cs : list string) :
  has_range_error
    (VMap [("choices", VSlice (map (choice_value kind) cs))]) = false.
Proof.
  cbn [has_range_error existsb snd]. rewrite orb_false_r.
  induction cs as [|c cs IH]; [reflexivity|].
  cbn [map existsb]. rewrite IH. reflexivity.
Qed.

Lemma Unmarshal_choices_body (kind c : string) (cs : list string) :
  plain kind = true ->
  Forall (fun c => string_body c = true) (c :: cs) ->
  Unmarshal (choices_body kind (c :: cs))
  = inr [("choices", VSlice (map (choice_value kind) (c :: cs)))].
Proof.
  intros Hk Hf. unfold Unmarshal, parse.
  assert (exists k, parse_fuel (choices_body kind (c :: cs))
                    = (List.length cs + 9 + k)%nat) as [k ->].
  { exists (parse_fuel (choices_body kind (c :: cs)) - (List.length cs + 9))%nat.
    pose proof (choice_list_length kind (c :: cs)) as Hl.
    unfold parse_fuel, choices_body. rewrite !length_append.
    simpl in *. lia. }
  change (skip_ws (choices_body kind (c :: cs)))
    with (choices_body kind (c :: cs)).
  rewrite parse_choices_body by assumption.
  cbn [pbind skip_ws]. now rewrite choices_no_range_error.
Qed.

End Choices.

Section ChoiceFrames.

Lemma choices_body_shape (kind : string) (cs : list string) :
  choices_body kind cs
  = String "{" ((sq "'choices':[" ++ choice_list kind cs ++ "]")
                ++ String "}" EmptyString).
Proof.
  unfold choices_body. cbn [sq String.append].
  repeat (rewrite ?append_assoc; cbn [String.append]). reflexivity.
Qed.

Lemma TrimSpace_choices_body (kind pad : string) (cs : list string) :
  padding pad = true ->
  strings.TrimSpace (choices_body kind cs ++ pad) = choices_body kind cs.
Proof.
  intros Hp. rewrite choices_body_shape.
  change (String "{" ?m ++ ?t) with (String "{" (m ++ t)).
  rewrite append_assoc. cbn [String.append].
  now rewrite TrimSpace_padded.
Qed.

Lemma Index_skip (c : ascii) (s : string) :
  (c =? "d")%char = false ->
  strings.Index s "data: " = None ->
  strings.Index (String c s) "data: " = None.
Proof.
  intros Hc Hs. rewrite Index_cons. cbn [strings.HasPrefix].
  now rewrite Hc, Hs.
Qed.

Lemma Index_choice_object (kind c tail : string) :
  strings.Index kind "data: " = None ->
  strings.Index c "data: " = None ->
  strings.Index tail "data: " = None ->
  strings.Index (choice_object kind c ++ tail) "data: " = None.
Proof.
  intros Hk Hc Ht.
  assert (choice_object kind c ++ tail
          = "{"
            ++ String DQ
                 (kind
                  ++ String DQ
                       (":{"
                        ++ String DQ
                             ("content"
                              ++ String DQ
                                   (":"
                                    ++ String DQ
                                         (c ++ String DQ ("}}" ++ tail)))))))
    as ->.
  { unfold choice_object. cbn [sq String.append].
    repeat (rewrite ?append_assoc; cbn [String.append]). reflexivity. }
  apply Index_marker_quote; [reflexivity|].
  apply Index_marker_quote; [exact Hk|].
  apply Index_marker_quote; [reflexivity|].
  apply Index_marker_quote; [reflexivity|].
  apply Index_marker_quote; [reflexivity|].
  apply Index_marker_quote; [exact Hc|].
  cbn [String.append]. now do 2 (apply Index_skip; [reflexivity|]).
Qed.

Lemma Index_choice_list (kind : string) (cs : list string) (tail : string) :
  strings.Index kind "data: " = None ->
  Forall (fun c => strings.Index c "data: " = None) cs ->
  strings.Index tail "data: " = None ->
  strings.Index (choice_list kind cs ++ tail) "data: " = None.
Proof.
  intros Hk Hf Ht. induction Hf as [|c cs Hc Hcs IH]; [exact Ht|].
  destruct cs as [|c' cs].
  - cbn [choice_list]. now apply Index_choice_object.
  - change (choice_list kind (c :: c' :: cs))
      with (choice_object kind c ++ "," ++ choice_list kind (c' :: cs)).
    rewrite !append_assoc. apply Index_choice_object; [exact Hk|exact Hc|].
    cbn [String.append]. apply Index_skip; [reflexivity | exact IH].
Qed.

Lemma Index_choices_body (kind : string) (cs : list string) (pad : string) :
  strings.Index kind "data: " = None ->
  Forall (fun c => strings.Index c "data: " = None) cs ->
  padding pad = true ->
  strings.Index (choices_body kind cs ++ pad) "data: " = None.
Proof.
  intros Hk Hf Hp.
  assert (choices_body kind cs ++ pad
          = "{" ++ String DQ
                     ("choices"
                      ++ String DQ (":[" ++ choice_list kind cs
                                    ++ "]}" ++ pad))) as ->.
  { unfold choices_body. cbn [sq String.append].
    repeat (rewrite ?append_assoc; cbn [String.append]). reflexivity. }
  apply Index_marker_quote; [reflexivity|].
  apply Index_marker_quote; [reflexivity|].
  cbn [String.append]. do 2 (apply Index_skip; [reflexivity|]).
  apply Index_choice_list; [exact Hk|exact Hf|].
  cbn [String.append]. do 2 (apply Index_skip; [reflexivity|]).
  now apply Index_padding.
Qed.

Lemma choice_fragments (cs : list string) :
  map extract.spec_choice_fragment (map (choice_value "delta") cs)
  = map (json.unquote 0) cs.
Proof. induction cs as [|c cs IH]; [reflexivity|]. cbn [map]. now rewrite IH. Qed.

Lemma frame_text_choices (cs : list string) (pad : string) :
  Forall (fun c => string_body c = true) cs -> padding pad = true ->
  extract.spec_frame_text (choices_body "delta" cs ++ pad)
  = concat_strings (map (json.unquote 0) cs).
Proof.
  intros Hf Hp. unfold extract.spec_frame_text.
  rewrite TrimSpace_choices_body by assumption.
  destruct cs as [|c cs]; [reflexivity|].
  assert (String.eqb (choices_body "delta" (c :: cs)) ""
          || String.eqb (choices_body "delta" (c :: cs)) "[DONE]" = false) as ->
    by reflexivity.
  rewrite Unmarshal_choices_body by auto.
  change (json.map_index [("choices", ?v)] "choices") with v.
  cbv iota. now rewrite choice_fragments.
Qed.

Lemma extract_frame_choices (cs : list string) (pad : string) :
  Forall (fun c => string_body c = true
                   /\ strings.Index c "data: " = None) cs ->
  padding pad = true ->
  extract.extractContentFromStream (choices_body "delta" cs ++ pad)
  = concat_strings (map (json.unquote 0) cs).
Proof.
  intros Hf Hp.
  assert (Forall (fun c => string_body c = true) cs) as Hb
    by (clear -Hf; induction Hf as [|? ? [? _] ? ?]; constructor; auto).
  assert (Forall (fun c => strings.Index c "data: " = None) cs) as Hi
    by (clear -Hf; induction Hf as [|? ? [_ ?] ? ?]; constructor; auto).
  rewrite extract_no_marker by now apply Index_choices_body.
  now apply frame_text_choices.
Qed.

End ChoiceFrames.

(** ** White space around a chunk *)

Section PaddingBoth.

Lemma skip_asciiSpace_padding (l s : string) :
  padding l = true ->
  strings.skip_asciiSpace (l ++ s) = strings.skip_asciiSpace s.
Proof.
  induction l as [|c l IH]; intros Hp; [reflexivity|].
  simpl in Hp. apply andb_true_iff in Hp as [Hc Hp].
  cbn [String.append strings.skip_asciiSpace].
  destruct (asciiSpace_facts c Hc) as [-> _]. rewrite Hc. now apply IH.
Qed.

Lemma TrimSpace_padded_both (a z : ascii) (l m r : string) :
  (byte_of a <? utf8.RuneSelf)%N = true -> strings.asciiSpace (byte_of a) = false ->
  (byte_of z <? utf8.RuneSelf)%N = true -> strings.asciiSpace (byte_of z) = false ->
  padding l = true -> padding r = true ->
  strings.TrimSpace (l ++ String a (m ++ String z r))
  = String a (m ++ String z EmptyString).
Proof.
  intros Ha1 Ha2 Hz1 Hz2 Hl Hr.
  rewrite <- (TrimSpace_padded a z m r) by assumption.
  unfold strings.TrimSpace. now rewrite skip_asciiSpace_padding.
Qed.

Lemma Index_padding_head (l s : string) :
  padding l = true -> strings.Index s "data: " = None ->
  strings.Index (l ++ s) "data: " = None.
Proof.
  induction l as [|c l IH]; intros Hp Hs; [exact Hs|].
  simpl in Hp. apply andb_true_iff in Hp as [Hc Hp].
  cbn [String.append]. apply Index_skip; [|now apply IH].
  now destruct (asciiSpace_facts c Hc).
Qed.

Lemma TrimSpace_one_choice_padded (kind content l r : string) :
  padding l = true -> padding r = true ->
  strings.TrimSpace (l ++ one_choice kind content ++ r)
  = one_choice kind content.
Proof.
  intros Hl Hr. rewrite one_choice_shape.
  change (String "{" ?m ++ ?t) with (String "{" (m ++ t)).
  rewrite append_assoc. cbn [String.append].
  now rewrite TrimSpace_padded_both.
Qed.

Lemma Index_one_choice_padded (fragment l r : string) :
  strings.Index fragment "data: " = None ->
  padding l = true -> padding r = true ->
  strings.Index (l ++ one_choice "delta" fragment ++ r) "data: " = None.
Proof.
  intros Hf Hl Hr. apply Index_padding_head; [exact Hl|].
  assert (one_choice "delta" fragment ++ r
          = sq "{'choices':[{'delta':{'content':"
            ++ String DQ (fragment ++ String DQ ("}}]}" ++ r)))
    as ->.
  { unfold one_choice. cbn [sq String.append].
    repeat (rewrite ?append_assoc; cbn [String.append]). reflexivity. }
  apply Index_marker_quote; [vm_compute; reflexivity|].
  apply Index_marker_quote; [exact Hf|].
  cbn [String.append]. do 4 (apply Index_skip; [reflexivity|]).
  now apply Index_padding.
Qed.

Lemma extract_one_choice_padded (fragment l r : string) :
  plain fragment = true -> strings.Index fragment "data: " = None ->
  padding l = true -> padding r = true ->
  extract.extractContentFromStream (l ++ one_choice "delta" fragment ++ r)
  = fragment.
Proof.
  intros Hp Hf Hl Hr.
  rewrite extract_no_marker by now apply Index_one_choice_padded.
  unfold extract.spec_frame_text.
  rewrite TrimSpace_one_choice_padded by assumption.
  assert (String.eqb (one_choice "delta" fragment) ""
          || String.eqb (one_choice "delta" fragment) "[DONE]" = false) as ->
    by reflexivity.
  rewrite Unmarshal_one_choice by auto.
  cbn. apply append_nil_r.
Qed.

End PaddingBoth.

(** C10.  The streaming extractor cuts its input at every instance of
    the six bytes [data: ], wherever they stand: every input is the
    chunks [Split] returns joined by the marker, no chunk keeps a
    marker, and conversely pieces without a marker joined by the
    marker are split into exactly these pieces.  An input without any
    marker is one chunk, which is trimmed and parsed as JSON, so the
    unprefixed chunk of the example gives [x]; and a marker inside a
    JSON string value is a cut as well, which loses the frame.  The
    trimming takes the white space of Unicode off both ends of the
    chunk and nothing else: a chunk of one choice between any two runs
    of ASCII white space, the vertical tab and the form feed among
    them, which JSON does not skip, is trimmed to the chunk and gives
    its fragment; so does the chunk of the example between white space
    beyond ASCII; a zero width space is not trimmed, which leaves a
    chunk that is not parsed; and white space inside the chunk stays. *)
Theorem stream_split_at_every_marker :
  (forall content,
      exists p0 ps,
        strings.Split content "data: " = p0 :: ps
        /\ content = p0 ++ concat_strings (map (String.append "data: ") ps)
        /\ Forall (fun p => strings.Index p "data: " = None) (p0 :: ps))
  /\ (forall (p0 : string) (ps : list string),
         strings.Index p0 "data: " = None ->
         Forall (fun p => strings.Index p "data: " = None) ps ->
         strings.Split (p0 ++ concat_strings (map (String.append "data: ") ps))
           "data: " = p0 :: ps)
  /\ (forall content,
         (forall a b, content <> a ++ "data: " ++ b) ->
         strings.Split content "data: " = [content]
         /\ extract.extractContentFromStream content
            = extract.stream_chunk EmptyString content)
  /\ strings.Index unprefixed_chunk "data: " = None
  /\ extract.extractContentFromStream unprefixed_chunk = "x"
  /\ strings.Split (frame (sq "{'choices':[{'delta':{'content':'my data: x'}}]}"))
       "data: "
     = [EmptyString; sq "{'choices':[{'delta':{'content':'my ";
        sq "x'}}]}" ++ String LF (String LF EmptyString)]
  /\ extract.extractContentFromStream
       (frame (sq "{'choices':[{'delta':{'content':'my data: x'}}]}"))
     = EmptyString
  /\ (forall fragment l r,
         plain fragment = true ->
         strings.Index fragment "data: " = None ->
         padding l = true -> padding r = true ->
         strings.Split (l ++ one_choice "delta" fragment ++ r) "data: "
         = [l ++ one_choice "delta" fragment ++ r]
         /\ strings.TrimSpace (l ++ one_choice "delta" fragment ++ r)
            = one_choice "delta" fragment
         /\ extract.extractContentFromStream
              (l ++ one_choice "delta" fragment ++ r)
            = fragment)
  /\ strings.TrimSpace
       (String "011" (NBSP ++ IDSP ++ unprefixed_chunk ++ LSEP
                      ++ String "012" NEL))
     = unprefixed_chunk
  /\ extract.extractContentFromStream
       (String "011" (NBSP ++ IDSP ++ unprefixed_chunk ++ LSEP
                      ++ String "012" NEL))
     = "x"
  /\ strings.TrimSpace (ZWSP ++ unprefixed_chunk ++ " ")
     = ZWSP ++ unprefixed_chunk
  /\ extract.extractContentFromStream (ZWSP ++ unprefixed_chunk ++ " ")
     = EmptyString
  /\ strings.TrimSpace (sq " {'a': 'b  c'} ") = sq "{'a': 'b  c'}".
Proof.
  split; [intros content; apply (Split_pieces_fuel (String.length content));
          lia|].
  split; [intros p0 ps; apply Split_frames|].
  split.
  { intros content Hn. apply Index_None_iff in Hn.
    assert (strings.Split content "data: " = [content]) as Hs
      by (rewrite Split_unfold by discriminate; now rewrite Hn).
    split; [exact Hs|].
    unfold extract.extractContentFromStream. now rewrite Hs. }
  do 4 (split; [vm_compute; reflexivity|]).
  split.
  { intros fragment l r Hp Hf Hl Hr. split; [|split].
    - rewrite Split_unfold by discriminate.
      now rewrite Index_one_choice_padded.
    - now apply TrimSpace_one_choice_padded.
    - now apply extract_one_choice_padded. }
  repeat split; vm_compute; reflexivity.
Qed.

(** C10 on the unprefixed chunk, bare and between a vertical tab and a
    form feed. *)
Lemma stream_split_witness :
  (strings.Split unprefixed_chunk "data: " = [unprefixed_chunk]
   /\ extract.extractContentFromStream unprefixed_chunk
      = extract.stream_chunk EmptyString unprefixed_chunk)
  /\ extract.extractContentFromStream
       (String "011" (String "009" EmptyString) ++ unprefixed_chunk
        ++ String "012" (String "013" (String LF EmptyString)))
     = "x".
Proof.
  split.
  - apply (proj1 (proj2 (proj2 stream_split_at_every_marker))).
    apply Index_None_iff. vm_compute. reflexivity.
  - apply (proj1 (proj2 (proj2 (proj2 (proj2 (proj2 (proj2 (proj2
             stream_split_at_every_marker))))))) "x"
             (String "011" (String "009" EmptyString))
             (String "012" (String "013" (String LF EmptyString))));
      reflexivity.
Defined.

(** ** Frames with choices and terminators *)

Lemma extract_frame_done (pad : string) :
  padding pad = true ->
  extract.extractContentFromStream ("[DONE]" ++ pad) = EmptyString.
Proof.
  intros Hp.
  rewrite extract_no_marker.
  - unfold extract.spec_frame_text.
    change ("[DONE]" ++ pad) with (String "[" ("DONE" ++ String "]" pad)).
    rewrite TrimSpace_padded by (assumption || reflexivity).
    reflexivity.
  - cbn [String.append]. do 6 (apply Index_skip; [reflexivity|]).
    now apply Index_padding.
Qed.

Lemma extract_frame_payload (f : option (list string) * string) :
  frame_ok f ->
  extract.extractContentFromStream (frame_payload (fst f) ++ snd f)
  = frame_content (fst f).
Proof.
  destruct f as [[cs|] pad]; intros [Hc Hp]; cbn [fst snd] in *.
  - now apply extract_frame_choices.
  - now apply extract_frame_done.
Qed.

(** X10.  The streaming extractor on the frames of an OpenAI-compatible
    upstream, each a chunk with its choices or the terminator [DONE]:
    whatever ASCII white space delimits the frames, and wherever the
    terminators stand, the result is the decoded [content] of every
    choice of every chunk, in order. *)
Theorem stream_extraction_frames
    (frames : list (option (list string) * string)) :
  Forall frame_ok frames ->
  extract.extractContentFromStream
    (concat_strings
       (map (fun f => "data: " ++ frame_payload (fst f) ++ snd f) frames))
  = concat_strings (map (fun f => frame_content (fst f)) frames).
Proof.
  induction 1 as [|f fs Hf Hfs IH]; [reflexivity|].
  cbn [map]. rewrite !concat_strings_cons.
  rewrite <- IH. clear IH.
  rewrite !append_assoc, extract_marker_head.
  destruct fs as [|f' fs'].
  - cbn [map]. change (concat_strings []) with EmptyString.
    rewrite ?append_nil_r.
    rewrite extract_frame_payload by assumption.
    change (extract.extractContentFromStream EmptyString) with EmptyString.
    now rewrite ?append_nil_r.
  - cbn [map]. rewrite concat_strings_cons.
    rewrite !append_assoc.
    rewrite <- (append_assoc (frame_payload (fst f)) (snd f)).
    rewrite extract_marker_app.
    rewrite extract_frame_payload by assumption.
    rewrite extract_marker_head. reflexivity.
Qed.

(** X10 on five frames: two choices in the first, an escaped line feed
    and an escaped quote in the third, a terminator in the middle and
    one at the end, and three ways to end a frame. *)
Lemma stream_extraction_frames_witness :
  extract.extractContentFromStream
    (sq "data: {'choices':[{'delta':{'content':'Hel'}},{'delta':{'content':'lo'}}]}"
     ++ String "013" (String LF (String "013" (String LF
          ("data: [DONE]"
           ++ String LF
                (sq "data: {'choices':[{'delta':{'content':'\n'}},{'delta':{'content':'\'you'}}]}"
                 ++ String LF
                      (sq "data: {'choices':[{'delta':{'content':'!'}}]}"
                       ++ "data: [DONE]" ++ String LF (String LF ""))))))))
  = "Hello" ++ String LF (String DQ "you!").
Proof.
  apply (stream_extraction_frames
           [(Some ["Hel"; "lo"],
             String "013" (String LF (String "013" (String LF ""))));
            (None, String LF "");
            (Some ["\n"; String "\" (String DQ "you")], String LF "");
            (Some ["!"], "");
            (None, String LF (String LF ""))]).
  repeat constructor.
Defined.

(** X11.  The non-streaming extractor returns the decoded [content] of
    the first choice, and of no other. *)
Theorem response_extraction_first_choice (c : string) (cs : list string) :
  Forall (fun c => string_body c = true) (c :: cs) ->
  extract.extractContentFromResponse (choices_body "message" (c :: cs))
  = json.unquote 0 c.
Proof.
  intros Hf. unfold extract.extractContentFromResponse.
  rewrite Unmarshal_choices_body by auto. reflexivity.
Qed.

(** X11 on a response with two choices and escapes in the first. *)
Lemma response_extraction_first_choice_witness :
  extract.extractContentFromResponse
    (sq "{'choices':[{'message':{'content':'caf\u00e9\tau lait'}},{'message':{'content':'second'}}]}")
  = "caf" ++ String "195" (String "169" (String "009" "au lait")).
Proof.
  apply (response_extraction_first_choice "caf\u00e9\tau lait" ["second"]).
  repeat constructor.
Defined.

(** X12.  The two extractors do not read each other's bodies.  A body
    that starts with the marker of a frame is no JSON text, so the
    non-streaming extractor gives its placeholder for it; and the
    streaming extractor finds no [delta] in the choices of a whole
    response, so it gives the empty text for it. *)
Theorem extractors_on_the_other_format :
  (forall rest,
      extract.extractContentFromResponse ("data: " ++ rest)
      = "Failed to parse response JSON")
  /\ (forall (c : string) (cs : list string) (pad : string),
         Forall (fun c => string_body c = true
                          /\ strings.Index c "data: " = None) (c :: cs) ->
         padding pad = true ->
         extract.extractContentFromStream
           (choices_body "message" (c :: cs) ++ pad)
         = EmptyString).
Proof.
  split.
  - intros rest. unfold extract.extractContentFromResponse, json.Unmarshal,
      json.parse, json.parse_fuel.
    cbn [String.append String.length Nat.mul Nat.add].
    destruct (_ + 2)%nat as [|f] eqn:Ef; [lia|].
    reflexivity.
  - intros c cs pad Hf Hp.
    assert (Forall (fun c => string_body c = true) (c :: cs)) as Hb
      by (clear -Hf; induction Hf as [|? ? [? _] ? ?]; constructor; auto).
    assert (Forall (fun c => strings.Index c "data: " = None) (c :: cs)) as Hi
      by (clear -Hf; induction Hf as [|? ? [_ ?] ? ?]; constructor; auto).
    rewrite extract_no_marker
      by (apply Index_choices_body; [reflexivity | exact Hi | exact Hp]).
    unfold extract.spec_frame_text.
    rewrite TrimSpace_choices_body by assumption.
    assert (String.eqb (choices_body "message" (c :: cs)) ""
            || String.eqb (choices_body "message" (c :: cs)) "[DONE]" = false)
      as -> by reflexivity.
    rewrite Unmarshal_choices_body by auto.
    change (json.map_index [("choices", ?v)] "choices") with v.
    cbv iota. clear. generalize (c :: cs) as l.
    induction l as [|x l IH]; [reflexivity|].
    cbn [map]. rewrite concat_strings_cons, IH. reflexivity.
Qed.

(** ** A marker inside the content *)

Section Quotes.
Import grammar.

Lemma count_byte_app (b : ascii) (x y : string) :
  count_byte b (x ++ y) = (count_byte b x + count_byte b y)%nat.
Proof. induction x as [|c x IH]; simpl; [reflexivity|]. rewrite IH. lia. Qed.

Lemma balanced_refl (s : string) : balanced s s.
Proof. intros Hs. split; [exact Hs|]. exists 0%nat. lia. Qed.

Lemma balanced_trans (a b c : string) :
  balanced a b -> balanced b c -> balanced a c.
Proof.
  intros Hab Hbc Ha. destruct (Hab Ha) as (Hb & k1 & E1).
  destruct (Hbc Hb) as (Hc & k2 & E2). split; [exact Hc|].
  exists (k1 + k2)%nat. lia.
Qed.

Lemma balanced_skip (c : ascii) (s r : string) :
  c <> DQ -> balanced s r -> balanced (String c s) r.
Proof.
  intros Hc Hsr Hs. simpl in Hs.
  destruct (Ascii.eqb_spec c "\"); [discriminate|]. simpl in Hs.
  destruct (Hsr Hs) as (Hr & k & E). split; [exact Hr|].
  exists k. simpl. destruct (Ascii.eqb_spec c DQ); [contradiction|]. lia.
Qed.

Lemma balanced_quoted (s r : string) :
  balanced s (String DQ r) -> balanced (String DQ s) r.
Proof.
  intros Hsr Hs. simpl in Hs. destruct (Hsr Hs) as (Hr & k & E).
  simpl in Hr. split; [exact Hr|].
  exists (S k). simpl in *. lia.
Qed.

Lemma whitespace_no_quote (c : ascii) : whitespace c -> c <> DQ.
Proof. unfold whitespace. intros H ->. intuition discriminate. Qed.

Lemma digit_no_quote (c : ascii) : digit c -> c <> DQ.
Proof. unfold digit. intros H ->. vm_compute in H. destruct H as [H _]. now apply H. Qed.

Lemma ws_balanced (s r : string) : ws s r -> balanced s r.
Proof.
  induction 1; [apply balanced_refl|].
  apply balanced_skip; [now apply whitespace_no_quote | assumption].
Qed.

Lemma digits_balanced (s r : string) : digits s r -> balanced s r.
Proof.
  induction 1; [apply balanced_refl|].
  apply balanced_skip; [now apply digit_no_quote | assumption].
Qed.

Lemma digits1_balanced (s r : string) : digits1 s r -> balanced s r.
Proof.
  destruct 1. apply balanced_skip;
    [now apply digit_no_quote | now apply digits_balanced].
Qed.

Lemma number_balanced (s r : string) : number s r -> balanced s r.
Proof.
  destruct 1 as [s s0 s1 s2 r Hm Hi Hf He].
  apply (balanced_trans _ s0).
  { destruct Hm; [apply balanced_refl|].
    apply balanced_skip; [discriminate | apply balanced_refl]. }
  apply (balanced_trans _ s1).
  { destruct Hi as [|c ? ? Hc Hd].
    - apply balanced_skip; [discriminate | apply balanced_refl].
    - apply balanced_skip; [|now apply digits_balanced].
      unfold digit1_9 in Hc. intros ->. vm_compute in Hc.
      destruct Hc as [Hc _]. now apply Hc. }
  apply (balanced_trans _ s2).
  { destruct Hf; [apply balanced_refl|].
    apply balanced_skip; [discriminate | now apply digits1_balanced]. }
  destruct He as [|e ? s3 ? He Hs Hd]; [apply balanced_refl|].
  apply balanced_skip; [destruct He; subst; discriminate|].
  apply (balanced_trans _ s3); [|now apply digits1_balanced].
  destruct Hs; [apply balanced_refl| |];
    (apply balanced_skip; [discriminate | apply balanced_refl]).
Qed.

Lemma chars_balanced (s r : string) : chars s r -> balanced s r.
Proof.
  induction 1 as [|c s r Hq Hb Hc Hch IH|e s r He Hch IH
                  |h1 h2 h3 h4 s r H1 H2 H3 H4 Hch IH].
  - apply balanced_refl.
  - now apply balanced_skip.
  - intros Hs. simpl in Hs. discriminate.
  - intros Hs. simpl in Hs. discriminate.
Qed.

Lemma grammar_balanced :
  (forall s r, value s r -> balanced s r)
  /\ (forall s r, elements s r -> balanced s r)
  /\ (forall s r, members s r -> balanced s r).
Proof.
  apply grammar_mind; intros.
  - do 4 (apply balanced_skip; [discriminate|]). apply balanced_refl.
  - do 4 (apply balanced_skip; [discriminate|]). apply balanced_refl.
  - do 5 (apply balanced_skip; [discriminate|]). apply balanced_refl.
  - now apply number_balanced.
  - apply balanced_quoted. now apply chars_balanced.
  - apply balanced_skip; [discriminate|].
    eapply balanced_trans; [eapply ws_balanced; eassumption|].
    apply balanced_skip; [discriminate | apply balanced_refl].
  - apply balanced_skip; [discriminate | assumption].
  - apply balanced_skip; [discriminate|].
    eapply balanced_trans; [eapply ws_balanced; eassumption|].
    apply balanced_skip; [discriminate | apply balanced_refl].
  - apply balanced_skip; [discriminate | assumption].
  - eapply balanced_trans; [eapply ws_balanced; eassumption|].
    eapply balanced_trans; [eassumption|].
    eapply balanced_trans; [eapply ws_balanced; eassumption|].
    apply balanced_skip; [discriminate | apply balanced_refl].
  - eapply balanced_trans; [eapply ws_balanced; eassumption|].
    eapply balanced_trans; [eassumption|].
    eapply balanced_trans; [eapply ws_balanced; eassumption|].
    apply balanced_skip; [discriminate | assumption].
  - eapply balanced_trans; [eapply ws_balanced; eassumption|].
    eapply balanced_trans;
      [apply balanced_quoted; eapply chars_balanced; eassumption|].
    eapply balanced_trans; [eapply ws_balanced; eassumption|].
    apply balanced_skip; [discriminate|].
    eapply balanced_trans; [eapply ws_balanced; eassumption|].
    eapply balanced_trans; [eassumption|].
    eapply balanced_trans; [eapply ws_balanced; eassumption|].
    apply balanced_skip; [discriminate | apply balanced_refl].
  - eapply balanced_trans; [eapply ws_balanced; eassumption|].
    eapply balanced_trans;
      [apply balanced_quoted; eapply chars_balanced; eassumption|].
    eapply balanced_trans; [eapply ws_balanced; eassumption|].
    apply balanced_skip; [discriminate|].
    eapply balanced_trans; [eapply ws_balanced; eassumption|].
    eapply balanced_trans; [eassumption|].
    eapply balanced_trans; [eapply ws_balanced; eassumption|].
    apply balanced_skip; [discriminate | assumption].
Qed.

(** A JSON text without a backslash holds an even number of quotes. *)
Lemma text_even_quotes (s : string) :
  text s -> count_byte "\" s = 0%nat ->
  exists k, count_byte DQ s = (2 * k)%nat.
Proof.
  intros (s1 & s2 & H1 & Hv & H2) Hs.
  assert (balanced s EmptyString) as Hb.
  { eapply balanced_trans; [eapply ws_balanced; eassumption|].
    eapply balanced_trans; [eapply (proj1 grammar_balanced); eassumption|].
    now apply ws_balanced. }
  destruct (Hb Hs) as (_ & k & E). exists k. simpl in E. lia.
Qed.

End Quotes.

Section Unquoted.
Import json.

(** A chunk without a backslash and with an odd number of quotes is not
    decoded. *)
Lemma Unmarshal_odd_quotes (s : string) (k : nat) :
  count_byte "\" s = 0%nat -> count_byte DQ s = (2 * k + 1)%nat ->
  exists e, Unmarshal s = inl e.
Proof.
  intros Hs Hq. unfold Unmarshal.
  destruct (parse s) as [v| |] eqn:Ep; try (eexists; reflexivity).
  exfalso. apply parse_sound in Ep.
  destruct (text_even_quotes s Ep Hs) as [k' E]. lia.
Qed.

Lemma count_byte_skip_ws (b : ascii) (s : string) :
  (count_byte b (skip_ws s) <= count_byte b s)%nat.
Proof.
  induction s as [|c s IH]; simpl; [lia|].
  destruct (isSpace c); simpl; lia.
Qed.

(** A chunk without a quote is decoded, if at all, into a map without
    entries. *)
Lemma Unmarshal_no_quote (s : string) (m : gomap) :
  count_byte DQ s = 0%nat -> Unmarshal s = inr m -> m = [].
Proof.
  intros Hq. unfold Unmarshal, parse.
  pose proof (count_byte_skip_ws DQ s) as Hw.
  destruct (parse_fuel s) as [|f]; [discriminate|].
  destruct (skip_ws s) as [|c r]; [discriminate|].
  cbn [parse_value].
  destruct (c =? "{")%char.
  - destruct (maxNestingDepth <=? 0)%N; [discriminate|].
    pose proof (count_byte_skip_ws DQ r) as Hr.
    destruct (skip_ws r) as [|c1 r1]; [discriminate|].
    destruct (c1 =? "}")%char.
    + cbn [pbind]. destruct (skip_ws r1); [|discriminate].
      cbn [has_range_error existsb]. now intros [= <-].
    + assert ((c1 =? DQ)%char = false) as Hc1.
      { destruct (Ascii.eqb_spec c1 DQ) as [->|]; [|reflexivity].
        simpl in Hw, Hr. destruct (c =? DQ)%char; simpl in Hw; lia. }
      destruct f as [|f]; [discriminate|].
      cbn [parse_members]. rewrite Hc1. discriminate.
  - destruct (c =? "[")%char.
    { destruct (maxNestingDepth <=? 0)%N; [discriminate|].
      destruct (skip_ws r) as [|c1 r1]; [discriminate|].
      destruct (c1 =? "]")%char.
      - cbn [pbind]. destruct (skip_ws r1); discriminate.
      - destruct (parse_elements f (0 + 1) (String c1 r1)) as [[l rest]| |];
          cbn [pbind]; try discriminate.
        destruct (skip_ws rest); discriminate. }
    destruct (c =? DQ)%char.
    { destruct (scan_string r) as [[raw rest]|]; cbn [pbind];
        [|discriminate]. destruct (skip_ws rest); discriminate. }
    destruct (c =? "t")%char.
    { destruct (strings.HasPrefix r "rue"); cbn [pbind]; [|discriminate].
      destruct (skip_ws _); discriminate. }
    destruct (c =? "f")%char.
    { destruct (strings.HasPrefix r "alse"); cbn [pbind]; [|discriminate].
      destruct (skip_ws _); discriminate. }
    destruct (c =? "n")%char.
    { destruct (strings.HasPrefix r "ull"); cbn [pbind]; [|discriminate].
      destruct (skip_ws _); [|discriminate]. now intros [= <-]. }
    destruct ((c =? "-")%char || is_digit c).
    { destruct (scan_number (String c r)) as [[lit rest]|]; cbn [pbind];
        [|discriminate]. destruct (skip_ws rest); discriminate. }
    discriminate.
Qed.

End Unquoted.

Section LostFrames.

Lemma ascii_only_app (x y : string) :
  ascii_only (x ++ y) = ascii_only x && ascii_only y.
Proof.
  induction x as [|c x IH]; simpl; [reflexivity|].
  now rewrite IH, andb_assoc.
Qed.

Lemma count_byte_rev_bytes (b : ascii) (x acc : string) :
  count_byte b (rev_bytes x acc) = (count_byte b x + count_byte b acc)%nat.
Proof.
  revert acc; induction x as [|c x IH]; intros acc; simpl; [reflexivity|].
  rewrite IH. simpl. lia.
Qed.

Lemma ascii_only_rev_bytes (x acc : string) :
  ascii_only (rev_bytes x acc) = ascii_only x && ascii_only acc.
Proof.
  revert acc; induction x as [|c x IH]; intros acc; simpl; [reflexivity|].
  rewrite IH. simpl.
  destruct (byte_of c <? utf8.RuneSelf)%N, (ascii_only x); reflexivity.
Qed.

(** On ASCII the first loop of [TrimSpace] never meets a byte of a
    multi-byte rune, and drops white space only. *)
Lemma skip_asciiSpace_ascii (s : string) :
  ascii_only s = true ->
  exists s1,
    strings.skip_asciiSpace s = inl s1
    /\ ascii_only s1 = true
    /\ forall b, strings.asciiSpace (byte_of b) = false ->
                 count_byte b s1 = count_byte b s.
Proof.
  induction s as [|c s IH]; intros Ha.
  - exists EmptyString. auto.
  - simpl in Ha. apply andb_true_iff in Ha as [Hc Hs].
    cbn [strings.skip_asciiSpace].
    assert ((utf8.RuneSelf <=? byte_of c)%N = false) as ->
      by (apply N.leb_gt; now apply N.ltb_lt).
    destruct (strings.asciiSpace (byte_of c)) eqn:Hsp.
    + destruct (IH Hs) as (s1 & E1 & A1 & C1). exists s1.
      split; [exact E1|]. split; [exact A1|].
      intros b Hb. rewrite (C1 b Hb). simpl.
      destruct (Ascii.eqb_spec c b) as [->|]; [congruence | reflexivity].
    + exists (String c s). split; [reflexivity|]. split; [|reflexivity].
      simpl. now rewrite Hc, Hs.
Qed.

Lemma TrimSpace_count (b : ascii) (s : string) :
  ascii_only s = true -> strings.asciiSpace (byte_of b) = false ->
  count_byte b (strings.TrimSpace s) = count_byte b s.
Proof.
  intros Ha Hb. unfold strings.TrimSpace.
  destruct (skip_asciiSpace_ascii s Ha) as (s1 & -> & A1 & C1).
  assert (ascii_only (reverse_string s1) = true) as Ar.
  { unfold reverse_string. rewrite ascii_only_rev_bytes, A1. reflexivity. }
  destruct (skip_asciiSpace_ascii _ Ar) as (r & -> & _ & C2).
  unfold reverse_string in *.
  rewrite count_byte_rev_bytes, (C2 b Hb), count_byte_rev_bytes, (C1 b Hb).
  simpl. lia.
Qed.

(** A chunk of ASCII without a backslash adds nothing when it has no
    quote or an odd number of quotes. *)
Lemma frame_text_unbalanced (s : string) :
  ascii_only s = true -> count_byte "\" s = 0%nat ->
  (count_byte DQ s = 0%nat \/ exists k, count_byte DQ s = (2 * k + 1)%nat) ->
  extract.spec_frame_text s = EmptyString.
Proof.
  intros Ha Hs Hq. unfold extract.spec_frame_text.
  pose proof (TrimSpace_count "\" s Ha eq_refl) as Tb.
  pose proof (TrimSpace_count DQ s Ha eq_refl) as Tq.
  destruct (_ || _); [reflexivity|].
  destruct (json.Unmarshal (strings.TrimSpace s)) as [e|m] eqn:Eu;
    [reflexivity|].
  destruct Hq as [Hz|[k Hk]].
  - apply Unmarshal_no_quote in Eu; [|lia]. subst m. reflexivity.
  - destruct (Unmarshal_odd_quotes (strings.TrimSpace s) k) as [e He];
      [lia | lia | congruence].
Qed.

Lemma quiet_app (x y : string) : quiet (x ++ y) <-> quiet x /\ quiet y.
Proof.
  unfold quiet. rewrite ascii_only_app, !count_byte_app, andb_true_iff.
  intuition lia.
Qed.

Lemma plain_quiet (c : string) : plain c = true -> quiet c.
Proof.
  induction c as [|x c IH]; intros Hp; [repeat split|].
  simpl in Hp. apply andb_true_iff in Hp as [Hx Hc].
  destruct (plain_byte_facts x Hx) as (H1 & H2 & _ & H4).
  destruct (IH Hc) as (A & B & Q). unfold quiet. simpl.
  rewrite H1, H2, H4, A, B, Q. auto.
Qed.

Lemma padding_quiet (pad : string) : padding pad = true -> quiet pad.
Proof.
  induction pad as [|c pad IH]; intros Hp; [repeat split|].
  simpl in Hp. apply andb_true_iff in Hp as [Hc Hp].
  destruct (IH Hp) as (A & B & Q). unfold quiet. simpl.
  destruct (asciiSpace_facts c Hc) as [Hr _].
  assert ((byte_of c <? utf8.RuneSelf)%N = true) as ->
    by (apply N.ltb_lt; now apply N.leb_gt in Hr).
  destruct (Ascii.eqb_spec c "\") as [->|]; [vm_compute in Hc; discriminate|].
  destruct (Ascii.eqb_spec c DQ) as [->|]; [vm_compute in Hc; discriminate|].
  rewrite A, B, Q. auto.
Qed.

Lemma extract_quiet_fuel (n : nat) (s : string) :
  (String.length s <= n)%nat -> quiet s ->
  extract.extractContentFromStream s = EmptyString.
Proof.
  revert s; induction n as [|n IH]; intros s Hl Hq;
    destruct (strings.Index s "data: ") as [i|] eqn:Ei;
    try (rewrite extract_no_marker by assumption;
         destruct Hq as (A & B & Q); apply frame_text_unbalanced; auto).
  - destruct (Index_Some _ _ _ Ei) as (_ & _ & Hb). simpl in Hb. lia.
  - destruct (Index_Some _ _ _ Ei) as (Es & _ & Hb).
    pose proof (length_drop_bytes (i + String.length "data: ") s) as Hd.
    remember (take_bytes i s) as a eqn:Ha.
    remember (drop_bytes (i + String.length "data: ") s) as b eqn:Hb'.
    clear Ha Hb' Ei. subst s.
    apply quiet_app in Hq as [Hqa Hq]. apply quiet_app in Hq as [_ Hqb].
    rewrite !length_append in Hl. simpl in Hl.
    rewrite extract_marker_app.
    rewrite (IH a), (IH b) by (assumption || lia). reflexivity.
Qed.

Lemma extract_quiet (s : string) :
  quiet s -> extract.extractContentFromStream s = EmptyString.
Proof. apply (extract_quiet_fuel (String.length s)). lia. Qed.

Lemma plain_app (x y : string) : plain (x ++ y) = plain x && plain y.
Proof.
  induction x as [|c x IH]; simpl; [reflexivity|].
  now rewrite IH, andb_assoc.
Qed.

(** The piece in front of a marker inside the content: the head of the
    frame up to the marker has seven quotes. *)
Lemma extract_frame_head (u : string) :
  plain u = true ->
  extract.extractContentFromStream
    (sq "{'choices':[{'delta':{'content':'" ++ u) = EmptyString.
Proof.
  intros Hu.
  assert (forall a, quiet a -> strings.Index a "data: " = None ->
            extract.extractContentFromStream
              (sq "{'choices':[{'delta':{'content':'" ++ a) = EmptyString)
    as Hhead.
  { intros a (A & B & Q) Hi.
    assert (sq "{'choices':[{'delta':{'content':'" ++ a
            = sq "{'choices':[{'delta':{'content':" ++ String DQ a) as E
      by reflexivity.
    rewrite extract_no_marker
      by (rewrite E; apply Index_marker_quote; [reflexivity | exact Hi]).
    apply frame_text_unbalanced.
    - rewrite ascii_only_app, A. reflexivity.
    - rewrite count_byte_app, B. reflexivity.
    - right. exists 3%nat. rewrite count_byte_app, Q. reflexivity. }
  destruct (strings.Index u "data: ") as [i|] eqn:Ei.
  - destruct (Index_Some _ _ _ Ei) as (Es & _ & _).
    pose proof (Index_take u "data: " i ltac:(discriminate) Ei) as Ht.
    remember (take_bytes i u) as a eqn:Ha.
    remember (drop_bytes (i + String.length "data: ") u) as b eqn:Hb.
    clear Ha Hb Ei. subst u.
    rewrite !plain_app in Hu.
    apply andb_true_iff in Hu as [Hpa Hu]. apply andb_true_iff in Hu as [_ Hpb].
    rewrite <- append_assoc, extract_marker_app.
    rewrite Hhead by (assumption || now apply plain_quiet).
    now rewrite extract_quiet by now apply plain_quiet.
  - now apply Hhead; [apply plain_quiet|].
Qed.

(** The piece behind a marker inside the content: the tail of the
    frame has one quote. *)
Lemma extract_frame_tail_fuel (n : nat) (v pad : string) :
  (String.length v <= n)%nat -> plain v = true -> padding pad = true ->
  extract.extractContentFromStream (v ++ sq "'}}]}" ++ pad) = EmptyString.
Proof.
  intros Hl Hv Hp.
  assert (forall v, plain v = true -> strings.Index v "data: " = None ->
            extract.extractContentFromStream (v ++ sq "'}}]}" ++ pad)
            = EmptyString) as Htail.
  { clear v Hl Hv. intros v Hv Ei.
    destruct (plain_quiet v Hv) as (A & B & Q).
    destruct (padding_quiet pad Hp) as (A' & B' & Q').
    rewrite extract_no_marker.
    - apply frame_text_unbalanced.
      + rewrite !ascii_only_app, A, A'. reflexivity.
      + rewrite !count_byte_app, B, B'. reflexivity.
      + right. exists 0%nat. rewrite !count_byte_app, Q, Q'. reflexivity.
    - change (sq "'}}]}" ++ pad) with (String DQ ("}}]}" ++ pad)).
      apply Index_marker_quote; [exact Ei|].
      cbn [String.append]. do 4 (apply Index_skip; [reflexivity|]).
      now apply Index_padding. }
  revert v Hl Hv; induction n as [|n IH]; intros v Hl Hv;
    destruct (strings.Index v "data: ") as [i|] eqn:Ei;
    try (now apply Htail);
    destruct (Index_Some _ _ _ Ei) as (Es & _ & Hb).
  - simpl in Hb. lia.
  - remember (take_bytes i v) as a eqn:Ha.
    remember (drop_bytes (i + String.length "data: ") v) as b eqn:Hb'.
    clear Ha Hb' Ei Hb. subst v.
    rewrite !plain_app in Hv.
    apply andb_true_iff in Hv as [Hpa Hv]. apply andb_true_iff in Hv as [_ Hpb].
    rewrite !length_append in Hl. simpl in Hl.
    rewrite !append_assoc, extract_marker_app.
    rewrite extract_quiet by now apply plain_quiet.
    change (EmptyString ++ ?x) with x. apply IH; [lia | assumption].
Qed.

End LostFrames.

(** X13.  A marker inside the content loses the whole frame: for a
    fragment of plain text that holds the six bytes [data: ] anywhere,
    the streaming extractor gets nothing out of the frame of the
    fragment, not even the text in front of the marker. *)
Theorem marker_in_content_loses_the_frame (c pad : string) (i : nat) :
  plain c = true -> strings.Index c "data: " = Some i ->
  padding pad = true ->
  extract.extractContentFromStream ("data: " ++ one_choice "delta" c ++ pad)
  = EmptyString.
Proof.
  intros Hc Hi Hp.
  destruct (Index_Some _ _ _ Hi) as (Es & _ & _).
  remember (take_bytes i c) as u eqn:Hu.
  remember (drop_bytes (i + String.length "data: ") c) as v eqn:Hv.
  clear Hu Hv Hi. subst c.
  rewrite !plain_app in Hc.
  apply andb_true_iff in Hc as [Hpu Hc]. apply andb_true_iff in Hc as [_ Hpv].
  rewrite extract_marker_head.
  assert (one_choice "delta" (u ++ "data: " ++ v) ++ pad
          = (sq "{'choices':[{'delta':{'content':'" ++ u)
            ++ "data: " ++ (v ++ sq "'}}]}" ++ pad)) as ->.
  { unfold one_choice. cbn [sq String.append].
    repeat (rewrite ?append_assoc; cbn [String.append]). reflexivity. }
  rewrite extract_marker_app.
  rewrite extract_frame_head by assumption.
  now rewrite (extract_frame_tail_fuel (String.length v)) by (lia || assumption).
Qed.

(** X13 on a frame whose text quotes the marker. *)
Lemma marker_in_content_witness :
  extract.extractContentFromStream
    (sq "data: {'choices':[{'delta':{'content':'send data: now'}}]}"
     ++ String LF (String LF ""))
  = EmptyString.
Proof.
  apply (marker_in_content_loses_the_frame "send data: now"
           (String LF (String LF "")) 5); reflexivity.
Defined.
